(** * Collage generator (script.js): batch scheduler, geometry, tiles, de-duplication

    A shallow embedding of the [App] module of [src/script.js], followed by
    the operations on the image list and its store, the downloads, the saved
    settings, and the cache handling of [src/sw.js].

    Conventions of the embedding.
    - A JavaScript number that holds an integer is a [Z]; a number that may be
      fractional (a ratio, a canvas coordinate) is a [Q].  The JavaScript
      quotient [a / b] is [Qdiv], rounded where the next item says so; a
      division by zero gives an infinity or [NaN] in JavaScript and 0 in
      [Q], and is treated apart where it decides a branch (the cell ratio of
      [coverDraw]).  [Math.floor] and [Math.ceil] are [Qfloor] and
      [Qceiling].
    - Doubles.  Integers below [2^53] are doubles, and the quotient of two
      of them is floored or ceiled to the same integer with or without
      rounding, so counts and the cell width are computed exactly.  The
      aspect ratio and the quotient [cellW / ratio] are fractional doubles
      that decide an integer: there the rounding to 53 significant bits is
      modelled, by [fl].  The exponent range of doubles is not modelled (no
      overflow to [Infinity], no underflow).  The coordinates handed to the
      canvas by [coverDraw] and [drawNumber], and the two ratios [coverDraw]
      compares, are kept as exact rationals; tile numbers are exact below
      [2^53].
    - [parseInt(el.value)] is an [option Z], [None] standing for [NaN]; the
      idiom [parseInt(..) || d] is [or_default].
    - The DOM controls are read into one record [Inputs]; they are taken to be
      left alone while a run is in progress, and so is [state.images].
    - [generate] is an [async] function: other handlers run only while it is
      suspended at an [await].  The one handler that matters here is
      [cancelProcess]; an environment [Env] says during which suspensions it
      fires, what [img.decode()] answers and whether [canvas.toBlob] delivers. *)

From Stdlib Require Import ZArith QArith Qround Qpower Lia Lqa.
From stdpp Require Import base list strings gmap sorting.

Local Open Scope Z_scope.

(** ** Numbers *)

(** [v || d] for a number [v]: [0] and [NaN] are falsy. *)
Definition or_default (v : option Z) (d : Z) : Z :=
  match v with
  | Some z => if z =? 0 then d else z
  | None => d
  end.

(** [a / b] on two integer-valued numbers. *)
Definition quot (a b : Z) : Q := (inject_Z a / inject_Z b)%Q.

(** [Math.floor(a / b)] and [Math.ceil(a / b)]. *)
Definition floor_div (a b : Z) : Z := Qfloor (quot a b).
Definition ceil_div (a b : Z) : Z := Qceiling (quot a b).

Definition Qgtb (a b : Q) : bool := negb (Qle_bool a b).

(** *** Rounding to a double

    The result of an arithmetic operation on doubles is the exact result
    rounded to the nearest number with 53 significant bits, ties going to
    the even significand. *)

Definition pow2 (z : Z) : Q := (2 ^ z)%Q.

(** The exponent of the leading bit of a positive number: [2^e <= x < 2^(e+1)]. *)
Definition bexp (x : Q) : Z :=
  let e0 := Z.log2 (Qnum x) - Z.log2 (Zpos (Qden x)) in
  if Qle_bool (pow2 e0) x then e0 else e0 - 1.

(** The nearest integer, ties to even. *)
Definition rne (y : Q) : Z :=
  let f := Qfloor y in
  match (y - inject_Z f ?= 1 # 2)%Q with
  | Lt => f
  | Gt => f + 1
  | Eq => if Z.even f then f else f + 1
  end.

(** A positive number rounded to 53 significant bits. *)
Definition round53 (x : Q) : Q :=
  let q := bexp x - 52 in
  (inject_Z (rne (x / pow2 q)) * pow2 q)%Q.

Definition fl (x : Q) : Q :=
  match (x ?= 0)%Q with
  | Eq => 0%Q
  | Gt => round53 x
  | Lt => (- round53 (- x))%Q
  end.

(** ** The controls read by the generator *)

(** The value of the ratio control: ['custom'], or a value of which
    [parseFloat] makes the double [q]. *)
Inductive AspectSel :=
| RatioCustom
| RatioPreset (q : Q).

Record Inputs := {
  in_cols : option Z;
  in_group_rows : option Z;
  in_customQ_unified : option Z;
  in_gap : option Z;
  in_aspectRatio : AspectSel;
  in_customW : option Z;
  in_customH : option Z;
  in_showNum : bool;
  in_startNumber : option Z;
  in_fontFamily : string;
  in_fontWeightSelect : string;
  in_customWeightRange : string;
  in_fontColor : string;
  in_fontOpacity : option Z;
  in_fontPos : string;
  in_enableStroke : bool;
  in_fontStrokeColor : string;
  in_overlayOpacityRange : Q;
  in_overlayMode : string
}.

Definition MAX_CANVAS_DIM : Z := 8192.

(** [getAspectRatio]: the custom ratio is the double quotient [w / h]. *)
Definition getAspectRatio (inp : Inputs) : Q :=
  match in_aspectRatio inp with
  | RatioCustom =>
      let w := or_default (in_customW inp) 1000 in
      let h := or_default (in_customH inp) 1500 in
      fl (quot w h)
  | RatioPreset q => q
  end.

(** ** Geometry of one group (lines 197-208 of [generate]) *)

Module Geometry.

(** [let cellW = 1500; if (cols * cellW > MAX_CANVAS_DIM) cellW = ...] *)
Definition cellW (cols gap : Z) : Z :=
  let cellW := 1500 in
  if MAX_CANVAS_DIM <? cols * cellW
  then floor_div (MAX_CANVAS_DIM - cols * gap) cols
  else cellW.

(** [const cellH = Math.floor(cellW / ratio)]: the quotient is a double. *)
Definition cellH (cellW : Z) (ratio : Q) : Z :=
  Qfloor (fl (inject_Z cellW / ratio))%Q.

(** [const realRows = Math.ceil(batchImgs.length / realCols)] *)
Definition realRows (len realCols : Z) : Z := ceil_div len realCols.

(** The values assigned to [canvas.width] and [canvas.height]. *)
Definition pageWidth (realCols cellW gap : Z) : Z :=
  realCols * cellW + (realCols - 1) * gap.

Definition pageHeight (realRows cellH gap : Z) : Z :=
  realRows * cellH + (realRows - 1) * gap.

Record t := {
  g_cellW : Z;
  g_cellH : Z;
  g_realCols : Z;
  g_realRows : Z;
  g_width : Z;
  g_height : Z
}.

Definition compute (cols gap : Z) (ratio : Q) (len : Z) : t :=
  let cw := cellW cols gap in
  let ch := cellH cw ratio in
  let realCols := cols in
  let rr := realRows len realCols in
  {| g_cellW := cw; g_cellH := ch; g_realCols := realCols; g_realRows := rr;
     g_width := pageWidth realCols cw gap;
     g_height := pageHeight rr ch gap |}.

End Geometry.

(** ** The canvas: what has been drawn on it since it was last resized *)

Record Rect := { rx : Q; ry : Q; rw : Q; rh : Q }.

Definition cellRect (x y w h : Z) : Rect :=
  {| rx := inject_Z x; ry := inject_Z y; rw := inject_Z w; rh := inject_Z h |}.

Inductive TextContent :=
| TxtCross
| TxtNum (n : Z).

Inductive Baseline := BaseAlphabetic | BaseTop | BaseMiddle.
Inductive Align := AlignStart | AlignLeft | AlignRight | AlignCenter.

Record TextStyle := {
  ts_weight : string;
  ts_size : Q;
  ts_family : string;
  ts_color : string;
  ts_alpha : Q;
  ts_baseline : Baseline;
  ts_align : Align
}.

Inductive DrawOp :=
| FillRect (style : string) (r : Rect)
| ClipDrawImage (url : string) (clip dest : Rect)
| FillText (st : TextStyle) (t : TextContent) (x y : Q)
| StrokeText (st : TextStyle) (lineWidth : Q) (t : TextContent) (x y : Q)
| DrawOverlay (src : string) (alpha : Q) (mode : string) (dest : Rect).

(** [cv_width] and [cv_height] hold the values the script assigns; what the
    platform does with sizes it cannot allocate is outside the model. *)
Record Canvas := { cv_width : Z; cv_height : Z; cv_ops : list DrawOp }.

(** Assigning [canvas.width] or [canvas.height] clears the bitmap. *)
Definition resize (w h : Z) : Canvas :=
  {| cv_width := w; cv_height := h; cv_ops := [] |}.

Definition paint (ops : list DrawOp) (c : Canvas) : Canvas :=
  {| cv_width := cv_width c; cv_height := cv_height c; cv_ops := cv_ops c ++ ops |}.

(** ** The application state and the page around it *)

(** An entry of [state.images]; the object URL is identified with the blob
    it resolves to. *)
Record Img := { img_id : Z; img_name : string; img_url : string }.

(** A record of the [images] object store. *)
Record DBRec := { rec_id : Z; rec_name : string; rec_blob : string }.

(** An encoded page: the format asked of [canvas.toBlob] and the bitmap
    that was encoded. *)
Record Blob := {
  blob_type : string;
  blob_quality : Q;
  blob_page : Canvas
}.

Inductive Error :=
| ErrCancelled
| ErrNullBlob.

Inductive LogEntry :=
| LogDecodeFailed (url : string)
| LogError (e : Error).

Inductive Alert :=
| AlertNoImages
| AlertFailed (e : Error).

Record World := {
  images : list Img;
  generatedBlobs : list (option Blob);
  overlayImg : option string;
  isCancelled : bool;
  db : list DBRec;
  canvas : Canvas;
  container : list Blob;
  resultHidden : bool;
  toast : option (Z * Z);
  console : list LogEntry;
  alerts : list Alert
}.

Definition set_images (v : list Img) (w : World) : World :=
  {| images := v; generatedBlobs := generatedBlobs w; overlayImg := overlayImg w;
     isCancelled := isCancelled w; db := db w; canvas := canvas w;
     container := container w; resultHidden := resultHidden w; toast := toast w;
     console := console w; alerts := alerts w |}.

Definition set_generatedBlobs (v : list (option Blob)) (w : World) : World :=
  {| images := images w; generatedBlobs := v; overlayImg := overlayImg w;
     isCancelled := isCancelled w; db := db w; canvas := canvas w;
     container := container w; resultHidden := resultHidden w; toast := toast w;
     console := console w; alerts := alerts w |}.

Definition set_isCancelled (v : bool) (w : World) : World :=
  {| images := images w; generatedBlobs := generatedBlobs w; overlayImg := overlayImg w;
     isCancelled := v; db := db w; canvas := canvas w;
     container := container w; resultHidden := resultHidden w; toast := toast w;
     console := console w; alerts := alerts w |}.

Definition set_db (v : list DBRec) (w : World) : World :=
  {| images := images w; generatedBlobs := generatedBlobs w; overlayImg := overlayImg w;
     isCancelled := isCancelled w; db := v; canvas := canvas w;
     container := container w; resultHidden := resultHidden w; toast := toast w;
     console := console w; alerts := alerts w |}.

Definition set_canvas (v : Canvas) (w : World) : World :=
  {| images := images w; generatedBlobs := generatedBlobs w; overlayImg := overlayImg w;
     isCancelled := isCancelled w; db := db w; canvas := v;
     container := container w; resultHidden := resultHidden w; toast := toast w;
     console := console w; alerts := alerts w |}.

Definition set_container (v : list Blob) (w : World) : World :=
  {| images := images w; generatedBlobs := generatedBlobs w; overlayImg := overlayImg w;
     isCancelled := isCancelled w; db := db w; canvas := canvas w;
     container := v; resultHidden := resultHidden w; toast := toast w;
     console := console w; alerts := alerts w |}.

Definition set_resultHidden (v : bool) (w : World) : World :=
  {| images := images w; generatedBlobs := generatedBlobs w; overlayImg := overlayImg w;
     isCancelled := isCancelled w; db := db w; canvas := canvas w;
     container := container w; resultHidden := v; toast := toast w;
     console := console w; alerts := alerts w |}.

Definition set_toast (v : option (Z * Z)) (w : World) : World :=
  {| images := images w; generatedBlobs := generatedBlobs w; overlayImg := overlayImg w;
     isCancelled := isCancelled w; db := db w; canvas := canvas w;
     container := container w; resultHidden := resultHidden w; toast := v;
     console := console w; alerts := alerts w |}.

Definition log (e : LogEntry) (w : World) : World :=
  {| images := images w; generatedBlobs := generatedBlobs w; overlayImg := overlayImg w;
     isCancelled := isCancelled w; db := db w; canvas := canvas w;
     container := container w; resultHidden := resultHidden w; toast := toast w;
     console := console w ++ [e]; alerts := alerts w |}.

Definition alert (a : Alert) (w : World) : World :=
  {| images := images w; generatedBlobs := generatedBlobs w; overlayImg := overlayImg w;
     isCancelled := isCancelled w; db := db w; canvas := canvas w;
     container := container w; resultHidden := resultHidden w; toast := toast w;
     console := console w; alerts := alerts w ++ [a] |}.

(** [const cancelProcess = () => { state.isCancelled = true; }] *)
Definition cancelProcess (w : World) : World := set_isCancelled true w.

(** ** The environment of a run *)

(** The points at which [generate] is suspended: [sleep(100)] before group
    [b], [sleep(20)] before tile [i] of group [b], [img.decode()] of that
    tile, and the encoding of page [b]. *)
Inductive Await :=
| SleepGroup (b : Z)
| SleepTile (b i : Z)
| Decode (b i : Z)
| ToBlob (b : Z).

Record Env := {
  cancel_during : Await -> bool;
  decode : Img -> option (Z * Z);
  toBlob_ok : Z -> bool
}.

(** [await ...]: the cancel handler may run before [generate] resumes. *)
Definition suspend (env : Env) (a : Await) (w : World) : World :=
  if cancel_during env a then cancelProcess w else w.

(** ** Array.prototype.slice *)

Definition rel_index (len k : Z) : Z :=
  if k <? 0 then Z.max (len + k) 0 else Z.min k len.

Definition slice {A} (l : list A) (s e : Z) : list A :=
  let len := Z.of_nat (length l) in
  let k := rel_index len s in
  let final := rel_index len e in
  take (Z.to_nat (final - k)) (drop (Z.to_nat k) l).

(** ** Tile renderer *)

(** [String.prototype.includes] *)
Fixpoint includes (s sub : string) : bool :=
  if String.prefix sub s then true
  else match s with
       | EmptyString => false
       | String _ s' => includes s' sub
       end.

(** The cover placement of lines 233-249: the clip rectangle and the
    destination rectangle handed to [drawImage].  The decoded image has a
    positive width and height.  For a cell of height 0 the cell ratio
    [cellW / 0] is an infinity or [NaN], and [iRatio > cRatio] holds only
    when it is the negative infinity. *)
Definition coverDraw (url : string) (iw ih : Z) (x y cellW cellH : Z) : DrawOp :=
  let clip := cellRect x y cellW cellH in
  let iRatio := quot iw ih in
  let cRatio := quot cellW cellH in
  let wider := if cellH =? 0 then cellW <? 0 else Qgtb iRatio cRatio in
  if wider then
    let drawW := (inject_Z cellH * iRatio)%Q in
    ClipDrawImage url clip
      {| rx := (inject_Z x - (drawW - inject_Z cellW) / 2)%Q; ry := inject_Z y;
         rw := drawW; rh := inject_Z cellH |}
  else
    let drawH := (inject_Z cellW / iRatio)%Q in
    ClipDrawImage url clip
      {| rx := inject_Z x; ry := (inject_Z y - (drawH - inject_Z cellH) / 2)%Q;
         rw := inject_Z cellW; rh := drawH |}.

(** The [catch] branch of lines 250-257. *)
Definition placeholder (x y cellW cellH : Z) : list DrawOp :=
  [ FillRect "#eee" (cellRect x y cellW cellH);
    FillText {| ts_weight := ""; ts_size := 40; ts_family := "sans-serif";
                ts_color := "red"; ts_alpha := 1;
                ts_baseline := BaseAlphabetic; ts_align := AlignStart |}
             TxtCross
             (inject_Z x + inject_Z cellW / 2 - 20)%Q
             (inject_Z y + inject_Z cellH / 2)%Q ].

(** The [globalAlpha] setter ignores a value that is [NaN] or outside
    [0, 1]; the alpha in force is then the default 1. *)
Definition fontAlpha (v : option Z) : Q :=
  match v with
  | Some z => if (0 <=? z) && (z <=? 100) then quot z 100 else 1%Q
  | None => 1%Q
  end.

(** The number printed on the tile with overall index [index]. *)
Definition label (inp : Inputs) (index : Z) : Z :=
  let startNum := or_default (in_startNumber inp) 1 in
  startNum + index.

Definition drawNumber (inp : Inputs) (index x y w h : Z) : list DrawOp :=
  if negb (in_showNum inp) then []
  else
    let num := label inp index in
    let baseSize := 350%Q in
    let scale := quot w 1500 in
    let fontSize := (baseSize * scale)%Q in
    let family := in_fontFamily inp in
    let weightRaw := in_fontWeightSelect inp in
    let weight := if String.eqb weightRaw "custom"
                  then in_customWeightRange inp else weightRaw in
    let pos := in_fontPos inp in
    let pad := (40 * scale)%Q in
    let '(ty, baseline) :=
      if includes pos "bottom" then ((inject_Z y + inject_Z h - pad)%Q, BaseAlphabetic)
      else if includes pos "top" then ((inject_Z y + pad)%Q, BaseTop)
      else ((inject_Z y + inject_Z h / 2)%Q, BaseMiddle) in
    let '(tx, align) :=
      if includes pos "left" then ((inject_Z x + pad)%Q, AlignLeft)
      else if includes pos "right" then ((inject_Z x + inject_Z w - pad)%Q, AlignRight)
      else ((inject_Z x + inject_Z w / 2)%Q, AlignCenter) in
    let st := {| ts_weight := weight; ts_size := fontSize; ts_family := family;
                 ts_color := in_fontColor inp;
                 ts_alpha := fontAlpha (in_fontOpacity inp);
                 ts_baseline := baseline; ts_align := align |} in
    (if in_enableStroke inp
     then [StrokeText {| ts_weight := weight; ts_size := fontSize; ts_family := family;
                         ts_color := in_fontStrokeColor inp;
                         ts_alpha := fontAlpha (in_fontOpacity inp);
                         ts_baseline := baseline; ts_align := align |}
                      (fontSize * (5 # 100))%Q (TxtNum num) tx ty]
     else [])
    ++ [FillText st (TxtNum num) tx ty].

(** Position of tile [i] in a grid of [realCols] columns. *)
Definition tileX (g : Geometry.t) (gap i : Z) : Z :=
  let c := Z.rem i (Geometry.g_realCols g) in
  c * (Geometry.g_cellW g + gap).

Definition tileY (g : Geometry.t) (gap i : Z) : Z :=
  let r := floor_div i (Geometry.g_realCols g) in
  r * (Geometry.g_cellH g + gap).

(** What the [try/catch] of lines 229-261 paints for one image. *)
Definition drawImageOrPlaceholder (env : Env) (g : Geometry.t) (gap i : Z)
    (imgObj : Img) : list DrawOp :=
  let x := tileX g gap i in
  let y := tileY g gap i in
  match decode env imgObj with
  | Some (iw, ih) =>
      [coverDraw (img_url imgObj) iw ih x y (Geometry.g_cellW g) (Geometry.g_cellH g)]
  | None => placeholder x y (Geometry.g_cellW g) (Geometry.g_cellH g)
  end.

(** Everything painted for tile [i] of group [b]: the image or its
    placeholder, then the number. *)
Definition tileOps (env : Env) (inp : Inputs) (g : Geometry.t)
    (gap batchSize b i : Z) (imgObj : Img) : list DrawOp :=
  drawImageOrPlaceholder env g gap i imgObj
  ++ drawNumber inp (i + b * batchSize) (tileX g gap i) (tileY g gap i)
       (Geometry.g_cellW g) (Geometry.g_cellH g).

(** ** Batch scheduler *)

Inductive Completion :=
| Normal
| Thrown (e : Error).

(** One turn of the drawing loop after its cancel check: the periodic
    [sleep(20)], the decode, the tile and its number (lines 217-264). *)
Definition tileStep (env : Env) (inp : Inputs) (g : Geometry.t)
    (gap batchSize b i : Z) (imgObj : Img) (w : World) : World :=
  let w := if (0 <? i) && (Z.rem i 10 =? 0)
           then suspend env (SleepTile b i) w else w in
  let w := suspend env (Decode b i) w in
  let w := match decode env imgObj with
           | Some _ => w
           | None => log (LogDecodeFailed (img_url imgObj)) w
           end in
  set_canvas (paint (tileOps env inp g gap batchSize b i imgObj) (canvas w)) w.

Arguments tileStep : simpl never.

(** The drawing loop of lines 214-265, from tile [i] on. *)
Fixpoint drawLoop (env : Env) (inp : Inputs) (g : Geometry.t)
    (gap batchSize b i : Z) (batchImgs : list Img) (w : World)
    : Completion * World :=
  match batchImgs with
  | [] => (Normal, w)
  | imgObj :: rest =>
      if isCancelled w then (Thrown ErrCancelled, w)
      else drawLoop env inp g gap batchSize b (i + 1) rest
             (tileStep env inp g gap batchSize b i imgObj w)
  end.

Definition overlayOps (inp : Inputs) (w : World) : list DrawOp :=
  match overlayImg w with
  | Some src =>
      [DrawOverlay src (in_overlayOpacityRange inp) (in_overlayMode inp)
         (cellRect 0 0 (cv_width (canvas w)) (cv_height (canvas w)))]
  | None => []
  end.

Definition encode (qVal : Z) (c : Canvas) : Blob :=
  let quality := quot qVal 100 in
  let isPng := qVal =? 100 in
  {| blob_type := if isPng then "image/png" else "image/jpeg";
     blob_quality := quality; blob_page := c |}.

(** Lines 197-211: the geometry of the group, then a canvas of the page
    size filled with white. *)
Definition groupGeometry (inp : Inputs) (cols gap : Z) (batchImgs : list Img)
    : Geometry.t :=
  let ratio := getAspectRatio inp in
  Geometry.compute cols gap ratio (Z.of_nat (length batchImgs)).

Definition blankPage (g : Geometry.t) (w : World) : World :=
  let w := set_canvas (resize (Geometry.g_width g) (Geometry.g_height g)) w in
  set_canvas
    (paint [FillRect "#FFFFFF"
              (cellRect 0 0 (cv_width (canvas w)) (cv_height (canvas w)))]
           (canvas w)) w.

(** Lines 267-288: overlay, encoding, preview, release of the canvas.  A
    [null] blob is pushed before [URL.createObjectURL] throws on it. *)
Definition finishPage (env : Env) (inp : Inputs) (qVal b : Z) (w : World)
    : Completion * World :=
  let w := set_canvas (paint (overlayOps inp w) (canvas w)) w in
  let blob := if toBlob_ok env b then Some (encode qVal (canvas w)) else None in
  let w := suspend env (ToBlob b) w in
  let w := set_generatedBlobs (generatedBlobs w ++ [blob]) w in
  match blob with
  | None => (Thrown ErrNullBlob, w)
  | Some bl =>
      let w := set_container (container w ++ [bl]) w in
      (Normal, set_canvas (resize 1 1) w)
  end.

Arguments blankPage : simpl never.
Arguments finishPage : simpl never.

(** The loop over the groups, lines 189-289; [todo] is the number of
    iterations left, that is [totalBatches - b]. *)
Fixpoint groupLoop (env : Env) (inp : Inputs)
    (cols gap qVal batchSize totalBatches : Z) (todo : nat) (b : Z) (w : World)
    : Completion * World :=
  match todo with
  | O => (Normal, w)
  | S todo' =>
      if isCancelled w then (Normal, w)
      else
        let w := set_toast (Some (b + 1, totalBatches)) w in
        let w := suspend env (SleepGroup b) w in
        let batchImgs := slice (images w) (b * batchSize) ((b + 1) * batchSize) in
        let g := groupGeometry inp cols gap batchImgs in
        let w := blankPage g w in
        match drawLoop env inp g gap batchSize b 0 batchImgs w with
        | (Thrown e, w) => (Thrown e, w)
        | (Normal, w) =>
            match finishPage env inp qVal b w with
            | (Thrown e, w) => (Thrown e, w)
            | (Normal, w) =>
                groupLoop env inp cols gap qVal batchSize totalBatches todo' (b + 1) w
            end
        end
  end.

Record Run := { completion : option Completion; final : World }.

(** The parameters read at lines 178-186. *)
Definition colsOf (inp : Inputs) : Z := or_default (in_cols inp) 3.
Definition rowsOf (inp : Inputs) : Z := or_default (in_group_rows inp) 3.
Definition qValOf (inp : Inputs) : Z := or_default (in_customQ_unified inp) 50.
Definition gapOf (inp : Inputs) : Z := or_default (in_gap inp) 0.
Definition batchSizeOf (inp : Inputs) : Z := colsOf inp * rowsOf inp.
Definition totalBatchesOf (inp : Inputs) (imgs : list Img) : Z :=
  ceil_div (Z.of_nat (length imgs)) (batchSizeOf inp).

(** [calculateGroupBatch]: the batch size and the number of groups shown
    in the hint, which is only refreshed for positive columns and rows. *)
Definition calculateGroupBatch (inp : Inputs) (w : World) : option (Z * Z) :=
  let cols := or_default (in_cols inp) 3 in
  let rows := or_default (in_group_rows inp) 3 in
  let total := Z.of_nat (length (images w)) in
  if (0 <? cols) && (0 <? rows) then
    let batchSize := cols * rows in
    let groups := if 0 <? total then ceil_div total batchSize else 0 in
    Some (batchSize, groups)
  else None.

(** Lines 166-175: the flag is reset and the previous output dropped. *)
Definition beginRun (w : World) : World :=
  let w := set_isCancelled false w in
  let w := set_resultHidden true w in
  let w := set_container [] w in
  set_generatedBlobs [] w.

(** Lines 291-297: what follows the loop, or the [catch] clause. *)
Definition endRun (c : Completion) (w : World) : World :=
  match c with
  | Normal => set_resultHidden false w
  | Thrown e =>
      let w := log (LogError e) w in
      if negb (isCancelled w) then alert (AlertFailed e) w else w
  end.

(** [generate]; [completion] is [None] when the request was turned down at
    line 165, and otherwise tells how the [try] block was left.  The
    [finally] clause hides the toast. *)
Definition generate_run (env : Env) (inp : Inputs) (w : World) : Run :=
  match images w with
  | [] => {| completion := None; final := alert AlertNoImages w |}
  | _ :: _ =>
      let w := beginRun w in
      let cols := colsOf inp in
      let qVal := qValOf inp in
      let gap := gapOf inp in
      let batchSize := batchSizeOf inp in
      let totalBatches := totalBatchesOf inp (images w) in
      let '(c, w) :=
        groupLoop env inp cols gap qVal batchSize totalBatches
          (Z.to_nat totalBatches) 0 w in
      let w := endRun c w in
      {| completion := Some c; final := set_toast None w |}
  end.

Definition generate (env : Env) (inp : Inputs) (w : World) : World :=
  final (generate_run env inp w).

(** The terminal state of the scheduler, read off the way the run ended:
    an alert was raised ([Failed]), or the cancel flag is set ([Cancelled]),
    or neither ([Completed]). *)
Inductive Status := Completed | Cancelled | Failed.

Definition status (r : Run) : option Status :=
  match completion r with
  | None => None
  | Some (Thrown _) => Some (if isCancelled (final r) then Cancelled else Failed)
  | Some Normal => Some (if isCancelled (final r) then Cancelled else Completed)
  end.

(** ** Image store and de-duplication *)

(** The object store is kept as the list of its records in ascending key
    order, which is the order [getAll] answers in. *)
Definition DB_getAll (store : list DBRec) : list DBRec := store.

Definition DB_delete (id : Z) (store : list DBRec) : list DBRec :=
  filter (fun r => rec_id r <> id) store.

Definition createObjectURL (blob : string) : string := blob.

Definition toImg (r : DBRec) : Img :=
  {| img_id := rec_id r; img_name := rec_name r; img_url := createObjectURL (rec_blob r) |}.

Definition refreshImagesFromDB (w : World) : World :=
  let records := DB_getAll (db w) in
  set_images (map toImg records) w.

Record Scan := { seen : gset string; keepIds : list Z; deleteIds : list Z }.

(** The body of the [forEach] of lines 467-473. *)
Definition scanStep (acc : Scan) (img : Img) : Scan :=
  if decide (img_name img ∈ seen acc)
  then {| seen := seen acc; keepIds := keepIds acc;
          deleteIds := deleteIds acc ++ [img_id img] |}
  else {| seen := {[img_name img]} ∪ seen acc;
          keepIds := keepIds acc ++ [img_id img];
          deleteIds := deleteIds acc |}.

Definition scan (imgs : list Img) : Scan :=
  foldl scanStep {| seen := ∅; keepIds := []; deleteIds := [] |} imgs.

Definition removeDuplicates (w : World) : World :=
  let s := scan (images w) in
  let w := foldl (fun w id => set_db (DB_delete id (db w)) w) w (deleteIds s) in
  refreshImagesFromDB w.

(** ** Notions used to state the properties *)

(** The region of the bitmap inside a rectangle. *)
Definition inRect (r : Rect) (px py : Q) : Prop :=
  (rx r <= px /\ px < rx r + rw r /\ ry r <= py /\ py < ry r + rh r)%Q.

(** The pixels an image or fill operation may modify: a clipped
    [drawImage] reaches the part of its destination that lies in the clip
    region.  Text is not confined by its anchor point. *)
Definition footprint (op : DrawOp) (px py : Q) : Prop :=
  match op with
  | FillRect _ r => inRect r px py
  | ClipDrawImage _ clip dest => inRect clip px py /\ inRect dest px py
  | DrawOverlay _ _ _ dest => inRect dest px py
  | FillText _ _ _ _ | StrokeText _ _ _ _ _ => True
  end.

(** What the drawing loop paints from tile [i] on, and what it logs. *)
Fixpoint tilesOps (env : Env) (inp : Inputs) (g : Geometry.t)
    (gap batchSize b i : Z) (batchImgs : list Img) : list DrawOp :=
  match batchImgs with
  | [] => []
  | imgObj :: rest =>
      tileOps env inp g gap batchSize b i imgObj
      ++ tilesOps env inp g gap batchSize b (i + 1) rest
  end.

Fixpoint decodeLog (env : Env) (batchImgs : list Img) : list LogEntry :=
  match batchImgs with
  | [] => []
  | imgObj :: rest =>
      match decode env imgObj with
      | Some _ => decodeLog env rest
      | None => LogDecodeFailed (img_url imgObj) :: decodeLog env rest
      end
  end.

(** The images of group [b]. *)
Definition batchOf (imgs : list Img) (batchSize b : Z) : list Img :=
  slice imgs (b * batchSize) ((b + 1) * batchSize).

(** The finished page of a group: white background, tiles, overlay. *)
Definition pageOf (env : Env) (inp : Inputs) (overlay : option string)
    (cols gap batchSize b : Z) (batchImgs : list Img) : Canvas :=
  let g := groupGeometry inp cols gap batchImgs in
  let wd := Geometry.g_width g in
  let ht := Geometry.g_height g in
  {| cv_width := wd; cv_height := ht;
     cv_ops := FillRect "#FFFFFF" (cellRect 0 0 wd ht)
               :: tilesOps env inp g gap batchSize b 0 batchImgs
               ++ match overlay with
                  | Some src =>
                      [DrawOverlay src (in_overlayOpacityRange inp)
                         (in_overlayMode inp) (cellRect 0 0 wd ht)]
                  | None => []
                  end |}.

(** The parts of the world the drawing loop leaves alone. *)
Definition frame (w w' : World) : Prop :=
  images w' = images w /\ generatedBlobs w' = generatedBlobs w /\
  overlayImg w' = overlayImg w /\ db w' = db w /\
  container w' = container w /\ resultHidden w' = resultHidden w /\
  toast w' = toast w /\ alerts w' = alerts w.

(** Whether tile [i] is preceded by a [sleep(20)]. *)
Definition sleeps_before (i : Z) : bool := (0 <? i) && (Z.rem i 10 =? 0).

(** The encoded page of group [b] of the sequence [imgs]. *)
Definition pageBlob (env : Env) (inp : Inputs) (overlay : option string)
    (cols gap qVal batchSize : Z) (imgs : list Img) (b : Z) : Blob :=
  encode qVal
    (pageOf env inp overlay cols gap batchSize b (batchOf imgs batchSize b)).

(** The group a suspension point belongs to. *)
Definition await_group (a : Await) : Z :=
  match a with
  | SleepGroup b | SleepTile b _ | Decode b _ | ToBlob b => b
  end.

(** No cancel request arrives during group [b]. *)
Definition group_quiet (env : Env) (b : Z) : Prop :=
  forall a, await_group a = b -> cancel_during env a = false.

(** What [m] groups from [b] on, each run to its encoding, leave behind. *)
Definition pages_done (env : Env) (inp : Inputs) (cols gap qVal batchSize : Z)
    (w w' : World) (b : Z) (m : nat) : Prop :=
  let bs := seqZ b (Z.of_nat m) in
  let blobAt := pageBlob env inp (overlayImg w) cols gap qVal batchSize (images w) in
  images w' = images w /\ overlayImg w' = overlayImg w /\ db w' = db w
  /\ alerts w' = alerts w /\ resultHidden w' = resultHidden w
  /\ generatedBlobs w' = generatedBlobs w ++ map (fun b' => Some (blobAt b')) bs
  /\ container w' = container w ++ map blobAt bs
  /\ canvas w' = match m with O => canvas w | S _ => resize 1 1 end
  /\ console w' = console w
       ++ concat (map (fun b' => decodeLog env (batchOf (images w) batchSize b')) bs).

(** The encoded page of group [b] in a run of [generate] from [w]. *)
Definition pageAt (env : Env) (inp : Inputs) (w : World) (b : Z) : Blob :=
  pageBlob env inp (overlayImg w) (colsOf inp) (gapOf inp) (qValOf inp)
    (batchSizeOf inp) (images w) b.

(** The images of group [b] in a run from [w]. *)
Definition groupAt (inp : Inputs) (w : World) (b : Z) : list Img :=
  batchOf (images w) (batchSizeOf inp) b.

(** The suspension [a] is reached by a run from [w] that is not cancelled
    earlier. *)
Definition occurs (inp : Inputs) (w : World) (a : Await) : Prop :=
  0 <= await_group a < totalBatchesOf inp (images w)
  /\ match a with
     | SleepTile b i =>
         0 <= i < Z.of_nat (length (groupAt inp w b)) /\ sleeps_before i = true
     | Decode b i => 0 <= i < Z.of_nat (length (groupAt inp w b))
     | SleepGroup _ | ToBlob _ => True
     end.

(** The number of pages a run ends with when the first cancel request
    arrives during [a]: the loop over the tiles looks at the flag before each
    tile, the loop over the groups before each group. *)
Definition artifacts_kept (inp : Inputs) (w : World) (a : Await) : Z :=
  match a with
  | SleepGroup b => b
  | SleepTile b i | Decode b i =>
      if i <? Z.of_nat (length (groupAt inp w b)) - 1 then b else b + 1
  | ToBlob b => b + 1
  end.

(** Program order of the suspension points of a run. *)
Definition await_pos (a : Await) : Z * Z * Z :=
  match a with
  | SleepGroup b => (b, 0, 0)
  | SleepTile b i => (b, 1, 2 * i)
  | Decode b i => (b, 1, 2 * i + 1)
  | ToBlob b => (b, 2, 0)
  end.

Definition await_before (a a' : Await) : Prop :=
  let '(b, p, k) := await_pos a in
  let '(b', p', k') := await_pos a' in
  b < b' \/ (b = b' /\ (p < p' \/ (p = p' /\ k < k'))).

(** No cancel request arrives before the suspension [a]. *)
Definition quiet_before (env : Env) (a : Await) : Prop :=
  forall a', await_before a' a -> cancel_during env a' = false.

Definition never_cancelled (env : Env) : Prop :=
  forall a, cancel_during env a = false.

Definition encodes_all (env : Env) : Prop :=
  forall b, toBlob_ok env b = true.

(** The ids [removeDuplicates] deletes, read off the sequence: those of the
    images whose name is in [seen] or borne by an earlier image. *)
Fixpoint later_dups (seen : gset string) (imgs : list Img) : list Z :=
  match imgs with
  | [] => []
  | img :: rest =>
      if decide (img_name img ∈ seen)
      then img_id img :: later_dups seen rest
      else later_dups ({[img_name img]} ∪ seen) rest
  end.

(** Image [i] of the sequence is the first one with its name. *)
Definition first_of_name (imgs : list Img) (i : nat) (img : Img) : Prop :=
  imgs !! i = Some img
  /\ forall j img', (j < i)%nat -> imgs !! j = Some img' -> img_name img' <> img_name img.

(** The sequence shown is a reordering of the store, whose keys ascend. *)
Definition store_consistent (w : World) : Prop :=
  images w ≡ₚ map toImg (db w)
  /\ StronglySorted Z.lt (map rec_id (db w)).

(** ** The image list and its store: import, reorder, delete, replace

    [refreshImagesFromDB] calls [updateUI], which [script.js] does not
    define; the store and [state.images] are set before that call, and they
    are all the following definitions keep track of. *)

(** A file handed to the page: its name and its content. *)
Record File := { file_name : string; file_blob : string }.

(** The state around [World] that the list operations need: the current
    number of the key generator of the [images] store ([autoIncrement]) and
    [state.targetIndex]. *)
Record App := { world : World; keygen : Z; targetIndex : Z }.

Definition with_world (f : World -> World) (a : App) : App :=
  {| world := f (world a); keygen := keygen a; targetIndex := targetIndex a |}.

(** [store.add({ name: file.name, blob: file, created: Date.now() })]: the
    record gets the generator's current number as its key and the generator
    advances.  The generator is ahead of every key in the store, so the new
    record is the last one in key order.  The time stamp is not kept. *)
Definition DB_add (file : File) (a : App) : App :=
  {| world :=
       set_db (db (world a)
               ++ [{| rec_id := keygen a; rec_name := file_name file;
                      rec_blob := file_blob file |}]) (world a);
     keygen := keygen a + 1;
     targetIndex := targetIndex a |}.

Definition DB_addImages (files : list File) (a : App) : App :=
  foldl (fun a file => DB_add file a) a files.

(** [objectStore.clear()] removes the records and leaves the key generator
    where it is. *)
Definition DB_clear (a : App) : App := with_world (set_db []) a.

(** The page after [DB.init] on an empty database. *)
Definition freshApp (w : World) : App :=
  {| world := set_images [] (set_db [] w); keygen := 1; targetIndex := -1 |}.

Definition handleFiles (files : list File) (a : App) : App :=
  match files with
  | [] => a
  | _ :: _ => with_world refreshImagesFromDB (DB_addImages files a)
  end.

(** [Array.prototype.splice]: the removed elements and the array afterwards. *)
Definition splice {A} (l : list A) (start deleteCount : Z) (items : list A)
    : list A * list A :=
  let len := Z.of_nat (length l) in
  let s := rel_index len start in
  let dc := Z.min (Z.max deleteCount 0) (len - s) in
  (take (Z.to_nat dc) (drop (Z.to_nat s) l),
   take (Z.to_nat s) l ++ items ++ drop (Z.to_nat (s + dc)) l).

(** [item = l.splice(oldIndex, 1)[0]; l.splice(newIndex, 0, item)].  [None]
    stands for the array that would hold [undefined] when [oldIndex] is
    past the end. *)
Definition moveItem {A} (oldIndex newIndex : Z) (l : list A) : option (list A) :=
  let '(removed, rest) := splice l oldIndex 1 [] in
  match removed with
  | item :: _ => Some (snd (splice rest newIndex 0 [item]))
  | [] => None
  end.

(** The [onEnd] handler of the sortable grid, lines 154-159. *)
Definition onEnd (oldIndex newIndex : Z) (imgs : list Img) : option (list Img) :=
  moveItem oldIndex newIndex imgs.

(** A tile of the grid as [renderGrid] builds it (lines 138-145): the image
    it shows and the index its [onmouseup] handler passes on. *)
Record Tile := { tile_img : Img; tile_index : Z }.

Definition renderGrid (imgs : list Img) : list Tile :=
  imap (fun i img => {| tile_img := img; tile_index := Z.of_nat i |}) imgs.

(** The grid after the sortable moved the dragged tile from [oldIndex] to
    [newIndex]; the tiles are not rendered again. *)
Definition dragTile (oldIndex newIndex : Z) (tiles : list Tile) : option (list Tile) :=
  moveItem oldIndex newIndex tiles.

(** [arr[i]] for an integer [i]. *)
Definition at_index {A} (l : list A) (i : Z) : option A :=
  if i <? 0 then None else l !! Z.to_nat i.

Definition openImageActions (index : Z) (a : App) : App :=
  {| world := world a; keygen := keygen a; targetIndex := index |}.

(** Releasing the mouse on the tile at position [p] of the grid. *)
Definition clickTile (tiles : list Tile) (p : nat) (a : App) : App :=
  match tiles !! p with
  | Some t => openImageActions (tile_index t) a
  | None => a
  end.

Definition deleteAndRefresh (id : Z) (w : World) : World :=
  refreshImagesFromDB (set_db (DB_delete id (db w)) w).

(** [triggerDelete]; [None] is the [TypeError] of [img.id] on a missing
    image, raised before anything is changed. *)
Definition triggerDelete (a : App) : option App :=
  if -1 <? targetIndex a then
    match at_index (images (world a)) (targetIndex a) with
    | Some img => Some (with_world (deleteAndRefresh (img_id img)) a)
    | None => None
    end
  else Some a.

(** [handleReplaceAction]: the old record is deleted and the first file is
    added at the end. *)
Definition handleReplaceAction (files : list File) (a : App) : option App :=
  match files with
  | file :: _ =>
      if -1 <? targetIndex a then
        match at_index (images (world a)) (targetIndex a) with
        | Some oldImg =>
            let a := with_world (fun w => set_db (DB_delete (img_id oldImg) (db w)) w) a in
            let a := DB_addImages [file] a in
            Some (with_world refreshImagesFromDB a)
        | None => None
        end
      else Some a
  | [] => Some a
  end.

(** [clearAll], given the answer to [confirm]. *)
Definition clearAll (confirmed : bool) (a : App) : App :=
  if confirmed then with_world refreshImagesFromDB (DB_clear a) else a.

(** What the user can do to the list, and the page after it. *)
Inductive Action :=
| Import (files : list File)
| Drag (oldIndex newIndex : Z)
| OpenSheet (index : Z)
| Delete
| Replace (files : list File)
| ClearAll (confirmed : bool)
| Dedup
| Generate (env : Env) (inp : Inputs)
| Cancel.

Definition act (x : Action) (a : App) : option App :=
  match x with
  | Import files => Some (handleFiles files a)
  | Drag oldIndex newIndex =>
      match onEnd oldIndex newIndex (images (world a)) with
      | Some imgs => Some (with_world (set_images imgs) a)
      | None => None
      end
  | OpenSheet index => Some (openImageActions index a)
  | Delete => triggerDelete a
  | Replace files => handleReplaceAction files a
  | ClearAll confirmed => Some (clearAll confirmed a)
  | Dedup => Some (with_world removeDuplicates a)
  | Generate env inp => Some (with_world (generate env inp) a)
  | Cancel => Some (with_world cancelProcess a)
  end.

Fixpoint acts (xs : list Action) (a : App) : option App :=
  match xs with
  | [] => Some a
  | x :: xs' =>
      match act x a with
      | Some a' => acts xs' a'
      | None => None
      end
  end.

(** The list shows the store's records, possibly reordered, and the key
    generator is ahead of every key. *)
Definition app_ok (a : App) : Prop :=
  store_consistent (world a)
  /\ Forall (fun r => rec_id r < keygen a) (db (world a)).

(** The record made of the [i]-th imported file when the generator is at
    [k], and the image shown for it. *)
Definition stored (k : Z) (i : nat) (file : File) : DBRec :=
  {| rec_id := k + Z.of_nat i; rec_name := file_name file;
     rec_blob := file_blob file |}.


Definition imported (k : Z) (i : nat) (file : File) : Img :=
  toImg (stored k i file).

(** ** Downloads *)

Inductive DownloadType := DlZip | DlParts | DlOther.

(** [`拼图_${number}.${ext}`]: a file name is its number and its extension. *)
Record FileName := { fn_number : Z; fn_ext : string }.

Inductive DownloadResult :=
| NothingGenerated
| Declined
| NoDownload
| ZipArchive (entries : list (FileName * option Blob))
| PartFiles (files : list (Z * FileName * Blob)).

(** [value == 100] of line 536, on the string the quality control holds
    when the download is requested.  The comparison converts the string to a
    number as [Number] does, not as [parseInt] does: [qNumber] is that
    number, [None] when the string is not a finite number.  The two readings
    differ on strings such as [100.5] (100.5 here, 100 for [parseInt]) and
    [1e2] (100 here, 1 for [parseInt]). *)
Definition looseEq100 (qNumber : option Q) : bool :=
  match qNumber with
  | Some x => Qeq_bool x 100
  | None => false
  end.

(** The entries [folder.file(name, b)] of the archive; the extension is
    read off the quality control at the time of the download. *)
Definition zipEntries (qNumber : option Q) (blobs : list (option Blob))
    : list (FileName * option Blob) :=
  let ext := if looseEq100 qNumber then "png" else "jpg" in
  imap (fun i b => ({| fn_number := Z.of_nat i + 1; fn_ext := ext |}, b)) blobs.

(** The downloads started by the timers of the [parts] branch, each with
    its delay in milliseconds; the callback of a [null] blob throws and
    starts nothing. *)
Definition partFiles (blobs : list (option Blob)) : list (Z * FileName * Blob) :=
  omap (fun x => x)
    (imap (fun i ob =>
             match ob with
             | Some b =>
                 Some (Z.of_nat i * 1500,
                       {| fn_number := Z.of_nat i + 1;
                          fn_ext := if includes (blob_type b) "png"
                                    then "png" else "jpg" |},
                       b)
             | None => None
             end) blobs).

Definition confirmDownload (type : DownloadType) (confirmed : bool)
    (qNumber : option Q) (w : World) : DownloadResult :=
  match generatedBlobs w with
  | [] => NothingGenerated
  | _ :: _ =>
      match type with
      | DlZip => ZipArchive (zipEntries qNumber (generatedBlobs w))
      | DlParts =>
          if negb confirmed then Declined
          else PartFiles (partFiles (generatedBlobs w))
      | DlOther => NoDownload
      end
  end.

(** ** Settings *)

(** The values of the controls as strings and check marks, and the two
    boxes whose display the page toggles.  Assigning a saved value to a
    control is taken to store it as it is. *)
Record Controls := {
  c_cols : string;
  c_group_rows : string;
  c_aspectRatio : string;
  c_customQ_unified : string;
  c_showNum : bool;
  c_startNumber : string;
  c_fontFamily : string;
  c_fontWeightSelect : string;
  c_customWeightRange : string;
  c_fontColor : string;
  c_enableStroke : bool;
  c_fontStrokeColor : string;
  c_fontOpacity : string;
  c_fontPos : string;
  c_gap : string;
  c_customW : string;
  c_customH : string;
  c_overlayOpacityRange : string;
  c_overlayMode : string;
  c_customRatioBox : bool;
  c_customWeightBox : bool
}.

(** The object kept under [SETTINGS_KEY]; a field is [None] when the stored
    object has no such property. *)
Record Saved := {
  s_cols : option string;
  s_group_rows : option string;
  s_aspectRatio : option string;
  s_quality : option string;
  s_showNum : option bool;
  s_startNumber : option string;
  s_fontFamily : option string;
  s_fontWeight : option string;
  s_customWeight : option string;
  s_fontColor : option string;
  s_enableStroke : option bool;
  s_fontStrokeColor : option string;
  s_fontOpacity : option string;
  s_fontPos : option string
}.

Definition saveSettings (c : Controls) : Saved :=
  {| s_cols := Some (c_cols c);
     s_group_rows := Some (c_group_rows c);
     s_aspectRatio := Some (c_aspectRatio c);
     s_quality := Some (c_customQ_unified c);
     s_showNum := Some (c_showNum c);
     s_startNumber := Some (c_startNumber c);
     s_fontFamily := Some (c_fontFamily c);
     s_fontWeight := Some (c_fontWeightSelect c);
     s_customWeight := Some (c_customWeightRange c);
     s_fontColor := Some (c_fontColor c);
     s_enableStroke := Some (c_enableStroke c);
     s_fontStrokeColor := Some (c_fontStrokeColor c);
     s_fontOpacity := Some (c_fontOpacity c);
     s_fontPos := Some (c_fontPos c) |}.

(** [if (s.x) el.value = s.x]: a missing or empty string is skipped. *)
Definition restore (saved : option string) (current : string) : string :=
  match saved with
  | Some v => if String.eqb v "" then current else v
  | None => current
  end.

(** [if (s.x !== undefined) el.checked = s.x] *)
Definition restoreCheck (saved : option bool) (current : bool) : bool :=
  match saved with
  | Some v => v
  | None => current
  end.

Definition truthy (saved : option string) : bool :=
  match saved with
  | Some v => negb (String.eqb v "")
  | None => false
  end.

(** [loadSettings]; [stored] is [None] when the key is absent or does not
    parse, in which case nothing is touched. *)
Definition loadSettings (stored : option Saved) (c : Controls) : Controls :=
  match stored with
  | None => c
  | Some s =>
      let aspectRatio := restore (s_aspectRatio s) (c_aspectRatio c) in
      let fontWeight := restore (s_fontWeight s) (c_fontWeightSelect c) in
      {| c_cols := restore (s_cols s) (c_cols c);
         c_group_rows := restore (s_group_rows s) (c_group_rows c);
         c_aspectRatio := aspectRatio;
         c_customQ_unified := restore (s_quality s) (c_customQ_unified c);
         c_showNum := restoreCheck (s_showNum s) (c_showNum c);
         c_startNumber := restore (s_startNumber s) (c_startNumber c);
         c_fontFamily := restore (s_fontFamily s) (c_fontFamily c);
         c_fontWeightSelect := fontWeight;
         c_customWeightRange := restore (s_customWeight s) (c_customWeightRange c);
         c_fontColor := restore (s_fontColor s) (c_fontColor c);
         c_enableStroke := restoreCheck (s_enableStroke s) (c_enableStroke c);
         c_fontStrokeColor := restore (s_fontStrokeColor s) (c_fontStrokeColor c);
         c_fontOpacity := restore (s_fontOpacity s) (c_fontOpacity c);
         c_fontPos := restore (s_fontPos s) (c_fontPos c);
         c_gap := c_gap c;
         c_customW := c_customW c;
         c_customH := c_customH c;
         c_overlayOpacityRange := c_overlayOpacityRange c;
         c_overlayMode := c_overlayMode c;
         c_customRatioBox :=
           if truthy (s_aspectRatio s) then String.eqb aspectRatio "custom"
           else c_customRatioBox c;
         c_customWeightBox :=
           if truthy (s_fontWeight s) then String.eqb fontWeight "custom"
           else c_customWeightBox c |}
  end.

(** The string fields of a saved object are all present and not empty. *)
Definition fully_set (s : Saved) : Prop :=
  truthy (s_cols s) = true /\ truthy (s_group_rows s) = true
  /\ truthy (s_aspectRatio s) = true /\ truthy (s_quality s) = true
  /\ truthy (s_startNumber s) = true /\ truthy (s_fontFamily s) = true
  /\ truthy (s_fontWeight s) = true /\ truthy (s_customWeight s) = true
  /\ truthy (s_fontColor s) = true /\ truthy (s_fontStrokeColor s) = true
  /\ truthy (s_fontOpacity s) = true /\ truthy (s_fontPos s) = true.

(** What saving a control holding [saved] and loading on a page holding
    [page] leaves in the control, [got]: the saved string unless it is
    empty, the string of the page when it is. *)
Definition restored (saved page got : string) : Prop :=
  (saved <> "" -> got = saved) /\ (saved = "" -> got = page).

(** The same for a box shown by [toggleCustomRatio] or [toggleCustomWeight]
    after its select was restored: shown exactly when the saved choice is
    [custom], untouched when the saved choice is empty. *)
Definition box_restored (saved : string) (page got : bool) : Prop :=
  (saved <> "" -> (got = true <-> saved = "custom")) /\ (saved = "" -> got = page).

(** ** The service worker (sw.js) *)

Module SW.

Definition CACHE_NAME : string := "puzzle-ultimate-v4".

Definition ASSETS : list string :=
  [ "./"; "./index.html"; "./style.css"; "./script.js";
    "https://cdn.tailwindcss.com";
    "https://cdnjs.cloudflare.com/ajax/libs/jszip/3.10.1/jszip.min.js";
    "https://cdnjs.cloudflare.com/ajax/libs/Sortable/1.15.0/Sortable.min.js" ].

(** A cache maps the URL of a GET request to a response; the cache storage
    keeps its caches in the order they were created.  The network answers a
    URL with a response, or fails ([None]; for [addAll] this stands also for
    a response whose status is not ok). *)
Definition Cache := gmap string string.
Definition CacheStorage := list (string * Cache).
Definition Network := string -> option string.

(** [caches.open(name)]: the cache is created at the end when missing. *)
Definition open (name : string) (cs : CacheStorage) : CacheStorage :=
  if bool_decide (name ∈ cs.*1) then cs else cs ++ [(name, ∅)].

(** [cache.addAll(urls)]: every URL is fetched first; one failure rejects
    the whole call and nothing is stored. *)
Definition addAll (net : Network) (urls : list string) (c : Cache) : option Cache :=
  match mapM (fun u => pair u <$> net u) urls with
  | Some entries => Some (foldl (fun c e => <[e.1 := e.2]> c) c entries)
  | None => None
  end.

Fixpoint update (name : string) (c : Cache) (cs : CacheStorage) : CacheStorage :=
  match cs with
  | [] => []
  | (n, c0) :: rest =>
      if bool_decide (n = name) then (n, c) :: rest
      else (n, c0) :: update name c rest
  end.

Fixpoint lookupCache (name : string) (cs : CacheStorage) : option Cache :=
  match cs with
  | [] => None
  | (n, c) :: rest => if bool_decide (n = name) then Some c else lookupCache name rest
  end.

(** The [install] handler: whether the promise given to [waitUntil]
    fulfils, and the cache storage afterwards. *)
Definition install (net : Network) (cs : CacheStorage) : bool * CacheStorage :=
  let cs := open CACHE_NAME cs in
  match lookupCache CACHE_NAME cs with
  | Some c =>
      match addAll net ASSETS c with
      | Some c' => (true, update CACHE_NAME c' cs)
      | None => (false, cs)
      end
  | None => (false, cs)
  end.

(** [caches.match(request)]: the first cache, in creation order, that has
    the request. *)
Fixpoint matchAll (url : string) (cs : CacheStorage) : option string :=
  match cs with
  | [] => None
  | (_, c) :: rest =>
      match c !! url with
      | Some r => Some r
      | None => matchAll url rest
      end
  end.

(** The [fetch] handler: [response || fetch(event.request)]. *)
Definition onFetch (net : Network) (cs : CacheStorage) (url : string) : option string :=
  match matchAll url cs with
  | Some response => Some response
  | None => net url
  end.

(** The [activate] handler: every cache with another name is deleted. *)
Definition activate (cs : CacheStorage) : CacheStorage :=
  filter (fun nc => nc.1 = CACHE_NAME) cs.

End SW.

(** ** Further notions used to state properties *)

(** Two states of the page that differ at most in the store, the canvas,
    the toast, the console and the alerts raised so far. *)
Definition same_session (w1 w2 : World) : Prop :=
  images w1 = images w2 /\ generatedBlobs w1 = generatedBlobs w2
  /\ overlayImg w1 = overlayImg w2 /\ isCancelled w1 = isCancelled w2
  /\ container w1 = container w2 /\ resultHidden w1 = resultHidden w2.

(** Whether an operation draws the overlay. *)
Definition isOverlay (op : DrawOp) : bool :=
  match op with
  | DrawOverlay _ _ _ _ => true
  | _ => false
  end.

(** The rectangle of the whole canvas. *)
Definition wholePage (c : Canvas) : Rect := cellRect 0 0 (cv_width c) (cv_height c).

(** The anchor point of a text operation. *)
Definition textAnchor (op : DrawOp) : option (Q * Q) :=
  match op with
  | FillText _ _ x y | StrokeText _ _ _ x y => Some (x, y)
  | _ => None
  end.

Definition textContent (op : DrawOp) : option TextContent :=
  match op with
  | FillText _ t _ _ | StrokeText _ _ t _ _ => Some t
  | _ => None
  end.

(** ** Proof automation *)

(** Linear arithmetic over [Q] with halves. *)
Ltac qlin := unfold Qdiv in *; change (/ 2)%Q with (1 # 2)%Q in *; lra.

(** Identify the fields that two states of the same session share. *)
Ltac same_fields :=
  match goal with
  | H : same_session ?w1 ?w2 |- _ =>
      destruct w1, w2; unfold same_session in H; cbn in H;
      destruct H as (-> & -> & -> & -> & -> & ->)
  end.

(** Exhibit the element at index [i] of a sequence. *)
Ltac pick i img :=
  exists i, img; split; [done|]; split; [try done; lia|].

(** ** Sample data *)

Module Sample.

Definition inp (cols rows start : option Z) : Inputs :=
  {| in_cols := cols; in_group_rows := rows; in_customQ_unified := Some 100;
     in_gap := Some 10; in_aspectRatio := RatioPreset 1;
     in_customW := None; in_customH := None;
     in_showNum := true; in_startNumber := start;
     in_fontFamily := "sans-serif"; in_fontWeightSelect := "bold";
     in_customWeightRange := "700"; in_fontColor := "#FFFFFF";
     in_fontOpacity := Some 100; in_fontPos := "bottom-right";
     in_enableStroke := false; in_fontStrokeColor := "#000000";
     in_overlayOpacityRange := 1; in_overlayMode := "source-over" |}.

Definition img (k : nat) : Img :=
  {| img_id := Z.of_nat k; img_name := "photo"; img_url := "blob" |}.

Definition imgs (n : nat) : list Img := map img (seq 1 n).

Definition rec (k : Z) (name : string) : DBRec :=
  {| rec_id := k; rec_name := name; rec_blob := "blob" |}.

(** The images of [store], shown in the order [shown]. *)
Definition gallery (store : list DBRec) (shown : list Img) : World :=
  {| images := shown; generatedBlobs := []; overlayImg := None;
     isCancelled := false; db := store; canvas := resize 1 1; container := [];
     resultHidden := true; toast := None; console := []; alerts := [] |}.

(** A page on which [prior] was generated before, holding [n] images. *)
Definition world (n : nat) (prior : list (option Blob)) : World :=
  {| images := imgs n; generatedBlobs := prior; overlayImg := None;
     isCancelled := false; db := []; canvas := resize 1 1; container := [];
     resultHidden := false; toast := None; console := []; alerts := [] |}.

Definition await_eqb (a a' : Await) : bool :=
  match a, a' with
  | SleepGroup b, SleepGroup b' => b =? b'
  | SleepTile b i, SleepTile b' i' => (b =? b') && (i =? i')
  | Decode b i, Decode b' i' => (b =? b') && (i =? i')
  | ToBlob b, ToBlob b' => b =? b'
  | _, _ => false
  end.

(** Every image but those with an id in [bad] decodes to 400 x 300; the
    cancel button is pressed during the suspension [press], if any. *)
Definition env (bad : list Z) (press : option Await) : Env :=
  {| cancel_during := fun a =>
       match press with Some a0 => await_eqb a a0 | None => false end;
     decode := fun im =>
       if bool_decide (img_id im ∈ bad) then None else Some (400, 300);
     toBlob_ok := fun _ => true |}.

End Sample.

(** Sample files and a sample saved state. *)
Module Demo.

Definition file (name : string) : File := {| file_name := name; file_blob := "blob" |}.

Definition page : App := freshApp (Sample.gallery [] []).

Definition controls : Controls :=
  {| c_cols := "3"; c_group_rows := "3"; c_aspectRatio := "custom";
     c_customQ_unified := "80"; c_showNum := true; c_startNumber := "1";
     c_fontFamily := "sans-serif"; c_fontWeightSelect := "bold";
     c_customWeightRange := "700"; c_fontColor := "#ffffff";
     c_enableStroke := false; c_fontStrokeColor := "#000000";
     c_fontOpacity := "100"; c_fontPos := "bottom-right";
     c_gap := "10"; c_customW := "1000"; c_customH := "1500";
     c_overlayOpacityRange := "1"; c_overlayMode := "source-over";
     c_customRatioBox := true; c_customWeightBox := false |}.

Definition defaults : Controls :=
  {| c_cols := "2"; c_group_rows := "2"; c_aspectRatio := "1";
     c_customQ_unified := "50"; c_showNum := false; c_startNumber := "1";
     c_fontFamily := "serif"; c_fontWeightSelect := "normal";
     c_customWeightRange := "400"; c_fontColor := "#000000";
     c_enableStroke := true; c_fontStrokeColor := "#ffffff";
     c_fontOpacity := "50"; c_fontPos := "center";
     c_gap := "0"; c_customW := ""; c_customH := "";
     c_overlayOpacityRange := "0.5"; c_overlayMode := "multiply";
     c_customRatioBox := false; c_customWeightBox := false |}.

(** An environment in which only the encoding of page [k] fails. *)
Definition failing (k : Z) : Env :=
  {| cancel_during := fun _ => false;
     decode := fun _ => Some (400, 300);
     toBlob_ok := fun b => negb (b =? k) |}.

(** The controls with the custom ratio selected. *)
Definition custom (W H : option Z) : Inputs :=
  {| in_cols := Some 2; in_group_rows := Some 2; in_customQ_unified := Some 80;
     in_gap := Some 10; in_aspectRatio := RatioCustom;
     in_customW := W; in_customH := H;
     in_showNum := false; in_startNumber := None;
     in_fontFamily := "sans-serif"; in_fontWeightSelect := "bold";
     in_customWeightRange := "700"; in_fontColor := "#FFFFFF";
     in_fontOpacity := Some 100; in_fontPos := "center";
     in_enableStroke := false; in_fontStrokeColor := "#000000";
     in_overlayOpacityRange := 1; in_overlayMode := "source-over" |}.

Definition online : SW.Network := fun u => Some ("v4:" +:+ u).
Definition offline : SW.Network := fun _ => None.

End Demo.

(** ** Arithmetic of the quotients *)

Lemma Qfloor_quot (a b : Z) : b <> 0 -> floor_div a b = a / b.
Proof.
  intros Hb. unfold floor_div, quot, Qdiv, Qmult, Qinv, inject_Z, Qfloor. simpl.
  destruct b as [|p|p]; [done| |]; simpl.
  - by rewrite Z.mul_1_r.
  - rewrite <- (Z.div_opp_opp a (Z.neg p)) by done. f_equal. lia.
Qed.

Lemma Qceiling_quot (a b : Z) : b <> 0 -> ceil_div a b = - ((- a) / b).
Proof.
  intros Hb. unfold ceil_div, Qceiling. f_equal.
  rewrite <- (Qfloor_quot (- a) b Hb). unfold floor_div.
  apply Qfloor_comp. unfold quot, Qdiv. rewrite inject_Z_opp. ring.
Qed.

Lemma ceil_div_pos (a b : Z) : 0 < b -> ceil_div a b = (a + b - 1) / b.
Proof.
  intros Hb. rewrite Qceiling_quot by lia.
  assert (Hq := Z.div_mod (- a) b ltac:(lia)).
  assert (Hr := Z.mod_pos_bound (- a) b Hb).
  apply (Z.div_unique_pos _ _ _ (b - 1 - (- a) mod b)); lia.
Qed.

(** ** Rounding to a double *)

Lemma pow2_pos (z : Z) : (0 < pow2 z)%Q.
Proof. by apply Qpower_0_lt. Qed.

Lemma pow2_add (a b : Z) : (pow2 (a + b) == pow2 a * pow2 b)%Q.
Proof. by apply Qpower_plus. Qed.

Lemma pow2_Z (n : Z) : 0 <= n -> (pow2 n == inject_Z (2 ^ n))%Q.
Proof. intros H. unfold pow2. by rewrite Zpower_Qpower. Qed.



Lemma bexp_spec (x : Q) :
  (0 < x)%Q -> (pow2 (bexp x) <= x < pow2 (bexp x + 1))%Q.
Proof.
  intros Hx. destruct x as [n d]. unfold bexp. cbn [Qnum Qden].
  assert (0 < n) as Hn by (unfold Qlt in Hx; cbn in Hx; lia).
  destruct (Z.log2_spec n Hn) as [N1 N2].
  destruct (Z.log2_spec (Z.pos d) ltac:(lia)) as [D1 D2].
  pose proof (Z.log2_nonneg n) as Ln. pose proof (Z.log2_nonneg (Z.pos d)) as Ld.
  set (ln := Z.log2 n) in *. set (ld := Z.log2 (Z.pos d)) in *.
  assert (n # d == inject_Z n / inject_Z (Z.pos d))%Q as Ex by apply Qmake_Qdiv.
  assert (0 < inject_Z (Z.pos d))%Q as Hd by (change 0%Q with (inject_Z 0); rewrite <- Zlt_Qlt; lia).
  assert (pow2 (ln - ld - 1) <= n # d)%Q as Lo.
  { rewrite Ex. apply Qle_shift_div_l; [done|].
    apply Qle_trans with (pow2 (ln - ld - 1) * pow2 (ld + 1))%Q.
    - apply Qmult_le_l; [apply pow2_pos|].
      rewrite pow2_Z by lia. rewrite <- Zle_Qle. unfold Z.succ in D2. lia.
    - rewrite <- pow2_add. replace (ln - ld - 1 + (ld + 1)) with ln by lia.
      rewrite pow2_Z by lia. by rewrite <- Zle_Qle. }
  assert (n # d < pow2 (ln - ld + 1))%Q as Hi.
  { rewrite Ex. apply Qlt_shift_div_r; [done|].
    apply Qlt_le_trans with (pow2 (ln + 1)).
    - rewrite pow2_Z by lia. rewrite <- Zlt_Qlt. unfold Z.succ in N2. lia.
    - replace (ln + 1) with (ln - ld + 1 + ld) by lia. rewrite pow2_add.
      apply Qmult_le_l; [apply pow2_pos|]. rewrite pow2_Z by lia. by rewrite <- Zle_Qle. }
  destruct (Qle_bool (pow2 (ln - ld)) (n # d)) eqn:E.
  - apply Qle_bool_iff in E. by split.
  - split; [done|]. replace (ln - ld - 1 + 1) with (ln - ld) by lia.
    apply Qnot_le_lt. intros H. apply Qle_bool_iff in H. congruence.
Qed.

Lemma rne_cases (y : Q) : rne y = Qfloor y \/ rne y = Qfloor y + 1.
Proof.
  unfold rne. destruct (_ ?= _)%Q; auto. destruct (Z.even _); auto.
Qed.

Lemma rne_near (y : Q) :
  (inject_Z (rne y) - (1 # 2) <= y <= inject_Z (rne y) + (1 # 2))%Q.
Proof.
  unfold rne. pose proof (Qfloor_le y) as H1. pose proof (Qlt_floor y) as H2.
  rewrite inject_Z_plus in H2. change (inject_Z 1) with 1%Q in H2.
  set (f := Qfloor y) in *.
  destruct (Qcompare_spec (y - inject_Z f) (1 # 2)) as [E|E|E].
  - destruct (Z.even f); rewrite ?inject_Z_plus; change (inject_Z 1) with 1%Q;
      split; lra.
  - split; lra.
  - rewrite inject_Z_plus. change (inject_Z 1) with 1%Q. split; lra.
Qed.

Lemma rne_ge (k : Z) (y : Q) : (inject_Z k <= y)%Q -> k <= rne y.
Proof.
  intros H. apply Qfloor_resp_le in H. rewrite Qfloor_Z in H.
  destruct (rne_cases y); lia.
Qed.


Section Round53.

Variable x : Q.
Hypothesis Hx : (0 < x)%Q.

Local Abbreviation e := (bexp x).
Local Abbreviation q := (bexp x - 52).
Local Abbreviation y := (x / pow2 (bexp x - 52))%Q.

Lemma scaled_eq : (y * pow2 q == x)%Q.
Proof. field. pose proof (pow2_pos q). lra. Qed.

Lemma scaled_ge : (inject_Z (2 ^ 52) <= y)%Q.
Proof.
  destruct (bexp_spec x Hx) as [H _].
  apply Qle_shift_div_l; [apply pow2_pos|].
  rewrite <- pow2_Z by lia. rewrite <- pow2_add.
  by replace (52 + q) with e by lia.
Qed.

Lemma round53_pos : (0 < round53 x)%Q.
Proof.
  unfold round53. pose proof (rne_ge _ _ scaled_ge) as H.
  apply Qmult_lt_0_compat; [|apply pow2_pos].
  change 0%Q with (inject_Z 0). rewrite <- Zlt_Qlt. lia.
Qed.


Lemma round53_err :
  (x * (1 - (1 # 2 ^ 53)) <= round53 x <= x * (1 + (1 # 2 ^ 53)))%Q.
Proof.
  unfold round53. pose proof (rne_near y) as [H1 H2].
  pose proof scaled_eq as E. pose proof scaled_ge as G.
  pose proof (pow2_pos q) as P.
  set (m := inject_Z (rne y)) in *. set (yy := y) in *.
  set (p := pow2 q) in *. clearbody m p yy.
  assert (inject_Z (2 ^ 52) * p <= yy * p)%Q as G'
    by (apply Qmult_le_compat_r; lra).
  assert ((m - (1 # 2)) * p <= yy * p)%Q as A1 by (apply Qmult_le_compat_r; lra).
  assert (yy * p <= (m + (1 # 2)) * p)%Q as A2 by (apply Qmult_le_compat_r; lra).
  change (inject_Z (2 ^ 52)) with (4503599627370496 # 1)%Q in G'.
  change (1 # 2 ^ 53)%Q with (1 # 9007199254740992)%Q.
  rewrite <- E. set (z := (yy * p)%Q) in *. set (mp := (m * p)%Q).
  assert ((m - (1 # 2)) * p == mp - (1 # 2) * p)%Q as E1 by (subst mp; ring).
  assert ((m + (1 # 2)) * p == mp + (1 # 2) * p)%Q as E2 by (subst mp; ring).
  rewrite E1 in A1. rewrite E2 in A2. clearbody z mp. split; lra.
Qed.



End Round53.

Lemma fl_of_pos (x : Q) : (0 < x)%Q -> fl x = round53 x.
Proof. intros H. unfold fl. destruct (Qcompare_spec x 0); [lra|lra|done]. Qed.

Lemma fl_of_zero (x : Q) : (x == 0)%Q -> fl x = 0%Q.
Proof. intros H. unfold fl. destruct (Qcompare_spec x 0); [done|lra|lra]. Qed.

Lemma fl_pos (x : Q) : (0 < x)%Q -> (0 < fl x)%Q.
Proof. intros H. rewrite fl_of_pos by done. by apply round53_pos. Qed.

Lemma fl_nonneg (x : Q) : (0 <= x)%Q -> (0 <= fl x)%Q.
Proof.
  intros H. destruct (Qlt_le_dec 0 x) as [Hp|Hz].
  - apply Qlt_le_weak. by apply fl_pos.
  - rewrite fl_of_zero; [apply Qle_refl|]. by apply Qle_antisym.
Qed.



(** The relative error of a rounding is at most [2^-53]. *)
Lemma fl_err (x : Q) :
  (0 < x)%Q -> (x * (1 - (1 # 2 ^ 53)) <= fl x <= x * (1 + (1 # 2 ^ 53)))%Q.
Proof. intros H. rewrite fl_of_pos by done. by apply round53_err. Qed.


Lemma fl_neg (x : Q) : (x < 0)%Q -> (fl x < 0)%Q.
Proof.
  intros H. unfold fl. destruct (Qcompare_spec x 0); [lra| |lra].
  assert (0 < round53 (- x))%Q by (apply round53_pos; lra). lra.
Qed.

Lemma fl_nonzero (x : Q) : ~ (x == 0)%Q -> ~ (fl x == 0)%Q.
Proof.
  intros H E. destruct (Q_dec x 0) as [[Hn|Hp]|Hz]; [| |done].
  - pose proof (fl_neg x Hn). lra.
  - pose proof (fl_pos x Hp). lra.
Qed.

(** The quotient of a positive number by a rounded ratio, rounded again, is
    less than one away from the exact quotient while that is at most
    [2^50]. *)
Lemma fl_div_fl (c A : Q) :
  (0 < c)%Q -> (0 < A)%Q -> (c <= inject_Z (2 ^ 50) * A)%Q ->
  (c / A - 1 < fl (c / fl A) < c / A + 1)%Q.
Proof.
  intros Hc HA Hb.
  pose proof (fl_pos A HA) as Hr. pose proof (fl_err A HA) as [R1 R2].
  set (r := fl A) in *.
  assert (0 < c / r)%Q as Hx by (apply Qlt_shift_div_l; [done | by rewrite Qmult_0_l]).
  pose proof (fl_err _ Hx) as [F1 F2].
  set (x := (c / r)%Q) in *. set (f := fl x) in *.
  set (T := (c / A)%Q).
  assert (0 < T)%Q as HT by (apply Qlt_shift_div_l; [done | by rewrite Qmult_0_l]).
  assert (x * r == c)%Q as Ex by (subst x; field; lra).
  assert (T * A == c)%Q as ET by (subst T; field; lra).
  assert (T <= inject_Z (2 ^ 50))%Q as HTb.
  { subst T. apply Qle_shift_div_r; [done|]. done. }
  change (inject_Z (2 ^ 50)) with (1125899906842624 # 1)%Q in HTb.
  (* x (1 - u) <= T <= x (1 + u) *)
  assert (x * (1 - (1 # 2 ^ 53)) <= T)%Q as X1.
  { apply (Qmult_le_r _ _ A HA). rewrite ET, <- Ex.
    apply (Qmult_le_l _ _ x Hx) in R1.
    assert (x * (1 - (1 # 2 ^ 53)) * A == x * (A * (1 - (1 # 2 ^ 53))))%Q
      as -> by ring. done. }
  assert (T <= x * (1 + (1 # 2 ^ 53)))%Q as X2.
  { apply (Qmult_le_r _ _ A HA). rewrite ET, <- Ex.
    apply (Qmult_le_l _ _ x Hx) in R2.
    assert (x * (1 + (1 # 2 ^ 53)) * A == x * (A * (1 + (1 # 2 ^ 53))))%Q
      as -> by ring. done. }
  clearbody f x T r. clear - F1 F2 X1 X2 HTb HT Hx.
  change (1 # 2 ^ 53)%Q with (1 # 9007199254740992)%Q in *.
  split; lra.
Qed.

Lemma cellH_custom_bound (cw W H : Z) :
  0 < W -> 0 < H -> 0 <= cw -> cw * H <= 2 ^ 50 * W ->
  (cw * H) / W - 1 <= Qfloor (fl (inject_Z cw / fl (quot W H))) <= (cw * H) / W + 1.
Proof.
  intros HW HH Hcw Hb.
  assert (0 < inject_Z W)%Q as HWq by (change 0%Q with (inject_Z 0); by rewrite <- Zlt_Qlt).
  assert (0 < inject_Z H)%Q as HHq by (change 0%Q with (inject_Z 0); by rewrite <- Zlt_Qlt).
  assert (0 < quot W H)%Q as HA by (apply Qlt_shift_div_l; [done | by rewrite Qmult_0_l]).
  rewrite <- (Qfloor_quot (cw * H) W) by lia. unfold floor_div.
  assert (quot (cw * H) W == inject_Z cw / quot W H)%Q as ET.
  { unfold quot. rewrite inject_Z_mult. field. split; lra. }
  destruct (Z.eq_dec cw 0) as [->|Hne].
  { rewrite (fl_of_zero (inject_Z 0 / _)); [|by unfold Qdiv; rewrite Qmult_0_l].
    rewrite (Qfloor_comp _ _ ET).
    assert (inject_Z 0 / quot W H == 0)%Q as -> by (unfold Qdiv; by rewrite Qmult_0_l).
    change (Qfloor 0) with 0. lia. }
  assert (0 < inject_Z cw)%Q as Hcq by (change 0%Q with (inject_Z 0); rewrite <- Zlt_Qlt; lia).
  destruct (fl_div_fl (inject_Z cw) (quot W H) Hcq HA) as [B1 B2].
  { unfold quot.
    assert (inject_Z (2 ^ 50) * (inject_Z W / inject_Z H)
            == inject_Z (2 ^ 50) * inject_Z W / inject_Z H)%Q as ->
      by (field; lra).
    apply Qle_shift_div_l; [done|].
    rewrite <- !inject_Z_mult, <- Zle_Qle. lia. }
  rewrite (Qfloor_comp _ _ ET).
  set (T := (inject_Z cw / quot W H)%Q) in *.
  set (f := fl (inject_Z cw / fl (quot W H))) in *.
  pose proof (Qfloor_le T) as T1. pose proof (Qlt_floor T) as T2.
  pose proof (Qfloor_le f) as G1. pose proof (Qlt_floor f) as G2.
  rewrite inject_Z_plus in T2, G2. change (inject_Z 1) with 1%Q in *.
  clearbody f T.
  assert (inject_Z (Qfloor T) < inject_Z (Qfloor f) + 2)%Q as K1 by lra.
  assert (inject_Z (Qfloor f) < inject_Z (Qfloor T) + 2)%Q as K2 by lra.
  change 2%Q with (inject_Z 2) in K1, K2.
  rewrite <- inject_Z_plus, <- Zlt_Qlt in K1, K2. lia.
Qed.

(** ** Geometry *)

Section GeometryFacts.

Import Geometry.

Variables (c g : Z) (a : Q) (len : Z).
Hypothesis Hc : 1 <= c.

Lemma cellW_unclamped : c * 1500 <= MAX_CANVAS_DIM -> cellW c g = 1500.
Proof. unfold cellW. intros H. case (Z.ltb_spec MAX_CANVAS_DIM (c * 1500)); [lia|done]. Qed.

Lemma cellW_clamped :
  MAX_CANVAS_DIM < c * 1500 -> cellW c g = (MAX_CANVAS_DIM - c * g) / c.
Proof.
  unfold cellW. intros H. case (Z.ltb_spec MAX_CANVAS_DIM (c * 1500)); [|lia].
  intros _. apply Qfloor_quot. lia.
Qed.

Lemma realRows_ceil : realRows len c = (len + c - 1) / c.
Proof. unfold realRows. apply ceil_div_pos. lia. Qed.

Lemma pageWidth_clamped :
  MAX_CANVAS_DIM < c * 1500 -> pageWidth c (cellW c g) g <= MAX_CANVAS_DIM - g.
Proof.
  intros H. rewrite cellW_clamped by done. unfold pageWidth.
  assert (Hm := Z.mul_div_le (MAX_CANVAS_DIM - c * g) c ltac:(lia)). lia.
Qed.

End GeometryFacts.




(** C5, as stated, fails: one column of ten square tiles is 15000 high. *)
Lemma C5_counterexample :
  ~ (forall (c r g : Z) (a : Q) (len : Z),
        1 <= c -> 1 <= r -> 0 <= g -> (0 < a)%Q -> 1 <= len <= c * r ->
        let G := Geometry.compute c g a len in
        Geometry.g_width G <= MAX_CANVAS_DIM /\ Geometry.g_height G <= MAX_CANVAS_DIM).
Proof.
  intros H.
  destruct (H 1 10 0 1%Q 10 ltac:(lia) ltac:(lia) ltac:(lia) ltac:(reflexivity) ltac:(lia))
    as [_ Hh].
  vm_compute in Hh. by apply Hh.
Qed.

(** C5, amended: for [c >= 1] and [g >= 0] the page width is at most
    [MAX_CANVAS_DIM] whenever the clamp applies ([c * 1500 > 8192], where it
    is even at most [MAX_CANVAS_DIM - g]) or the gap is zero.  The height is
    not clamped. *)
Theorem C5_width_bound (c g : Z) (a : Q) (len : Z) :
  1 <= c -> 0 <= g -> MAX_CANVAS_DIM < c * 1500 \/ g = 0 ->
  Geometry.g_width (Geometry.compute c g a len) <= MAX_CANVAS_DIM.
Proof.
  intros Hc Hg [H | ->]; simpl.
  - pose proof (pageWidth_clamped c g Hc H). lia.
  - unfold Geometry.pageWidth. case (Z.le_gt_cases (c * 1500) MAX_CANVAS_DIM); intros H.
    + rewrite cellW_unclamped by done. lia.
    + pose proof (pageWidth_clamped c 0 Hc H) as Hw. unfold Geometry.pageWidth in Hw. lia.
Qed.

(** Six columns with gap 10 stay within the limit. *)
Lemma C5_width_bound_witness :
  Geometry.g_width (Geometry.compute 6 10 1 6) <= MAX_CANVAS_DIM.
Proof.
  apply (C5_width_bound 6 10 1 6); [lia | lia | left; reflexivity].
Defined.

(** ** Cover placement of a decoded image *)

Section Cover.

Variables (url : string) (iw ih x y cw ch : Z).
Hypotheses (Hiw : 0 < iw) (Hih : 0 < ih) (Hcw : 0 < cw) (Hch : 0 < ch).

Local Abbreviation iRatio := (quot iw ih).
Local Abbreviation cRatio := (quot cw ch).

Lemma iRatio_pos : (0 < iRatio)%Q.
Proof.
  unfold quot. apply Qlt_shift_div_l.
  - change 0%Q with (inject_Z 0). rewrite <- Zlt_Qlt. lia.
  - rewrite Qmult_0_l. change 0%Q with (inject_Z 0). rewrite <- Zlt_Qlt. lia.
Qed.

Lemma ch_pos : (0 < inject_Z ch)%Q.
Proof. change 0%Q with (inject_Z 0). rewrite <- Zlt_Qlt. lia. Qed.

Lemma cRatio_ch : (cRatio * inject_Z ch == inject_Z cw)%Q.
Proof.
  unfold quot. field. intros H. pose proof ch_pos as Hp.
  rewrite H in Hp. by apply Qlt_irrefl in Hp.
Qed.

Lemma wide_overflow :
  (cRatio < iRatio)%Q -> (inject_Z cw < inject_Z ch * iRatio)%Q.
Proof.
  intros H. rewrite <- cRatio_ch. rewrite (Qmult_comm (inject_Z ch)).
  apply Qmult_lt_compat_r; [apply ch_pos | done].
Qed.

Lemma tall_overflow :
  (iRatio <= cRatio)%Q -> (inject_Z ch <= inject_Z cw / iRatio)%Q.
Proof.
  intros H. apply Qle_shift_div_l; [apply iRatio_pos|].
  rewrite <- cRatio_ch. rewrite (Qmult_comm cRatio).
  apply Qmult_le_l; [apply ch_pos | done].
Qed.

Lemma coverDraw_wide :
  (cRatio < iRatio)%Q ->
  coverDraw url iw ih x y cw ch =
  ClipDrawImage url (cellRect x y cw ch)
    {| rx := (inject_Z x - (inject_Z ch * iRatio - inject_Z cw) / 2)%Q;
       ry := inject_Z y; rw := (inject_Z ch * iRatio)%Q; rh := inject_Z ch |}.
Proof.
  intros H. unfold coverDraw, Qgtb.
  case (Z.eqb_spec ch 0); [lia|intros _].
  destruct (Qle_bool iRatio cRatio) eqn:E; [|done].
  apply Qle_bool_iff in E. exfalso. by apply (Qlt_not_le _ _ H).
Qed.

Lemma coverDraw_tall :
  (iRatio <= cRatio)%Q ->
  coverDraw url iw ih x y cw ch =
  ClipDrawImage url (cellRect x y cw ch)
    {| rx := inject_Z x;
       ry := (inject_Z y - (inject_Z cw / iRatio - inject_Z ch) / 2)%Q;
       rw := inject_Z cw; rh := (inject_Z cw / iRatio)%Q |}.
Proof.
  intros H. unfold coverDraw, Qgtb.
  case (Z.eqb_spec ch 0); [lia|intros _].
  apply Qle_bool_iff in H. by rewrite H.
Qed.

End Cover.

(** C7: a decoded image of size [iw x ih] drawn into the cell
    [(x, y, cw, ch)].  If its ratio exceeds the cell's, it is drawn [ch] high
    and [ch * iw/ih] wide, the excess width split equally left and right;
    otherwise it is drawn [cw] wide and [cw / (iw/ih)] high, the excess
    height split equally above and below.  The clip region is the cell, and
    the pixels the draw modifies are exactly those of the cell. *)
Theorem C7_cover_placement (url : string) (iw ih x y cw ch : Z) :
  0 < iw -> 0 < ih -> 0 < cw -> 0 < ch ->
  exists dest,
    coverDraw url iw ih x y cw ch = ClipDrawImage url (cellRect x y cw ch) dest
    /\ (if Qgtb (quot iw ih) (quot cw ch)
        then rh dest = inject_Z ch /\ ry dest = inject_Z y
             /\ (rw dest == inject_Z ch * quot iw ih)%Q
             /\ (0 < inject_Z x - rx dest)%Q
             /\ (inject_Z x - rx dest == rx dest + rw dest - (inject_Z x + inject_Z cw))%Q
        else rw dest = inject_Z cw /\ rx dest = inject_Z x
             /\ (rh dest == inject_Z cw / quot iw ih)%Q
             /\ (0 <= inject_Z y - ry dest)%Q
             /\ (inject_Z y - ry dest == ry dest + rh dest - (inject_Z y + inject_Z ch))%Q)
    /\ forall px py,
         footprint (coverDraw url iw ih x y cw ch) px py <->
         inRect (cellRect x y cw ch) px py.
Proof.
  intros Hiw Hih Hcw Hch. unfold Qgtb.
  destruct (Qle_bool (quot iw ih) (quot cw ch)) eqn:E; simpl negb; cbv iota.
  - apply Qle_bool_iff in E.
    pose proof (tall_overflow iw ih cw ch Hiw Hih Hch E) as Ho.
    rewrite (coverDraw_tall url iw ih x y cw ch Hch E). eexists. split; [done|].
    simpl. set (d := (inject_Z cw / quot iw ih)%Q) in *. clearbody d. clear E.
    split; [repeat split; try done; qlin|].
    intros px py. unfold inRect; simpl. split; [tauto|].
    intros (H1 & H2 & H3 & H4). repeat split; try done; qlin.
  - assert (quot cw ch < quot iw ih)%Q as E'.
    { apply Qnot_le_lt. intros H. apply Qle_bool_iff in H. congruence. }
    pose proof (wide_overflow iw ih cw ch Hch E') as Ho.
    rewrite (coverDraw_wide url iw ih x y cw ch Hch E'). eexists. split; [done|].
    simpl. set (d := (inject_Z ch * quot iw ih)%Q) in *. clearbody d. clear E E'.
    split; [repeat split; try done; qlin|].
    intros px py. unfold inRect; simpl. split; [tauto|].
    intros (H1 & H2 & H3 & H4). repeat split; try done; qlin.
Qed.

(** ** The drawing loop *)

Section DrawLoop.

Variables (env : Env) (inp : Inputs) (g : Geometry.t) (gap batchSize b : Z).

Local Abbreviation step := (tileStep env inp g gap batchSize b).
Local Abbreviation loop := (drawLoop env inp g gap batchSize b).

Lemma tileStep_frame i im w : frame w (step i im w).
Proof.
  unfold tileStep, suspend, cancelProcess, frame.
  destruct (_ && _), (cancel_during env (SleepTile b i)),
    (cancel_during env (Decode b i)), (decode env im); by simpl.
Qed.

Lemma tileStep_canvas i im w :
  canvas (step i im w) = paint (tileOps env inp g gap batchSize b i im) (canvas w).
Proof.
  unfold tileStep, suspend, cancelProcess.
  destruct (_ && _), (cancel_during env (SleepTile b i)),
    (cancel_during env (Decode b i)), (decode env im); by simpl.
Qed.

Lemma tileStep_console i im w :
  console (step i im w) = console w ++ decodeLog env [im].
Proof.
  unfold tileStep, suspend, cancelProcess. simpl.
  destruct (_ && _), (cancel_during env (SleepTile b i)),
    (cancel_during env (Decode b i)), (decode env im); simpl;
    by rewrite ?app_nil_r.
Qed.

Lemma tileStep_flag i im w :
  isCancelled (step i im w) =
  isCancelled w
  || (sleeps_before i && cancel_during env (SleepTile b i))
  || cancel_during env (Decode b i).
Proof.
  unfold tileStep, suspend, cancelProcess, sleeps_before.
  destruct (_ && _), (cancel_during env (SleepTile b i)),
    (cancel_during env (Decode b i)), (decode env im), (isCancelled w) eqn:E;
    simpl; by rewrite ?E.
Qed.

Lemma frame_refl w : frame w w.
Proof. by unfold frame. Qed.

Lemma frame_trans w1 w2 w3 : frame w1 w2 -> frame w2 w3 -> frame w1 w3.
Proof. unfold frame. intros H1 H2. destruct_and!. repeat split; congruence. Qed.

Lemma drawLoop_frame imgs : forall i w, frame w (snd (loop i imgs w)).
Proof.
  induction imgs as [|im rest IH]; intros i w; cbn [drawLoop]; [apply frame_refl|].
  destruct (isCancelled w); cbn [snd]; [apply frame_refl|].
  eapply frame_trans; [apply tileStep_frame | apply IH].
Qed.

Lemma drawLoop_cancelled imgs i w :
  isCancelled w = true -> imgs <> [] -> loop i imgs w = (Thrown ErrCancelled, w).
Proof. destruct imgs; [done|]. cbn [drawLoop]. by intros ->. Qed.

Lemma drawLoop_thrown imgs : forall i w e,
  fst (loop i imgs w) = Thrown e ->
  e = ErrCancelled /\ isCancelled (snd (loop i imgs w)) = true.
Proof.
  induction imgs as [|im rest IH]; intros i w e; cbn [drawLoop]; [done|].
  destruct (isCancelled w) eqn:E; cbn [fst snd]; [intros [= <-]; by split|].
  apply IH.
Qed.

(** No request before the last decode: the whole group is drawn. *)
Lemma drawLoop_run imgs : forall i w,
  isCancelled w = false ->
  (forall j, i <= j < i + Z.of_nat (length imgs) - 1 ->
             sleeps_before j && cancel_during env (SleepTile b j) = false
             /\ cancel_during env (Decode b j) = false) ->
  let r := loop i imgs w in
  let last := i + Z.of_nat (length imgs) - 1 in
  fst r = Normal
  /\ canvas (snd r) = paint (tilesOps env inp g gap batchSize b i imgs) (canvas w)
  /\ console (snd r) = console w ++ decodeLog env imgs
  /\ isCancelled (snd r) =
     match imgs with
     | [] => false
     | _ => sleeps_before last && cancel_during env (SleepTile b last)
            || cancel_during env (Decode b last)
     end.
Proof.
  induction imgs as [|im rest IH]; intros i w Hw Hq; cbn zeta.
  - cbn [drawLoop tilesOps decodeLog fst snd]. unfold paint.
    rewrite !app_nil_r. by destruct (canvas w).
  - cbn [drawLoop]. rewrite Hw.
    pose proof (tileStep_flag i im w) as Hf. rewrite Hw in Hf. cbn [orb] in Hf.
    destruct rest as [|im' rest'].
    + cbn [drawLoop fst snd tilesOps length].
      rewrite tileStep_canvas, tileStep_console, Hf, !app_nil_r.
      replace (i + Z.of_nat 1 - 1) with i by lia. by repeat split.
    + destruct (Hq i) as [Hsi Hdi]; [cbn [length]; lia|].
      rewrite Hsi, Hdi in Hf. cbn [orb] in Hf.
      destruct (IH (i + 1) (step i im w) Hf) as (H1 & H2 & H3 & H4).
      { intros j Hj. apply Hq. cbn [length] in *. lia. }
      repeat split; try done.
      * rewrite H2, tileStep_canvas. unfold paint. cbn [cv_width cv_height cv_ops tilesOps].
        by rewrite <- !app_assoc.
      * rewrite H3, tileStep_console. cbn [decodeLog].
        destruct (decode env im); by rewrite <- ?app_assoc, ?app_nil_r.
      * rewrite H4.
        by replace (i + 1 + Z.of_nat (length (im' :: rest')) - 1)
          with (i + Z.of_nat (length (im :: im' :: rest')) - 1) by (cbn [length]; lia).
Qed.

(** A request that arrives while tile [j] is being prepared, [j] not the
    last tile, is seen by the check of tile [j + 1]. *)
Lemma drawLoop_abort imgs j : forall i w,
  isCancelled w = false ->
  i <= j -> j + 1 < i + Z.of_nat (length imgs) ->
  (forall j', i <= j' < j ->
     sleeps_before j' && cancel_during env (SleepTile b j') = false
     /\ cancel_during env (Decode b j') = false) ->
  sleeps_before j && cancel_during env (SleepTile b j)
  || cancel_during env (Decode b j) = true ->
  fst (loop i imgs w) = Thrown ErrCancelled
  /\ isCancelled (snd (loop i imgs w)) = true.
Proof.
  induction imgs as [|im rest IH]; intros i w Hw Hij Hlen Hq Hc.
  { cbn [length] in Hlen. lia. }
  cbn [drawLoop]. rewrite Hw.
  pose proof (tileStep_flag i im w) as Hf. rewrite Hw in Hf. cbn [orb] in Hf.
  destruct (Z.eq_dec i j) as [->|Hne].
  - rewrite Hc in Hf. rewrite drawLoop_cancelled; [by split | done |].
    destruct rest; [cbn [length] in Hlen; lia | done].
  - destruct (Hq i ltac:(lia)) as [Hs Hd]. rewrite Hs, Hd in Hf.
    apply IH; try done; [lia | cbn [length] in Hlen; lia |].
    intros j' Hj'. apply Hq. lia.
Qed.

End DrawLoop.

(** ** Slices and group sizes *)

Section Batches.

Context {A : Type}.
Variables (l : list A) (bs : Z).
Hypothesis Hbs : 0 < bs.

Local Abbreviation n := (Z.of_nat (length l)).
Local Abbreviation total := ((n + bs - 1) / bs).

Lemma slice_take_drop (b : Z) :
  0 <= b ->
  slice l (b * bs) ((b + 1) * bs) = take (Z.to_nat bs) (drop (Z.to_nat (b * bs)) l).
Proof.
  intros Hb. unfold slice, rel_index.
  assert (0 <= b * bs) by nia. assert (0 <= (b + 1) * bs) by nia.
  case (Z.ltb_spec (b * bs) 0); [lia|intros _].
  case (Z.ltb_spec ((b + 1) * bs) 0); [lia|intros _].
  destruct (Z.le_gt_cases n (b * bs)) as [Hge|Hlt].
  - rewrite !drop_ge; [by rewrite !take_nil | lia | lia].
  - rewrite (Z.min_l (b * bs) n) by lia.
    destruct (Z.le_gt_cases ((b + 1) * bs) n) as [Hfull|Hpart].
    + rewrite Z.min_l by lia. f_equal. lia.
    + rewrite Z.min_r by lia.
      rewrite !take_ge; [done | |]; rewrite length_drop; lia.
Qed.

Lemma slice_length (b : Z) :
  0 <= b ->
  Z.of_nat (length (slice l (b * bs) ((b + 1) * bs))) = Z.max 0 (Z.min bs (n - b * bs)).
Proof.
  intros Hb. rewrite slice_take_drop by done.
  rewrite length_take, length_drop. nia.
Qed.

Lemma total_bounds : (total - 1) * bs < n <= total * bs \/ (n = 0 /\ total = 0).
Proof.
  pose proof (Nat2Z.is_nonneg (length l)) as Hn.
  pose proof (Z.div_mod (n + bs - 1) bs ltac:(lia)) as Hq.
  pose proof (Z.mod_pos_bound (n + bs - 1) bs Hbs) as Hr.
  destruct (Z.eq_dec n 0) as [->|Hne].
  - right. split; [done|]. apply Z.div_small. lia.
  - left. nia.
Qed.

Lemma total_nonneg : 0 <= total.
Proof. apply Z.div_pos; lia. Qed.

Lemma slice_full (b : Z) :
  0 <= b < total - 1 -> Z.of_nat (length (slice l (b * bs) ((b + 1) * bs))) = bs.
Proof.
  intros Hb. rewrite slice_length by lia.
  destruct total_bounds as [Ht|[_ Ht]]; [nia|lia].
Qed.

Lemma slice_last :
  0 < n ->
  Z.of_nat (length (slice l ((total - 1) * bs) (total * bs))) =
  if n mod bs =? 0 then bs else n mod bs.
Proof.
  intros Hn. destruct total_bounds as [Ht|[Ht _]]; [|lia].
  replace (total * bs) with ((total - 1 + 1) * bs) by lia.
  rewrite slice_length by nia.
  pose proof (Z.mod_pos_bound n bs Hbs) as Hr.
  pose proof (Z.div_mod n bs ltac:(lia)) as Hq.
  case (Z.eqb_spec (n mod bs) 0); intros Hz.
  - assert (n `div` bs = total) as <- by nia. nia.
  - assert (n `div` bs = total - 1) as Hd by nia. rewrite <- Hd. nia.
Qed.

Lemma slice_nonempty (b : Z) :
  0 <= b < total -> slice l (b * bs) ((b + 1) * bs) <> [].
Proof.
  intros Hb Hnil. pose proof (slice_length b ltac:(lia)) as Hl.
  rewrite Hnil in Hl. simpl in Hl.
  destruct total_bounds as [Ht|[_ Ht]]; [nia|lia].
Qed.

End Batches.

(** ** The loop over the groups *)

Section GroupLoop.

Variables (env : Env) (inp : Inputs) (cols gap qVal batchSize totalBatches : Z).

Local Abbreviation gloop := (groupLoop env inp cols gap qVal batchSize totalBatches).
Local Abbreviation done_from := (pages_done env inp cols gap qVal batchSize).

Lemma seqZ_one (b : Z) : seqZ b (Z.of_nat 1) = [b].
Proof. unfold seqZ. cbn. by rewrite ?Z.add_0_r. Qed.

Lemma groupLoop_break todo b w :
  isCancelled w = true -> gloop todo b w = (Normal, w).
Proof. destruct todo; [done|]. cbn [groupLoop]. by intros ->. Qed.

Lemma blankPage_frame g w :
  frame w (blankPage g w) /\ isCancelled (blankPage g w) = isCancelled w
  /\ console (blankPage g w) = console w
  /\ canvas (blankPage g w) =
     {| cv_width := Geometry.g_width g; cv_height := Geometry.g_height g;
        cv_ops := [FillRect "#FFFFFF"
                     (cellRect 0 0 (Geometry.g_width g) (Geometry.g_height g))] |}.
Proof. by unfold blankPage, frame. Qed.

Lemma finishPage_ok b w :
  toBlob_ok env b = true ->
  exists w',
    finishPage env inp qVal b w = (Normal, w')
    /\ images w' = images w /\ overlayImg w' = overlayImg w /\ db w' = db w
    /\ alerts w' = alerts w /\ resultHidden w' = resultHidden w
    /\ toast w' = toast w /\ console w' = console w
    /\ generatedBlobs w' = generatedBlobs w
         ++ [Some (encode qVal (paint (overlayOps inp w) (canvas w)))]
    /\ container w' = container w
         ++ [encode qVal (paint (overlayOps inp w) (canvas w))]
    /\ canvas w' = resize 1 1
    /\ isCancelled w' = isCancelled w || cancel_during env (ToBlob b).
Proof.
  intros Hok. unfold finishPage. rewrite Hok. eexists. split; [reflexivity|].
  unfold suspend, cancelProcess.
  destruct (cancel_during env (ToBlob b)); cbn; by rewrite ?orb_true_r, ?orb_false_r.
Qed.

(** A group that meets no request before its last decode is encoded. *)
Lemma groupLoop_page todo b w :
  let batch := batchOf (images w) batchSize b in
  let last := Z.of_nat (length batch) - 1 in
  isCancelled w = false ->
  cancel_during env (SleepGroup b) = false ->
  batch <> [] ->
  (forall j, 0 <= j < last ->
             sleeps_before j && cancel_during env (SleepTile b j) = false
             /\ cancel_during env (Decode b j) = false) ->
  toBlob_ok env b = true ->
  exists w',
    gloop (S todo) b w = gloop todo (b + 1) w'
    /\ done_from w w' b 1
    /\ isCancelled w' =
       sleeps_before last && cancel_during env (SleepTile b last)
       || cancel_during env (Decode b last) || cancel_during env (ToBlob b).
Proof.
  intros batch last Hw Hsg Hne Hq Hok.
  cbn [groupLoop]. rewrite Hw. unfold suspend at 1 2 3 4. rewrite Hsg.
  change (images (set_toast (Some (b + 1, totalBatches)) w)) with (images w).
  fold (batchOf (images w) batchSize b). fold batch.
  set (g := groupGeometry inp cols gap batch).
  set (w1 := blankPage g (set_toast (Some (b + 1, totalBatches)) w)).
  destruct (blankPage_frame g (set_toast (Some (b + 1, totalBatches)) w))
    as (B1 & B2 & B3 & B4). fold w1 in B1, B2, B3, B4.
  destruct B1 as (B11 & B12 & B13 & B14 & B15 & B16 & B17 & B18).
  cbn [images generatedBlobs overlayImg db container resultHidden alerts
       isCancelled console set_toast] in *.
  destruct (drawLoop_run env inp g gap batchSize b batch 0 w1)
    as (H1 & H2 & H3 & H4).
  { congruence. }
  { intros j Hj. apply Hq. subst last. lia. }
  pose proof (drawLoop_frame env inp g gap batchSize b batch 0 w1)
    as (F1 & F2 & F3 & F4 & F5 & F6 & F7 & F8).
  destruct (drawLoop env inp g gap batchSize b 0 batch w1) as [c w2].
  cbn [fst snd] in *. subst c.
  destruct (finishPage_ok b w2 Hok)
    as (w3 & E3 & P1 & P2 & P3 & P4 & P5 & P6 & P7 & P8 & P9 & P10 & P11).
  rewrite E3. exists w3. split; [done|]. split.
  - unfold pages_done. rewrite seqZ_one. cbn [map concat]. rewrite app_nil_r.
    assert (encode qVal (paint (overlayOps inp w2) (canvas w2)) =
            pageBlob env inp (overlayImg w) cols gap qVal batchSize (images w) b) as Hb.
    { unfold pageBlob, pageOf, overlayOps. fold batch. fold g.
      rewrite F3, B13, H2, B4. unfold paint.
      by cbn [cv_width cv_height cv_ops app]. }
    rewrite Hb in P8, P9.
    repeat split; try congruence.
    rewrite P7, H3, B3. done.
  - rewrite P11, H4. destruct batch; [done|]. subst last.
    by rewrite Z.add_0_l.
Qed.

(** [m] groups in a row without a cancel request. *)
Lemma groupLoop_pages (m : nat) : forall todo b w,
  isCancelled w = false ->
  (forall b', b <= b' < b + Z.of_nat m ->
     group_quiet env b' /\ toBlob_ok env b' = true
     /\ batchOf (images w) batchSize b' <> []) ->
  exists w',
    gloop (m + todo) b w = gloop todo (b + Z.of_nat m) w'
    /\ done_from w w' b m /\ isCancelled w' = false.
Proof.
  induction m as [|m IH]; intros todo b w Hw Hq.
  - exists w. rewrite Z.add_0_r. split; [done|]. split; [|done].
    unfold pages_done. cbn. by rewrite !app_nil_r.
  - destruct (Hq b ltac:(lia)) as (Hb & Hok & Hne).
    destruct (groupLoop_page (m + todo) b w Hw) as (w1 & E1 & P1 & C1); try done.
    { by apply Hb. }
    { intros j _. rewrite (Hb (SleepTile b j)), (Hb (Decode b j)) by done.
      by rewrite andb_false_r. }
    rewrite (Hb (SleepTile b _)), (Hb (Decode b _)), (Hb (ToBlob b)) in C1 by done.
    rewrite andb_false_r in C1. cbn [orb] in C1.
    destruct P1 as (I1 & O1 & D1 & A1 & R1 & G1 & K1 & V1 & L1).
    rewrite seqZ_one in G1, K1, L1. cbn [map concat] in G1, K1, L1.
    rewrite app_nil_r in L1.
    destruct (IH todo (b + 1) w1 C1) as (w2 & E2 & P2 & C2).
    { intros b' Hb'. rewrite I1. apply Hq. lia. }
    destruct P2 as (I2 & O2 & D2 & A2 & R2 & G2 & K2 & V2 & L2).
    exists w2. split.
    { cbn [Nat.add]. rewrite E1, E2. f_equal. lia. }
    split; [|done]. unfold pages_done.
    rewrite Nat2Z.inj_succ, seqZ_cons by lia.
    replace (Z.pred (Z.succ (Z.of_nat m))) with (Z.of_nat m) by lia.
    replace (Z.succ b) with (b + 1) by lia. cbn [map concat].
    rewrite I2, O2, D2, A2, R2, G2, K2, L2, I1, O1, D1, A1, R1, G1, K1, L1.
    rewrite <- !app_assoc. repeat split; try done.
    destruct m as [|m']; congruence.
Qed.

End GroupLoop.

(** ** Runs of [generate] *)

Lemma or_default_pos (z d : Z) : z <> 0 -> or_default (Some z) d = z.
Proof. intros Hz. unfold or_default. by case (Z.eqb_spec z 0). Qed.

Lemma generate_run_empty env inp w :
  images w = [] ->
  generate_run env inp w = {| completion := None; final := alert AlertNoImages w |}.
Proof. unfold generate_run. by intros ->. Qed.

Lemma generate_run_nonempty env inp w :
  images w <> [] ->
  generate_run env inp w =
  let r := groupLoop env inp (colsOf inp) (gapOf inp) (qValOf inp) (batchSizeOf inp)
             (totalBatchesOf inp (images w))
             (Z.to_nat (totalBatchesOf inp (images w))) 0 (beginRun w) in
  {| completion := Some (fst r); final := set_toast None (endRun (fst r) (snd r)) |}.
Proof.
  unfold generate_run. destruct (images w) eqn:E; [done|]. intros _. cbv zeta.
  change (images (beginRun w)) with (images w). rewrite E.
  by destruct (groupLoop _ _ _ _ _ _ _ _ _ _).
Qed.

Section Runs.

Variables (env : Env) (inp : Inputs) (w : World).
Hypothesis Hcols : 1 <= colsOf inp.
Hypothesis Hrows : 1 <= rowsOf inp.
Hypothesis Himgs : images w <> [].

Local Abbreviation n := (Z.of_nat (length (images w))).
Local Abbreviation bs := (batchSizeOf inp).
Local Abbreviation total := (totalBatchesOf inp (images w)).

Lemma batchSize_pos : 0 < bs.
Proof. unfold batchSizeOf. nia. Qed.

Lemma total_ceil : total = (n + bs - 1) / bs.
Proof. unfold totalBatchesOf. apply ceil_div_pos, batchSize_pos. Qed.

Lemma images_pos : 0 < n.
Proof. destruct (images w); [done|]. cbn [length]. lia. Qed.

Lemma total_pos : 1 <= total.
Proof.
  rewrite total_ceil. pose proof batchSize_pos. pose proof images_pos.
  apply (Z.div_le_lower_bound _ _ 1); lia.
Qed.

Lemma groupAt_nonempty b : 0 <= b < total -> groupAt inp w b <> [].
Proof.
  intros Hb. unfold groupAt, batchOf. apply slice_nonempty; [apply batchSize_pos|].
  by rewrite <- total_ceil.
Qed.

(** The groups [0 .. k-1] go through when no request arrives during them. *)
Lemma run_prefix (k : Z) (todo : nat) :
  0 <= k <= total -> encodes_all env ->
  (forall b, 0 <= b < k -> group_quiet env b) ->
  exists w',
    groupLoop env inp (colsOf inp) (gapOf inp) (qValOf inp) bs total
      (Z.to_nat k + todo) 0 (beginRun w)
    = groupLoop env inp (colsOf inp) (gapOf inp) (qValOf inp) bs total todo k w'
    /\ pages_done env inp (colsOf inp) (gapOf inp) (qValOf inp) bs
         (beginRun w) w' 0 (Z.to_nat k)
    /\ isCancelled w' = false.
Proof.
  intros Hk Hok Hq.
  destruct (groupLoop_pages env inp (colsOf inp) (gapOf inp) (qValOf inp) bs total
              (Z.to_nat k) todo 0 (beginRun w)) as (w' & E & P & C).
  - done.
  - intros b Hb. split; [apply Hq; lia|]. split; [apply Hok|].
    apply groupAt_nonempty. lia.
  - exists w'. rewrite E. split; [|done]. f_equal. lia.
Qed.

(** A run that meets no cancel request and whose encodings succeed. *)
Lemma generate_completed :
  never_cancelled env -> encodes_all env ->
  let run := generate_run env inp w in
  let groups := seqZ 0 total in
  completion run = Some Normal
  /\ isCancelled (final run) = false
  /\ generatedBlobs (final run) = map (fun b => Some (pageAt env inp w b)) groups
  /\ container (final run) = map (pageAt env inp w) groups
  /\ console (final run)
     = console w ++ concat (map (fun b => decodeLog env (groupAt inp w b)) groups)
  /\ alerts (final run) = alerts w
  /\ canvas (final run) = resize 1 1
  /\ toast (final run) = None
  /\ resultHidden (final run) = false
  /\ images (final run) = images w.
Proof.
  intros Hq Hok. cbv zeta. rewrite generate_run_nonempty by done. cbv zeta.
  pose proof total_pos as Ht.
  destruct (run_prefix total 0 ltac:(lia) Hok) as (w' & E & P & C).
  { intros b _ a _. apply Hq. }
  rewrite Nat.add_0_r in E. rewrite E. cbn [groupLoop fst snd completion final endRun].
  destruct P as (I & O & D & A & R & G & K & V & L).
  rewrite Z2Nat.id in G, K, L by lia.
  cbn [images overlayImg db alerts generatedBlobs container console beginRun
       set_generatedBlobs set_container set_resultHidden set_isCancelled app] in *.
  destruct (Z.to_nat total) eqn:En; [lia|].
  unfold pageAt, groupAt. by repeat split.
Qed.

End Runs.

(** The groups of a run, one after the other, are the image sequence. *)
Lemma batches_concat {A} (l : list A) (bs : Z) (m : nat) :
  0 < bs ->
  concat (map (fun b => slice l (b * bs) ((b + 1) * bs)) (seqZ 0 (Z.of_nat m)))
  = take (m * Z.to_nat bs) l.
Proof.
  intros Hbs. induction m as [|m IH]; [done|].
  rewrite seqZ_S, map_app, concat_app, IH. cbn [map concat].
  rewrite app_nil_r, Z.add_0_l, slice_take_drop by lia.
  replace (Z.to_nat (Z.of_nat m * bs)) with (m * Z.to_nat bs)%nat by lia.
  rewrite take_take_drop. f_equal. lia.
Qed.

Lemma decodeLog_app env (l1 l2 : list Img) :
  decodeLog env (l1 ++ l2) = decodeLog env l1 ++ decodeLog env l2.
Proof.
  induction l1 as [|im l1 IH]; [done|]. cbn [app decodeLog].
  destruct (decode env im); by rewrite IH.
Qed.

Lemma decodeLog_concat env (ls : list (list Img)) :
  concat (map (decodeLog env) ls) = decodeLog env (concat ls).
Proof.
  induction ls as [|l ls IH]; [done|]. cbn [map concat].
  by rewrite decodeLog_app, IH.
Qed.

Lemma decodeLog_all_ok env (l : list Img) :
  (forall img, img ∈ l -> is_Some (decode env img)) -> decodeLog env l = [].
Proof.
  induction l as [|im l IH]; [done|]. intros H. cbn [decodeLog].
  destruct (H im ltac:(left)) as [d ->]. apply IH. intros img Hin. apply H. by right.
Qed.

(** Exactly one image of the sequence fails to decode: one log entry. *)
Lemma decodeLog_one env (l : list Img) (k : nat) (bad : Img) :
  l !! k = Some bad -> decode env bad = None ->
  (forall j img, l !! j = Some img -> j <> k -> is_Some (decode env img)) ->
  decodeLog env l = [LogDecodeFailed (img_url bad)].
Proof.
  intros Hk Hbad Hothers.
  rewrite <- (take_drop_middle l k bad Hk), decodeLog_app. cbn [decodeLog].
  rewrite Hbad, !decodeLog_all_ok; [done| |].
  - intros img Hin. apply list_elem_of_lookup in Hin as [j Hj].
    rewrite lookup_drop in Hj. apply (Hothers _ _ Hj). lia.
  - intros img Hin. apply list_elem_of_lookup in Hin as [j Hj].
    pose proof (lookup_lt_Some _ _ _ Hj) as Hlt. rewrite length_take in Hlt.
    rewrite lookup_take_lt in Hj by lia. apply (Hothers _ _ Hj). lia.
Qed.

(** ** Partition of the images into groups *)

Lemma status_completed env inp w :
  completion (generate_run env inp w) = Some Normal ->
  isCancelled (final (generate_run env inp w)) = false ->
  status (generate_run env inp w) = Some Completed.
Proof. unfold status. by intros -> ->. Qed.

Lemma length_seqZ_nonneg (m len : Z) :
  0 <= len -> Z.of_nat (length (seqZ m len)) = len.
Proof. intros H. rewrite length_seqZ. lia. Qed.

(** C1: with [c >= 1] columns and [r >= 1] rows, a run over [n >= 1]
    images that meets no cancel request and no encoding failure produces
    [ceil(n / (c*r))] pages; page [b] is made of the slice
    [b*c*r, (b+1)*c*r) of the images; every group but the last has [c*r]
    images and the last has [n mod (c*r)], or [c*r] when that is zero.  With
    no image nothing is produced. *)
Theorem C1_group_partition env inp w (c r : Z) :
  in_cols inp = Some c -> in_group_rows inp = Some r -> 1 <= c -> 1 <= r ->
  never_cancelled env -> encodes_all env ->
  let n := Z.of_nat (length (images w)) in
  let batchSize := c * r in
  let total := ceil_div n batchSize in
  let run := generate_run env inp w in
  (n = 0 ->
     completion run = None /\ generatedBlobs (final run) = generatedBlobs w
     /\ container (final run) = container w /\ canvas (final run) = canvas w)
  /\ (1 <= n ->
      status run = Some Completed
      /\ Z.of_nat (length (generatedBlobs (final run))) = total
      /\ generatedBlobs (final run)
         = map (fun b => Some (pageAt env inp w b)) (seqZ 0 total)
      /\ (forall b, 0 <= b < total ->
            groupAt inp w b
            = take (Z.to_nat batchSize) (drop (Z.to_nat (b * batchSize)) (images w))
            /\ blob_page (pageAt env inp w b)
               = pageOf env inp (overlayImg w) c (gapOf inp) batchSize b
                   (groupAt inp w b))
      /\ (forall b, 0 <= b < total - 1 ->
            Z.of_nat (length (groupAt inp w b)) = batchSize)
      /\ Z.of_nat (length (groupAt inp w (total - 1)))
         = (if n mod batchSize =? 0 then batchSize else n mod batchSize)).
Proof.
  intros Hc Hr Hc1 Hr1 Hq Hok. cbv zeta. split.
  - intros Hn. rewrite generate_run_empty; [done|].
    destruct (images w); [done|]. cbn [length] in Hn. lia.
  - intros Hn.
    assert (colsOf inp = c) as Ec by (unfold colsOf; rewrite Hc; apply or_default_pos; lia).
    assert (rowsOf inp = r) as Er by (unfold rowsOf; rewrite Hr; apply or_default_pos; lia).
    assert (batchSizeOf inp = c * r) as Eb by (unfold batchSizeOf; congruence).
    assert (images w <> []) as Hne by (intros E; rewrite E in Hn; cbn in Hn; lia).
    assert (0 < c * r) as Hbs by nia.
    assert (totalBatchesOf inp (images w) = ceil_div (Z.of_nat (length (images w))) (c * r))
      as Et by (unfold totalBatchesOf; by rewrite Eb).
    destruct (generate_completed env inp w ltac:(lia) ltac:(lia) Hne Hq Hok)
      as (H1 & H2 & H3 & _).
    rewrite Et in H3.
    pose proof (total_pos inp w ltac:(lia) ltac:(lia) Hne) as Ht. rewrite Et in Ht.
    assert (Hceil := ceil_div_pos (Z.of_nat (length (images w))) (c * r) Hbs).
    split; [by apply status_completed|].
    split; [rewrite H3, length_map; apply length_seqZ_nonneg; lia|].
    split; [done|].
    unfold groupAt, batchOf. rewrite Eb, Hceil. rewrite Hceil in Ht.
    repeat split.
    + apply slice_take_drop; lia.
    + unfold pageAt, pageBlob, batchOf. cbn [blob_page encode]. by rewrite Ec, Eb.
    + intros b Hb. by apply slice_full.
    + replace ((((Z.of_nat (length (images w)) + c * r - 1) `div` (c * r)) - 1 + 1) * (c * r))
        with (((Z.of_nat (length (images w)) + c * r - 1) `div` (c * r)) * (c * r)) by lia.
      apply slice_last; lia.
Qed.

(** Ten images in a 2 x 2 grid: three pages, the last of two images. *)
Lemma C1_group_partition_witness :
  let run := generate_run (Sample.env [] None) (Sample.inp (Some 2) (Some 2) (Some 1))
               (Sample.world 10 []) in
  status run = Some Completed
  /\ Z.of_nat (length (generatedBlobs (final run))) = 3
  /\ Z.of_nat (length (groupAt (Sample.inp (Some 2) (Some 2) (Some 1))
                         (Sample.world 10 []) 2)) = 2.
Proof.
  destruct (C1_group_partition (Sample.env [] None)
              (Sample.inp (Some 2) (Some 2) (Some 1)) (Sample.world 10 []) 2 2
              eq_refl eq_refl ltac:(lia) ltac:(lia)
              (fun a => eq_refl) (fun b => eq_refl)) as [_ H].
  destruct (H ltac:(cbn; lia)) as (H1 & H2 & _ & _ & _ & H6).
  split; [exact H1|]. split; [exact H2|]. exact H6.
Defined.

(** ** Decode failures *)

Lemma tilesOps_lookup env inp g gap bsz b (imgs : list Img) : forall i0 (i : nat) img,
  imgs !! i = Some img ->
  exists pre post,
    tilesOps env inp g gap bsz b i0 imgs
    = pre ++ tileOps env inp g gap bsz b (i0 + Z.of_nat i) img ++ post.
Proof.
  induction imgs as [|im rest IH]; intros i0 i img Hi; [done|].
  destruct i as [|i]; cbn [tilesOps].
  - injection Hi as ->. exists [], (tilesOps env inp g gap bsz b (i0 + 1) rest).
    by replace (i0 + Z.of_nat 0) with i0 by lia.
  - destruct (IH (i0 + 1) i img Hi) as (pre & post & E).
    exists (tileOps env inp g gap bsz b i0 im ++ pre), post.
    replace (i0 + Z.of_nat (S i)) with (i0 + 1 + Z.of_nat i) by lia.
    by rewrite E, <- app_assoc.
Qed.

(** C6: a failing decode never aborts the group or the run.  Whatever
    [img.decode()] answers, a run without cancel request and encoding
    failure completes with [ceil(n / (c*r))] pages and raises no alert.  On
    its page the cell of tile [i], at [x = (i mod c) * (cellW + gap)] and
    [y = floor(i / c) * (cellH + gap)], receives for an image that fails to
    decode the fill of the whole cell with [#eee] followed by the red cross
    in 40px sans-serif at [(x + cellW/2 - 20, y + cellH/2)], and for every
    other image one draw of that image clipped to the cell, as high as the
    cell when the image is the wider of the two and as wide as the cell
    otherwise, centred in the other direction; each is followed by the
    number of the tile.  When exactly one image, [bad], fails, exactly that
    failure is logged. *)
Theorem C6_decode_failure_isolated env inp w (c r : Z) :
  in_cols inp = Some c -> in_group_rows inp = Some r -> 1 <= c -> 1 <= r ->
  images w <> [] -> never_cancelled env -> encodes_all env ->
  let n := Z.of_nat (length (images w)) in
  let batchSize := c * r in
  let total := ceil_div n batchSize in
  let run := generate_run env inp w in
  status run = Some Completed
  /\ Z.of_nat (length (generatedBlobs (final run))) = total
  /\ alerts (final run) = alerts w
  /\ (forall b (i : nat) img,
        0 <= b < total -> groupAt inp w b !! i = Some img ->
        let gap := gapOf inp in
        let g := groupGeometry inp c gap (groupAt inp w b) in
        let cw := Geometry.g_cellW g in
        let ch := Geometry.g_cellH g in
        let x := (Z.of_nat i mod c) * (cw + gap) in
        let y := (Z.of_nat i / c) * (ch + gap) in
        let cell :=
          {| rx := inject_Z x; ry := inject_Z y;
             rw := inject_Z cw; rh := inject_Z ch |} in
        exists page pre post,
          generatedBlobs (final run) !! Z.to_nat b = Some (Some page)
          /\ cv_ops (blob_page page)
             = pre
               ++ (match decode env img with
                   | None =>
                       [ FillRect "#eee" cell;
                         FillText
                           {| ts_weight := ""; ts_size := 40;
                              ts_family := "sans-serif"; ts_color := "red";
                              ts_alpha := 1; ts_baseline := BaseAlphabetic;
                              ts_align := AlignStart |}
                           TxtCross
                           (inject_Z x + inject_Z cw / 2 - 20)%Q
                           (inject_Z y + inject_Z ch / 2)%Q ]
                   | Some (iw, ih) =>
                       let iRatio := (inject_Z iw / inject_Z ih)%Q in
                       let cRatio := (inject_Z cw / inject_Z ch)%Q in
                       let wider :=
                         if ch =? 0 then cw <? 0
                         else negb (Qle_bool iRatio cRatio) in
                       [ ClipDrawImage (img_url img) cell
                           (if wider then
                              {| rx := (inject_Z x
                                        - (inject_Z ch * iRatio - inject_Z cw) / 2)%Q;
                                 ry := inject_Z y;
                                 rw := (inject_Z ch * iRatio)%Q;
                                 rh := inject_Z ch |}
                            else
                              {| rx := inject_Z x;
                                 ry := (inject_Z y
                                        - (inject_Z cw / iRatio - inject_Z ch) / 2)%Q;
                                 rw := inject_Z cw;
                                 rh := (inject_Z cw / iRatio)%Q |}) ]
                   end
                   ++ drawNumber inp (Z.of_nat i + b * batchSize) x y cw ch)
               ++ post)
  /\ (forall (k : nat) (bad : Img),
        images w !! k = Some bad -> decode env bad = None ->
        (forall j img, images w !! j = Some img -> j <> k -> is_Some (decode env img)) ->
        console (final run) = console w ++ [LogDecodeFailed (img_url bad)]).
Proof.
  intros Hc Hr Hc1 Hr1 Hne Hq Hok. cbv zeta.
  assert (colsOf inp = c) as Ec by (unfold colsOf; rewrite Hc; apply or_default_pos; lia).
  assert (rowsOf inp = r) as Er by (unfold rowsOf; rewrite Hr; apply or_default_pos; lia).
  assert (batchSizeOf inp = c * r) as Eb by (unfold batchSizeOf; congruence).
  assert (0 < c * r) as Hbs by nia.
  assert (totalBatchesOf inp (images w) = ceil_div (Z.of_nat (length (images w))) (c * r))
    as Et by (unfold totalBatchesOf; by rewrite Eb).
  destruct (generate_completed env inp w ltac:(lia) ltac:(lia) Hne Hq Hok)
    as (H1 & H2 & H3 & _ & H5 & H6 & _).
  rewrite Et in H3, H5.
  pose proof (total_pos inp w ltac:(lia) ltac:(lia) Hne) as Ht. rewrite Et in Ht.
  set (total := ceil_div (Z.of_nat (length (images w))) (c * r)) in *.
  split; [by apply status_completed|].
  split; [rewrite H3, length_map; apply length_seqZ_nonneg; lia|].
  split; [done|]. split.
  - intros b i img Hb Hi.
    set (g := groupGeometry inp c (gapOf inp) (groupAt inp w b)).
    destruct (tilesOps_lookup env inp g (gapOf inp) (c * r) b (groupAt inp w b)
                0 i img Hi) as (pre & post & E).
    exists (pageAt env inp w b).
    exists (FillRect "#FFFFFF"
              (cellRect 0 0 (Geometry.g_width g) (Geometry.g_height g)) :: pre).
    exists (post ++ match overlayImg w with
                    | Some src =>
                        [DrawOverlay src (in_overlayOpacityRange inp)
                           (in_overlayMode inp)
                           (cellRect 0 0 (Geometry.g_width g) (Geometry.g_height g))]
                    | None => []
                    end).
    split.
    + rewrite H3, list_lookup_fmap.
      rewrite (lookup_seqZ_lt 0 total (Z.to_nat b)) by lia.
      rewrite Z.add_0_l, Z2Nat.id by lia. reflexivity.
    + unfold pageAt, pageBlob, pageOf. cbn [blob_page encode cv_ops].
      fold (groupAt inp w b). rewrite Ec, Eb. fold g. rewrite E.
      rewrite Z.add_0_l. unfold tileOps, drawImageOrPlaceholder.
      assert (tileX g (gapOf inp) (Z.of_nat i)
              = Z.of_nat i mod c * (Geometry.g_cellW g + gapOf inp)) as ->.
      { unfold tileX, g, groupGeometry.
        cbn [Geometry.compute Geometry.g_realCols Geometry.g_cellW].
        by rewrite Z.rem_mod_nonneg by lia. }
      assert (tileY g (gapOf inp) (Z.of_nat i)
              = Z.of_nat i / c * (Geometry.g_cellH g + gapOf inp)) as ->.
      { unfold tileY, g, groupGeometry.
        cbn [Geometry.compute Geometry.g_realCols Geometry.g_cellH].
        by rewrite Qfloor_quot by lia. }
      cbn [app]. f_equal. rewrite <- !app_assoc. f_equal. f_equal.
      destruct (decode env img) as [[iw ih]|]; [|done].
      unfold coverDraw, cellRect, Qgtb, quot. cbv zeta.
      by destruct (if Geometry.g_cellH g =? 0 then _ else _).
  - intros k bad Hk Hbad Hothers. rewrite H5. f_equal.
    rewrite <- (decodeLog_one env (images w) k bad Hk Hbad Hothers).
    rewrite <- (map_map (groupAt inp w) (decodeLog env)), decodeLog_concat. f_equal.
    unfold groupAt, batchOf. rewrite Eb.
    rewrite <- (Z2Nat.id total) by lia. rewrite batches_concat by done.
    apply take_ge.
    pose proof (total_bounds (images w) (c * r) Hbs) as Hb.
    cbv zeta in Hb. rewrite <- (ceil_div_pos _ _ Hbs) in Hb. fold total in Hb.
    apply Nat2Z.inj_le. rewrite Nat2Z.inj_mul, !Z2Nat.id by lia.
    destruct Hb as [Hb|[_ Hb]]; lia.
Qed.

(** ** Cancellation *)

Lemma status_cancelled (r : Run) (c : Completion) :
  completion r = Some c -> isCancelled (final r) = true -> status r = Some Cancelled.
Proof. unfold status. intros -> ->. by destruct c. Qed.

Lemma quiet_before_group env a0 b :
  quiet_before env a0 -> b < await_group a0 -> group_quiet env b.
Proof.
  intros Hq Hb a Ha. apply Hq. unfold await_before.
  destruct a, a0; cbn in *; lia.
Qed.

Section Abort.

Variables (env : Env) (inp : Inputs) (cols gap qVal batchSize totalBatches : Z).

Local Abbreviation gloop := (groupLoop env inp cols gap qVal batchSize totalBatches).

(** A request during [sleep(100)], or while a tile other than the last is
    prepared, makes the drawing loop throw: the group has no page. *)
Lemma groupLoop_abort todo b w :
  let batch := batchOf (images w) batchSize b in
  isCancelled w = false -> batch <> [] ->
  cancel_during env (SleepGroup b) = true
  \/ (exists j, 0 <= j /\ j + 1 < Z.of_nat (length batch)
        /\ (forall j', 0 <= j' < j ->
              sleeps_before j' && cancel_during env (SleepTile b j') = false
              /\ cancel_during env (Decode b j') = false)
        /\ sleeps_before j && cancel_during env (SleepTile b j)
           || cancel_during env (Decode b j) = true) ->
  exists w',
    gloop (S todo) b w = (Thrown ErrCancelled, w')
    /\ generatedBlobs w' = generatedBlobs w /\ isCancelled w' = true
    /\ alerts w' = alerts w /\ images w' = images w.
Proof.
  intros batch Hw Hne Hc. cbn [groupLoop]. rewrite Hw.
  set (w0 := suspend env (SleepGroup b) (set_toast (Some (b + 1, totalBatches)) w)).
  assert (images w0 = images w /\ generatedBlobs w0 = generatedBlobs w
          /\ alerts w0 = alerts w
          /\ isCancelled w0 = cancel_during env (SleepGroup b)) as (I0 & G0 & A0 & C0).
  { subst w0. unfold suspend, cancelProcess.
    destruct (cancel_during env (SleepGroup b)); cbn; by rewrite ?Hw. }
  rewrite I0. fold (batchOf (images w) batchSize b). fold batch.
  set (g := groupGeometry inp cols gap batch).
  destruct (blankPage_frame g w0) as ((B1 & B2 & _ & _ & _ & _ & _ & B8) & B9 & _).
  pose proof (drawLoop_frame env inp g gap batchSize b batch 0 (blankPage g w0))
    as (F1 & F2 & _ & _ & _ & _ & _ & F8).
  assert (fst (drawLoop env inp g gap batchSize b 0 batch (blankPage g w0))
            = Thrown ErrCancelled
          /\ isCancelled (snd (drawLoop env inp g gap batchSize b 0 batch (blankPage g w0)))
            = true) as [T1 T2].
  { destruct (cancel_during env (SleepGroup b)) eqn:Esg.
    - rewrite drawLoop_cancelled; [|congruence|done]. split; [done|]. cbn [snd]. congruence.
    - destruct Hc as [Hc|(j & Hj0 & Hj1 & Hq & Hc)]; [done|].
      apply (drawLoop_abort env inp g gap batchSize b batch j 0 (blankPage g w0));
        [congruence | lia | lia | exact Hq | exact Hc]. }
  destruct (drawLoop env inp g gap batchSize b 0 batch (blankPage g w0)) as [c w2].
  cbn [fst snd] in *. subst c. exists w2. repeat split; congruence.
Qed.

End Abort.

Lemma seqZ_snoc (k : Z) : 0 <= k -> seqZ 0 (k + 1) = seqZ 0 k ++ [k].
Proof.
  intros Hk. rewrite seqZ_app by lia. f_equal.
  all: try (unfold seqZ; cbn; f_equal; lia).
Qed.

(** The first cancel request of a run arrives during [a0]. *)
Lemma generate_cancelled env inp w a0 :
  1 <= colsOf inp -> 1 <= rowsOf inp -> images w <> [] -> encodes_all env ->
  occurs inp w a0 -> cancel_during env a0 = true -> quiet_before env a0 ->
  let run := generate_run env inp w in
  status run = Some Cancelled
  /\ generatedBlobs (final run)
     = map (fun b => Some (pageAt env inp w b)) (seqZ 0 (artifacts_kept inp w a0))
  /\ alerts (final run) = alerts w
  /\ toast (final run) = None.
Proof.
  intros Hcols Hrows Hne Hok [Hk Hocc] Hc Hq. cbv zeta.
  rewrite generate_run_nonempty by done. cbv zeta.
  set (k := await_group a0) in *.
  set (total := totalBatchesOf inp (images w)) in *.
  set (todo := Z.to_nat (total - k - 1)).
  replace (Z.to_nat total) with (Z.to_nat k + S todo)%nat by lia.
  destruct (run_prefix env inp w Hcols Hrows k (S todo) ltac:(lia) Hok)
    as (w1 & E & P & C).
  { intros b Hb. apply (quiet_before_group env a0); [done|]. fold k. lia. }
  fold total in E. rewrite E.
  destruct P as (I & O & D & A & R & G & K & V & L).
  rewrite Z2Nat.id in G by lia.
  change (images (beginRun w)) with (images w) in *.
  change (overlayImg (beginRun w)) with (overlayImg w) in *.
  change (alerts (beginRun w)) with (alerts w) in *.
  change (generatedBlobs (beginRun w)) with (@nil (option Blob)) in G.
  cbn [app] in G.
  pose proof (groupAt_nonempty inp w Hcols Hrows k Hk) as Hbatch.
  unfold groupAt in Hbatch. rewrite <- I in Hbatch.
  set (last := Z.of_nat (length (groupAt inp w k)) - 1).
  assert (forall j, 0 <= j ->
            await_before (Decode k j) a0 ->
            sleeps_before j && cancel_during env (SleepTile k j) = false
            /\ cancel_during env (Decode k j) = false) as Htiles.
  { intros j Hj Hbefore. rewrite !Hq; [by rewrite andb_false_r|done|].
    clear -Hbefore. subst k. unfold await_before in *.
    destruct a0; cbn in *; lia. }
  assert (artifacts_kept inp w a0 = k
          /\ (cancel_during env (SleepGroup k) = true
              \/ exists j, 0 <= j /\ j + 1 < Z.of_nat (length (batchOf (images w1) (batchSizeOf inp) k))
                   /\ (forall j', 0 <= j' < j ->
                         sleeps_before j' && cancel_during env (SleepTile k j') = false
                         /\ cancel_during env (Decode k j') = false)
                   /\ sleeps_before j && cancel_during env (SleepTile k j)
                      || cancel_during env (Decode k j) = true)
          \/ artifacts_kept inp w a0 = k + 1
             /\ cancel_during env (SleepGroup k) = false
             /\ (forall j, 0 <= j < last ->
                   sleeps_before j && cancel_during env (SleepTile k j) = false
                   /\ cancel_during env (Decode k j) = false)
             /\ sleeps_before last && cancel_during env (SleepTile k last)
                || cancel_during env (Decode k last)
                || cancel_during env (ToBlob k) = true) as [[Ek Hab]|(Ek & Hsg & Hqt & Hfl)].
  { rewrite I. fold (groupAt inp w k). subst last.
    destruct a0 as [b|b i|b i|b]; cbn [artifacts_kept await_group] in *; subst k.
    - left. split; [done|]. by left.
    - destruct Hocc as [Hi Hs].
      case (Z.ltb_spec i (Z.of_nat (length (groupAt inp w b)) - 1)); intros Hl.
      + left. split; [done|]. right. exists i. split; [lia|]. split; [lia|]. split.
        * intros j' Hj'. apply Htiles; [lia|]. unfold await_before; cbn; lia.
        * by rewrite Hs, Hc.
      + right. replace (Z.of_nat (length (groupAt inp w b)) - 1) with i by lia.
        split; [done|]. split; [apply Hq; unfold await_before; cbn; lia|]. split.
        * intros j' Hj'. apply Htiles; [lia|]. unfold await_before; cbn; lia.
        * by rewrite Hs, Hc.
    - case (Z.ltb_spec i (Z.of_nat (length (groupAt inp w b)) - 1)); intros Hl.
      + left. split; [done|]. right. exists i. split; [lia|]. split; [lia|]. split.
        * intros j' Hj'. apply Htiles; [lia|]. unfold await_before; cbn; lia.
        * by rewrite Hc, orb_true_r.
      + right. replace (Z.of_nat (length (groupAt inp w b)) - 1) with i by lia.
        split; [done|]. split; [apply Hq; unfold await_before; cbn; lia|]. split.
        * intros j' Hj'. apply Htiles; [lia|]. unfold await_before; cbn; lia.
        * by rewrite Hc, orb_true_r.
    - right. split; [done|]. split; [apply Hq; unfold await_before; cbn; lia|]. split.
      + intros j' Hj'. apply Htiles; [lia|]. unfold await_before; cbn; lia.
      + by rewrite Hc, orb_true_r. }
  - destruct (groupLoop_abort env inp (colsOf inp) (gapOf inp) (qValOf inp)
                (batchSizeOf inp) total todo k w1 C Hbatch Hab)
      as (w2 & E2 & G2 & C2 & A2 & I2).
    rewrite E2, Ek. cbn [fst snd endRun]. split; [|split; [|split]].
    + eapply status_cancelled; [done|]. cbn. by rewrite C2.
    + cbn. rewrite C2. cbn. rewrite G2, G. reflexivity.
    + cbn. rewrite C2. cbn. congruence.
    + done.
  - destruct (groupLoop_page env inp (colsOf inp) (gapOf inp) (qValOf inp)
                (batchSizeOf inp) total todo k w1 C Hsg Hbatch)
      as (w2 & E2 & P2 & C2).
    { rewrite I. exact Hqt. } { apply Hok. }
    rewrite I in C2. fold (groupAt inp w k) in C2. fold last in C2. rewrite Hfl in C2.
    rewrite E2, groupLoop_break by done. rewrite Ek.
    destruct P2 as (I2 & O2 & D2 & A2 & R2 & G2 & K2 & V2 & L2).
    rewrite seqZ_one in G2. cbn [map] in G2. rewrite I, O in G2.
    cbn [fst snd endRun]. split; [|split; [|split]].
    + eapply status_cancelled; [done|]. by cbn.
    + cbn. rewrite G2, G, seqZ_snoc, map_app by lia. done.
    + cbn. congruence.
    + done.
Qed.

Lemma sample_quiet_before (bad : list Z) (a0 : Await) :
  quiet_before (Sample.env bad (Some a0)) a0.
Proof.
  intros a Ha. unfold await_before in Ha. cbn [Sample.env cancel_during].
  destruct a, a0; cbn in *; try done;
    rewrite ?andb_false_iff, !Z.eqb_neq; lia.
Qed.

Lemma sample_cancel_at (bad : list Z) (a0 : Await) :
  cancel_during (Sample.env bad (Some a0)) a0 = true.
Proof.
  cbn [Sample.env cancel_during]. destruct a0; cbn; by rewrite !Z.eqb_refl.
Qed.

(** C2, as stated, fails: a request that arrives while the only tile of the
    only group is decoding does not abort that group; its page is produced. *)
Lemma C2_counterexample :
  ~ (forall env inp w b i,
       1 <= colsOf inp -> 1 <= rowsOf inp -> images w <> [] -> encodes_all env ->
       occurs inp w (Decode b i) ->
       cancel_during env (Decode b i) = true -> quiet_before env (Decode b i) ->
       Z.of_nat (length (generatedBlobs (generate env inp w))) = b).
Proof.
  intros H.
  specialize (H (Sample.env [] (Some (Decode 0 0)))
                (Sample.inp (Some 1) (Some 1) (Some 1)) (Sample.world 1 []) 0 0).
  assert (1 = 0) as E; [|done].
  apply H; try done. apply sample_quiet_before.
Qed.

(** C2, amended: let the first cancel request arrive during the suspension
    [a0] of a run.  The run ends [Cancelled], raises no alert, and keeps
    exactly the pages of the groups [0 .. kept-1]:
    - between groups ([a0] is the encoding of group [k] or the [sleep(100)]
      that opens group [k+1]): [kept = k + 1], no page for group [k+1];
    - while group [b] is drawn, before the decode of its last tile:
      [kept = b], the group is aborted;
    - during the [sleep(20)] or the decode of the last tile of group [b]:
      [kept = b + 1], the group is not aborted, its page is produced and the
      run stops before the next group. *)
Theorem C2_cancellation env inp w (c r : Z) (a0 : Await) :
  in_cols inp = Some c -> in_group_rows inp = Some r -> 1 <= c -> 1 <= r ->
  images w <> [] -> encodes_all env ->
  occurs inp w a0 -> cancel_during env a0 = true -> quiet_before env a0 ->
  let run := generate_run env inp w in
  let kept := artifacts_kept inp w a0 in
  status run = Some Cancelled
  /\ Z.of_nat (length (generatedBlobs (final run))) = kept
  /\ generatedBlobs (final run)
     = map (fun b => Some (pageAt env inp w b)) (seqZ 0 kept)
  /\ alerts (final run) = alerts w
  /\ (forall k, a0 = ToBlob k \/ a0 = SleepGroup (k + 1) -> kept = k + 1)
  /\ (forall b i, a0 = SleepTile b i \/ a0 = Decode b i ->
        kept = if i <? Z.of_nat (length (groupAt inp w b)) - 1 then b else b + 1).
Proof.
  intros Hc Hr Hc1 Hr1 Hne Hok Hocc Hcan Hq. cbv zeta.
  assert (colsOf inp = c) as Ec by (unfold colsOf; rewrite Hc; apply or_default_pos; lia).
  assert (rowsOf inp = r) as Er by (unfold rowsOf; rewrite Hr; apply or_default_pos; lia).
  destruct (generate_cancelled env inp w a0) as (H1 & H2 & H3 & _); try done; try lia.
  split; [done|]. split; [|split; [done|split; [done|split]]].
  - rewrite H2, length_map. apply length_seqZ_nonneg.
    destruct Hocc as [Hk _]. destruct a0; cbn in *; try case (Z.ltb_spec _ _); lia.
  - by intros k [-> | ->].
  - by intros b i [-> | ->].
Qed.

(** A request during the encoding of the first page: one page, cancelled. *)
Lemma C2_cancellation_witness :
  let run := generate_run (Sample.env [] (Some (ToBlob 0)))
               (Sample.inp (Some 2) (Some 2) (Some 1)) (Sample.world 10 []) in
  status run = Some Cancelled
  /\ Z.of_nat (length (generatedBlobs (final run))) = 1.
Proof.
  destruct (C2_cancellation (Sample.env [] (Some (ToBlob 0)))
              (Sample.inp (Some 2) (Some 2) (Some 1)) (Sample.world 10 []) 2 2
              (ToBlob 0) eq_refl eq_refl ltac:(lia) ltac:(lia) ltac:(done)
              (fun b => eq_refl) ltac:(by vm_compute) eq_refl
              (sample_quiet_before [] (ToBlob 0)))
    as (H1 & H2 & _).
  split; [exact H1 | exact H2].
Defined.

(** The third of ten images fails to decode: three pages, one log entry. *)
Lemma C6_decode_failure_isolated_witness :
  let run := generate_run (Sample.env [3] None)
               (Sample.inp (Some 2) (Some 2) (Some 1)) (Sample.world 10 []) in
  status run = Some Completed
  /\ Z.of_nat (length (generatedBlobs (final run))) = 3
  /\ console (final run) = [LogDecodeFailed "blob"].
Proof.
  destruct (C6_decode_failure_isolated (Sample.env [3] None)
              (Sample.inp (Some 2) (Some 2) (Some 1)) (Sample.world 10 []) 2 2
              eq_refl eq_refl ltac:(lia) ltac:(lia) ltac:(done)
              (fun a => eq_refl) (fun b => eq_refl))
    as (H1 & H2 & _ & _ & H5).
  assert (forall (j : nat) img,
            Sample.imgs 10 !! j = Some img -> j <> 2%nat ->
            is_Some (decode (Sample.env [3] None) img)) as Hothers.
  { intros j img Hj Hne.
    do 10 (destruct j as [|j];
           [vm_compute in Hj; injection Hj as <-;
            first [ exfalso; apply Hne; reflexivity
                  | vm_compute; eexists; reflexivity ]|]).
    vm_compute in Hj. discriminate Hj. }
  split; [exact H1|]. split; [exact H2|].
  exact (H5 2%nat (Sample.img 3) eq_refl eq_refl Hothers).
Defined.

(** A 400 x 300 image in a square cell of 1500: drawn 2000 wide, 250 cut off
    on each side. *)
Lemma C7_cover_placement_witness :
  exists dest,
    coverDraw "blob" 400 300 0 0 1500 1500
    = ClipDrawImage "blob" (cellRect 0 0 1500 1500) dest
    /\ rh dest = 1500%Q /\ (rw dest == 2000)%Q /\ (rx dest == - 250)%Q.
Proof.
  destruct (C7_cover_placement "blob" 400 300 0 0 1500 1500
              ltac:(lia) ltac:(lia) ltac:(lia) ltac:(lia)) as (dest & E & _).
  exists dest. split; [exact E|].
  vm_compute in E. injection E as <-. by vm_compute.
Defined.

(** ** Numbering *)

Lemma label_start (inp : Inputs) (N k : Z) :
  in_startNumber inp = Some N -> N <> 0 -> label inp k = N + k.
Proof. intros H HN. unfold label. by rewrite H, or_default_pos. Qed.

Lemma drawNumber_label (inp : Inputs) (index x y w h : Z) :
  in_showNum inp = true ->
  exists pre st tx ty,
    drawNumber inp index x y w h = pre ++ [FillText st (TxtNum (label inp index)) tx ty].
Proof.
  intros Hs. unfold drawNumber. rewrite Hs. cbn [negb].
  destruct (includes (in_fontPos inp) "bottom"), (includes (in_fontPos inp) "top"),
    (includes (in_fontPos inp) "left"), (includes (in_fontPos inp) "right");
    by repeat eexists.
Qed.

(** C3 fails on the code for the start number 0: [parseInt("0") || 1] is 1,
    so tile [k] is numbered [1 + k] and not [0 + k]; the first page of such
    a run carries the number 1 on its first tile. *)
Theorem C3_start_zero_label :
  let inp := Sample.inp (Some 2) (Some 2) (Some 0) in
  (forall k, label inp k = 1 + k)
  /\ match generatedBlobs (generate (Sample.env [] None) inp (Sample.world 1 [])) with
     | [Some page] =>
         match last (cv_ops (blob_page page)) with
         | Some (FillText _ (TxtNum num) _ _) => num = 1
         | _ => False
         end
     | _ => False
     end.
Proof. cbv zeta. split; [reflexivity|]. by vm_compute. Qed.

(** ** Release of the canvas *)

Lemma generate_toast_cleared env inp w :
  images w <> [] -> toast (generate env inp w) = None.
Proof. intros H. unfold generate. by rewrite generate_run_nonempty. Qed.

(** C9 fails on the code for a run that leaves the [try] block by an
    exception: the [finally] clause hides the toast but the canvas keeps the
    size of the page under construction.  Shown on a run cancelled during
    the first [sleep(100)] and on a run whose first encoding fails. *)
Theorem C9_canvas_left_allocated :
  let inp := Sample.inp (Some 2) (Some 2) (Some 1) in
  let cancelled := generate_run (Sample.env [] (Some (SleepGroup 0))) inp
                     (Sample.world 10 []) in
  let failed := generate_run
                  {| cancel_during := fun _ => false;
                     decode := fun _ => Some (400, 300);
                     toBlob_ok := fun _ => false |} inp (Sample.world 10 []) in
  (status cancelled = Some Cancelled /\ toast (final cancelled) = None
   /\ cv_width (canvas (final cancelled)) = 3010
   /\ cv_height (canvas (final cancelled)) = 3010)
  /\ (status failed = Some Failed /\ toast (final failed) = None
      /\ alerts (final failed) = [AlertFailed ErrNullBlob]
      /\ cv_width (canvas (final failed)) = 3010
      /\ cv_height (canvas (final failed)) = 3010).
Proof. cbv zeta. by vm_compute. Qed.

(** ** Requests that are turned down *)

Lemma or_default_zero (v : option Z) (d : Z) :
  v = Some 0 \/ v = None -> or_default v d = d.
Proof. by intros [-> | ->]. Qed.

Lemma ceil_div_neg (a b : Z) : 0 <= a -> b < 0 -> ceil_div a b <= 0.
Proof.
  intros Ha Hb. rewrite Qceiling_quot by lia.
  rewrite <- (Z.div_opp_opp (- a) b), Z.opp_involutive by lia.
  pose proof (Z.div_pos a (- b) Ha ltac:(lia)). lia.
Qed.

(** C8, as stated, fails: with the column count 0 the request is not turned
    down; the run starts and produces a page. *)
Lemma C8_counterexample :
  ~ (forall env inp w (c : Z),
       in_cols inp = Some c -> c <= 0 -> never_cancelled env -> encodes_all env ->
       generatedBlobs (generate env inp w) = generatedBlobs w).
Proof.
  intros H.
  pose proof (H (Sample.env [] None) (Sample.inp (Some 0) (Some 1) (Some 1))
                (Sample.world 1 []) 0 eq_refl ltac:(lia)
                (fun a => eq_refl) (fun b => eq_refl)) as Hb.
  vm_compute in Hb. discriminate Hb.
Qed.

(** Negative columns or rows are not checked by [generate]: when the
    batch size comes out negative the loop is not entered, but the previous
    output has already been dropped. *)
Lemma generate_negative_batch env inp w :
  images w <> [] -> colsOf inp * rowsOf inp < 0 ->
  completion (generate_run env inp w) = Some Normal
  /\ generatedBlobs (generate env inp w) = []
  /\ container (generate env inp w) = [].
Proof.
  intros Hne Hneg. unfold generate. rewrite generate_run_nonempty by done. cbv zeta.
  pose proof (ceil_div_neg (Z.of_nat (length (images w))) (batchSizeOf inp)
                ltac:(lia) Hneg) as Ht.
  unfold totalBatchesOf.
  replace (Z.to_nat (ceil_div (Z.of_nat (length (images w))) (batchSizeOf inp)))
    with 0%nat by lia.
  by cbn.
Qed.

(** The hint and the generator agree on the number of groups. *)
Lemma calculateGroupBatch_groups inp w :
  1 <= colsOf inp -> 1 <= rowsOf inp ->
  calculateGroupBatch inp w
  = Some (batchSizeOf inp,
          if 0 <? Z.of_nat (length (images w))
          then totalBatchesOf inp (images w) else 0).
Proof.
  intros Hc Hr. unfold calculateGroupBatch, colsOf, rowsOf in *.
  case (Z.ltb_spec 0 (or_default (in_cols inp) 3)); [intros _|lia].
  by case (Z.ltb_spec 0 (or_default (in_group_rows inp) 3)); [intros _|lia].
Qed.

(** C8, amended: a request with an empty image sequence is turned down
    before anything else happens: nothing is rendered or produced and the
    previous output stays.  Columns or rows that are zero or not a number
    are not turned down but replaced by 3, and the run proceeds to its
    [ceil(n / batchSize)] pages. *)
Theorem C8_rejection env inp w :
  (images w = [] ->
     completion (generate_run env inp w) = None
     /\ generate env inp w = alert AlertNoImages w)
  /\ (in_cols inp = Some 0 \/ in_cols inp = None -> colsOf inp = 3)
  /\ (in_group_rows inp = Some 0 \/ in_group_rows inp = None -> rowsOf inp = 3)
  /\ (images w <> [] -> 1 <= colsOf inp -> 1 <= rowsOf inp ->
      never_cancelled env -> encodes_all env ->
      status (generate_run env inp w) = Some Completed
      /\ Z.of_nat (length (generatedBlobs (generate env inp w)))
         = ceil_div (Z.of_nat (length (images w))) (colsOf inp * rowsOf inp)
      /\ 1 <= ceil_div (Z.of_nat (length (images w))) (colsOf inp * rowsOf inp)).
Proof.
  split; [|split; [|split]].
  - intros H. unfold generate. by rewrite generate_run_empty.
  - apply or_default_zero.
  - apply or_default_zero.
  - intros Hne Hc Hr Hq Hok.
    destruct (generate_completed env inp w Hc Hr Hne Hq Hok) as (H1 & H2 & H3 & _).
    pose proof (total_pos inp w Hc Hr Hne) as Ht.
    split; [by apply status_completed|]. unfold generate. split; [|done].
    rewrite H3, length_map. apply length_seqZ_nonneg.
    unfold totalBatchesOf, batchSizeOf in *. lia.
Qed.

(** No image: only the alert.  Column count 0: the run completes. *)
Lemma C8_rejection_witness :
  generate (Sample.env [] None) (Sample.inp (Some 2) (Some 2) (Some 1))
    (Sample.world 0 [None])
  = alert AlertNoImages (Sample.world 0 [None])
  /\ status (generate_run (Sample.env [] None) (Sample.inp (Some 0) (Some 1) (Some 1))
               (Sample.world 10 [])) = Some Completed.
Proof.
  split.
  - destruct (C8_rejection (Sample.env [] None) (Sample.inp (Some 2) (Some 2) (Some 1))
                (Sample.world 0 [None])) as (H & _).
    destruct (H eq_refl) as [_ E]. exact E.
  - destruct (C8_rejection (Sample.env [] None) (Sample.inp (Some 0) (Some 1) (Some 1))
                (Sample.world 10 [])) as (_ & _ & _ & H).
    destruct (H ltac:(done) ltac:(vm_compute; discriminate) ltac:(vm_compute; discriminate)
                (fun a => eq_refl) (fun b => eq_refl)) as [E _]. exact E.
Defined.

(** ** De-duplication *)

Lemma scan_deleteIds (imgs : list Img) : forall acc,
  deleteIds (foldl scanStep acc imgs) = deleteIds acc ++ later_dups (seen acc) imgs.
Proof.
  induction imgs as [|img rest IH]; intros acc; cbn [foldl later_dups].
  - by rewrite app_nil_r.
  - rewrite IH. unfold scanStep. destruct (decide (img_name img ∈ seen acc)); cbn.
    + by rewrite <- app_assoc.
    + done.
Qed.

Lemma later_dups_elem (imgs : list Img) : forall seen id,
  id ∈ later_dups seen imgs <->
  exists i img, imgs !! i = Some img /\ img_id img = id
    /\ (img_name img ∈ seen
        \/ exists j img', imgs !! j = Some img' /\ (j < i)%nat
                          /\ img_name img' = img_name img).
Proof.
  induction imgs as [|im rest IH]; intros seen id; cbn [later_dups].
  - split; [by intros ?%elem_of_nil | by intros (i & img & ? & _)].
  - destruct (decide (img_name im ∈ seen)) as [Hin|Hout].
    + rewrite elem_of_cons, IH. split.
      * intros [-> | (i & img & Hi & Hid & Hd)].
        { pick 0%nat im. by left. }
        pick (S i) img.
        destruct Hd as [Hs | (j & img' & Hl & Hj & Hn)]; [by left|].
        right. pick (S j) img'. done.
      * intros (i & img & Hi & Hid & Hd). destruct i as [|i].
        { left. by injection Hi as ->. }
        right. pick i img.
        destruct Hd as [Hs | (j & img' & Hl & Hj & Hn)]; [by left|].
        destruct j as [|j].
        { injection Hl as <-. left. by rewrite <- Hn. }
        right. pick j img'. done.
    + rewrite IH. split.
      * intros (i & img & Hi & Hid & Hd). pick (S i) img.
        destruct Hd as [Hs | (j & img' & Hl & Hj & Hn)].
        { apply elem_of_union in Hs as [Hs%elem_of_singleton | Hs]; [|by left].
          right. pick 0%nat im. done. }
        right. pick (S j) img'. done.
      * intros (i & img & Hi & Hid & Hd). destruct i as [|i].
        { injection Hi as <-. destruct Hd as [Hs | (j & ? & _ & Hj & _)]; [done|lia]. }
        pick i img.
        destruct Hd as [Hs | (j & img' & Hl & Hj & Hn)].
        { left. apply elem_of_union. by right. }
        destruct j as [|j].
        { injection Hl as <-. left. apply elem_of_union. left.
          by apply elem_of_singleton. }
        right. pick j img'. done.
Qed.

Lemma later_dups_distinct (imgs : list Img) : forall seen,
  NoDup (map img_name imgs) ->
  (forall img, img ∈ imgs -> img_name img ∉ seen) ->
  later_dups seen imgs = [].
Proof.
  induction imgs as [|im rest IH]; intros seen Hnd Hs; [done|]. cbn [later_dups].
  cbn [map] in Hnd. apply NoDup_cons in Hnd as [Hhd Hnd].
  destruct (decide (img_name im ∈ seen)) as [Hin|_].
  - exfalso. apply (Hs im); [by left | done].
  - apply IH; [done|]. intros img Hin. rewrite not_elem_of_union. split.
    + rewrite elem_of_singleton. intros E. apply Hhd. rewrite <- E.
      by apply list_elem_of_fmap_2.
    + apply Hs. by right.
Qed.

Lemma filter_all {A} (P : A -> Prop) `{!forall x, Decision (P x)} (l : list A) :
  (forall x, x ∈ l -> P x) -> filter P l = l.
Proof.
  induction l as [|x l IH]; intros Hall; [done|].
  rewrite filter_cons_True by (apply Hall; by left).
  f_equal. apply IH. intros y Hy. apply Hall. by right.
Qed.

Lemma delete_all (ids : list Z) : forall store,
  foldl (fun st id => DB_delete id st) store ids
  = filter (fun r => rec_id r ∉ ids) store.
Proof.
  induction ids as [|id ids IH]; intros store; cbn [foldl].
  - symmetry. apply filter_all. intros r _. apply not_elem_of_nil.
  - rewrite IH. unfold DB_delete. rewrite list_filter_filter.
    apply list_filter_iff. intros r. rewrite not_elem_of_cons. tauto.
Qed.

Lemma removeDuplicates_db (w : World) :
  db (removeDuplicates w)
  = filter (fun r => rec_id r ∉ later_dups ∅ (images w)) (db w).
Proof.
  unfold removeDuplicates, refreshImagesFromDB, scan. rewrite scan_deleteIds.
  cbn [deleteIds seen app db set_images].
  rewrite <- delete_all. generalize (later_dups ∅ (images w)). intros ids.
  revert w. induction ids as [|id ids IH]; intros w; [done|].
  cbn [foldl]. by rewrite IH.
Qed.

Lemma removeDuplicates_images (w : World) :
  images (removeDuplicates w) = map toImg (db (removeDuplicates w)).
Proof. done. Qed.

Lemma StronglySorted_lt_NoDup (l : list Z) : StronglySorted Z.lt l -> NoDup l.
Proof.
  induction 1 as [|x l Hs IH Hall]; [apply NoDup_nil_2|].
  apply NoDup_cons. split; [|done].
  intros Hin. rewrite Forall_forall in Hall. specialize (Hall x Hin). lia.
Qed.

Lemma StronglySorted_filter (P : DBRec -> Prop) `{!forall r, Decision (P r)}
    (store : list DBRec) :
  StronglySorted Z.lt (map rec_id store) ->
  StronglySorted Z.lt (map rec_id (filter P store)).
Proof.
  induction store as [|r store IH]; [done|]. cbn [map].
  intros Hs. apply StronglySorted_inv in Hs as [Hs Hall].
  destruct (decide (P r)) as [Hp|Hn].
  - rewrite filter_cons_True by done. cbn [map]. constructor; [by apply IH|].
    rewrite Forall_forall in *. intros id Hid. apply Hall.
    apply list_elem_of_fmap in Hid as (r' & -> & Hr').
    apply list_elem_of_filter in Hr' as [_ Hr']. by apply list_elem_of_fmap_2.
  - rewrite filter_cons_False by done. by apply IH.
Qed.

Lemma store_ids_NoDup (w : World) :
  store_consistent w -> NoDup (map img_id (images w)).
Proof.
  intros [Hp Hs]. rewrite Hp.
  replace (map img_id (map toImg (db w))) with (map rec_id (db w)).
  - by apply StronglySorted_lt_NoDup.
  - rewrite map_map. by apply map_ext.
Qed.

(** C10, as stated, fails: after a drag-and-drop reordering the sequence
    comes back from the store in key order, even when no name repeats. *)
Lemma C10_counterexample :
  ~ (forall w, store_consistent w -> NoDup (map img_name (images w)) ->
               images (removeDuplicates w) = images w).
Proof.
  intros H.
  specialize (H (Sample.gallery [Sample.rec 1 "a"; Sample.rec 2 "b"]
                   [toImg (Sample.rec 2 "b"); toImg (Sample.rec 1 "a")])).
  assert (E : [toImg (Sample.rec 1 "a"); toImg (Sample.rec 2 "b")]
              = [toImg (Sample.rec 2 "b"); toImg (Sample.rec 1 "a")]);
    [|discriminate E].
  apply H.
  - split; cbn.
    + apply Permutation_swap.
    + repeat constructor.
  - cbn. repeat (apply NoDup_cons; split); try apply NoDup_nil_2;
      rewrite ?elem_of_cons, ?elem_of_nil; intuition discriminate.
Qed.

(** C10, amended: [removeDuplicates] keeps exactly the images that are
    the first of their name in the current sequence and deletes the others
    from the store; the sequence is then read back from the store, so the
    kept images come in ascending key order.  When the sequence was in store
    order their relative order is unchanged, and if moreover no name repeats
    the sequence is unchanged. *)
Theorem C10_removeDuplicates (w : World) :
  store_consistent w ->
  let w' := removeDuplicates w in
  (forall img, img ∈ images w' <-> exists i, first_of_name (images w) i img)
  /\ images w' = map toImg (db w')
  /\ db w' `sublist_of` db w
  /\ StronglySorted Z.lt (map img_id (images w'))
  /\ (images w = map toImg (db w) ->
      images w' `sublist_of` images w
      /\ (NoDup (map img_name (images w)) -> images w' = images w)).
Proof.
  intros Hcons. pose proof (store_ids_NoDup w Hcons) as Hnd.
  destruct Hcons as [Hperm Hsorted]. cbv zeta.
  rewrite removeDuplicates_images, removeDuplicates_db.
  split; [|split; [done|split; [apply sublist_filter|split]]].
  - intros img. rewrite list_elem_of_fmap. split.
    + intros (r & -> & Hr). apply list_elem_of_filter in Hr as [Hkeep Hr].
      assert (toImg r ∈ images w) as Hin.
      { rewrite Hperm. by apply list_elem_of_fmap_2. }
      apply list_elem_of_lookup in Hin as [i Hi]. exists i. split; [done|].
      intros j img' Hj Hl Hn. apply Hkeep. apply later_dups_elem.
      pick i (toImg r). right. pick j img'. done.
    + intros (i & Hi & Hfirst).
      assert (img ∈ map toImg (db w)) as Hin.
      { rewrite <- Hperm. by apply list_elem_of_lookup_2 in Hi. }
      apply list_elem_of_fmap in Hin as (r & -> & Hr).
      exists r. split; [done|]. apply list_elem_of_filter. split; [|done].
      intros Hdel. apply later_dups_elem in Hdel as (i' & im' & Hi' & Hid & Hd).
      assert (i' = i) as ->.
      { apply (NoDup_lookup (map img_id (images w)) _ _ (rec_id r)); [done| |].
        - rewrite list_lookup_fmap, Hi'. cbn. by rewrite Hid.
        - by rewrite list_lookup_fmap, Hi. }
      assert (im' = toImg r) as -> by congruence.
      destruct Hd as [Hs | (j & img' & Hl & Hj & Hn)]; [set_solver|].
      by apply (Hfirst j img').
  - replace (map img_id (map toImg (filter (fun r => rec_id r ∉ later_dups ∅ (images w)) (db w))))
      with (map rec_id (filter (fun r => rec_id r ∉ later_dups ∅ (images w)) (db w))).
    + by apply StronglySorted_filter.
    + rewrite map_map. by apply map_ext.
  - intros Hsame. split.
    + set (P := fun r => rec_id r ∉ later_dups ∅ (images w)).
      rewrite Hsame. apply (fmap_sublist toImg), sublist_filter.
    + intros Hnames. rewrite later_dups_distinct; [|done|].
      * rewrite filter_all; [done|]. intros r _. apply not_elem_of_nil.
      * intros img _. apply not_elem_of_empty.
Qed.

(** Store [1:a, 2:b, 3:a] shown as [3, 1, 2]: image 1 is deleted, and the
    sequence comes back as [2, 3]. *)
Lemma C10_removeDuplicates_witness :
  images (removeDuplicates
            (Sample.gallery
               [Sample.rec 1 "a"; Sample.rec 2 "b"; Sample.rec 3 "a"]
               [toImg (Sample.rec 3 "a"); toImg (Sample.rec 1 "a");
                toImg (Sample.rec 2 "b")]))
  = [toImg (Sample.rec 2 "b"); toImg (Sample.rec 3 "a")].
Proof.
  destruct (C10_removeDuplicates
              (Sample.gallery
                 [Sample.rec 1 "a"; Sample.rec 2 "b"; Sample.rec 3 "a"]
                 [toImg (Sample.rec 3 "a"); toImg (Sample.rec 1 "a");
                  toImg (Sample.rec 2 "b")])) as (_ & E & _).
  - split; cbn.
    + etrans; [apply Permutation_swap|]. apply Permutation_skip, Permutation_swap.
    + repeat constructor.
  - rewrite E. by vm_compute.
Defined.

(** ** The scenarios of the specification *)

(** Seven images in a 3 x 3 grid: one group of seven tiles, laid out row
    by row; the seventh tile opens the third row. *)
Example scenario_7_in_3x3 :
  let inp := Sample.inp (Some 3) (Some 3) (Some 1) in
  let w := Sample.world 7 [] in
  let g := groupGeometry inp 3 10 (groupAt inp w 0) in
  totalBatchesOf inp (images w) = 1
  /\ length (groupAt inp w 0) = 7%nat
  /\ Geometry.g_realRows g = 3
  /\ (tileX g 10 6, tileY g 10 6) = (0, 2 * (1500 + 10))
  /\ (tileX g 10 5, tileY g 10 5) = (2 * (1500 + 10), 1500 + 10).
Proof. by vm_compute. Qed.

(** Ten images in a 2 x 2 grid: three groups of sizes 4, 4 and 2. *)
Example scenario_10_in_2x2 :
  let inp := Sample.inp (Some 2) (Some 2) (Some 1) in
  let w := Sample.world 10 [] in
  totalBatchesOf inp (images w) = 3
  /\ map (fun b => length (groupAt inp w b)) [0; 1; 2] = [4; 4; 2]%nat
  /\ length (generatedBlobs (generate (Sample.env [] None) inp w)) = 3%nat.
Proof. by vm_compute. Qed.

(** A request during the decode of tile 3 of a twelve-tile group aborts the
    group; during the decode of tile 11, the last one, it does not. *)
Example scenario_cancel_in_group :
  let inp := Sample.inp (Some 4) (Some 3) (Some 1) in
  let w := Sample.world 24 [] in
  length (generatedBlobs (generate (Sample.env [] (Some (Decode 1 3))) inp w)) = 1%nat
  /\ length (generatedBlobs (generate (Sample.env [] (Some (SleepTile 1 10))) inp w)) = 1%nat
  /\ length (generatedBlobs (generate (Sample.env [] (Some (Decode 1 11))) inp w)) = 2%nat.
Proof. by vm_compute. Qed.

(** * Further properties of the code *)

(** ** Runs under any timing of cancel requests and any failures *)

Section AnyRun.

Variables (env : Env) (inp : Inputs) (cols gap qVal batchSize totalBatches : Z).

Local Abbreviation gloop := (groupLoop env inp cols gap qVal batchSize totalBatches).

(** A drawing loop that is not interrupted has painted all its tiles. *)
Lemma drawLoop_normal g b imgs : forall i w,
  fst (drawLoop env inp g gap batchSize b i imgs w) = Normal ->
  canvas (snd (drawLoop env inp g gap batchSize b i imgs w))
  = paint (tilesOps env inp g gap batchSize b i imgs) (canvas w).
Proof.
  induction imgs as [|im rest IH]; intros i w; cbn [drawLoop tilesOps].
  - intros _. cbn [snd]. unfold paint. rewrite app_nil_r. by destruct (canvas w).
  - destruct (isCancelled w); [done|]. intros H.
    rewrite IH, tileStep_canvas by done. unfold paint.
    cbn [cv_width cv_height cv_ops]. by rewrite <- app_assoc.
Qed.

Lemma finishPage_any b w :
  let page := encode qVal (paint (overlayOps inp w) (canvas w)) in
  let r := finishPage env inp qVal b w in
  images (snd r) = images w /\ overlayImg (snd r) = overlayImg w
  /\ db (snd r) = db w /\ alerts (snd r) = alerts w
  /\ if toBlob_ok env b
     then fst r = Normal /\ generatedBlobs (snd r) = generatedBlobs w ++ [Some page]
     else fst r = Thrown ErrNullBlob /\ generatedBlobs (snd r) = generatedBlobs w ++ [None].
Proof.
  unfold finishPage, suspend, cancelProcess.
  destruct (toBlob_ok env b), (cancel_during env (ToBlob b)); by cbn.
Qed.

(** Whatever happens, the pages pushed so far are the first pages of the
    run in their order, followed at most by the [null] of a failed
    encoding. *)
Lemma groupLoop_any : forall todo b w,
  let blobAt := pageBlob env inp (overlayImg w) cols gap qVal batchSize (images w) in
  let r := gloop todo b w in
  exists (k : nat) (tail : list (option Blob)),
    (k <= todo)%nat
    /\ generatedBlobs (snd r)
       = generatedBlobs w ++ map (fun b' => Some (blobAt b')) (seqZ b (Z.of_nat k)) ++ tail
    /\ (tail = [] \/ (tail = [None] /\ fst r = Thrown ErrNullBlob))
    /\ (fst r = Normal -> isCancelled (snd r) = false -> k = todo)
    /\ images (snd r) = images w /\ overlayImg (snd r) = overlayImg w
    /\ db (snd r) = db w /\ alerts (snd r) = alerts w.
Proof.
  induction todo as [|todo IH]; intros b w; cbv zeta.
  { exists 0%nat, []. cbn. rewrite app_nil_r. by repeat split; auto. }
  cbn [groupLoop]. destruct (isCancelled w) eqn:Hw.
  { exists 0%nat, []. cbn. rewrite app_nil_r. repeat split; auto; try lia. congruence. }
  set (w0 := suspend env (SleepGroup b) (set_toast (Some (b + 1, totalBatches)) w)).
  assert (images w0 = images w /\ generatedBlobs w0 = generatedBlobs w
          /\ overlayImg w0 = overlayImg w /\ db w0 = db w /\ alerts w0 = alerts w)
    as (I0 & G0 & O0 & D0 & A0).
  { subst w0. unfold suspend, cancelProcess.
    by destruct (cancel_during env (SleepGroup b)). }
  rewrite I0. fold (batchOf (images w) batchSize b).
  set (batch := batchOf (images w) batchSize b).
  set (g := groupGeometry inp cols gap batch).
  destruct (blankPage_frame g w0) as ((B1 & B2 & B3 & B4 & _ & _ & _ & B8) & _ & _ & BC).
  pose proof (drawLoop_frame env inp g gap batchSize b batch 0 (blankPage g w0))
    as (F1 & F2 & F3 & F4 & _ & _ & _ & F8).
  pose proof (drawLoop_normal g b batch 0 (blankPage g w0)) as HN.
  destruct (drawLoop env inp g gap batchSize b 0 batch (blankPage g w0)) as [c w2].
  cbn [fst snd] in *. destruct c as [|e].
  2:{ exists 0%nat, []. cbn. rewrite app_nil_r.
      repeat split; auto; try lia; try congruence. }
  specialize (HN eq_refl).
  pose proof (finishPage_any b w2) as (P1 & P2 & P3 & P4 & P5). cbv zeta in P5.
  assert (encode qVal (paint (overlayOps inp w2) (canvas w2))
          = pageBlob env inp (overlayImg w) cols gap qVal batchSize (images w) b) as Hb.
  { unfold pageBlob, pageOf, overlayOps. fold batch. fold g.
    rewrite F3, B3, O0, HN, BC. unfold paint.
    by cbn [cv_width cv_height cv_ops app]. }
  rewrite Hb in P5.
  destruct (finishPage env inp qVal b w2) as [c w3]. cbn [fst snd] in *.
  destruct (toBlob_ok env b); destruct P5 as [-> P5].
  - destruct (IH (b + 1) w3) as (k & tail & Hk & G & T & C & I & O & D & A).
    cbv zeta in *. exists (S k), tail.
    rewrite Nat2Z.inj_succ, seqZ_cons by lia.
    replace (Z.pred (Z.succ (Z.of_nat k))) with (Z.of_nat k) by lia.
    replace (Z.succ b) with (b + 1) by lia. cbn [map].
    rewrite P1, P2, F1, F3, B1, B3, I0, O0 in G.
    rewrite G, P5, F2, B2, G0, <- !app_assoc.
    repeat split; auto; try lia; try congruence.
  - exists 0%nat, [None]. change (seqZ b (Z.of_nat 0)) with (@nil Z).
    cbn [fst snd map app]. rewrite P5, F2, B2, G0.
    repeat split; auto; try lia; try congruence.
Qed.

End AnyRun.

Lemma endRun_fields (c : Completion) (x : World) :
  generatedBlobs (set_toast None (endRun c x)) = generatedBlobs x
  /\ images (set_toast None (endRun c x)) = images x
  /\ db (set_toast None (endRun c x)) = db x
  /\ isCancelled (set_toast None (endRun c x)) = isCancelled x.
Proof.
  unfold endRun. destruct c; [done|]. cbn. by destruct (negb (isCancelled x)).
Qed.

(** The output of a started run, entry by entry. *)
Lemma generate_prefix env inp w :
  images w <> [] ->
  exists (k : nat) (tail : list (option Blob)),
    generatedBlobs (generate env inp w)
    = map (fun b => Some (pageAt env inp w b)) (seqZ 0 (Z.of_nat k)) ++ tail
    /\ (tail = [] \/ tail = [None]).
Proof.
  intros Himgs. unfold generate. rewrite generate_run_nonempty by done. cbv zeta.
  pose proof (groupLoop_any env inp (colsOf inp) (gapOf inp) (qValOf inp)
                (batchSizeOf inp) (totalBatchesOf inp (images w))
                (Z.to_nat (totalBatchesOf inp (images w))) 0 (beginRun w))
    as (k & tail & _ & G & T & _).
  cbv zeta in *.
  destruct (groupLoop _ _ _ _ _ _ _ _ _ _) as [c w']. cbn [fst snd final] in *.
  exists k, tail. destruct (endRun_fields c w') as (-> & _). rewrite G.
  split; [done|]. destruct T as [T|[T _]]; auto.
Qed.

(** X1: whatever the timing of cancel requests, decode failures and
    encoding failures, a started run leaves as its output the first [k]
    pages of the run, in order and with the content a clean run gives them,
    followed at most by the single [null] of a failed encoding; it is
    [Completed] only with all pages, and it changes neither the image list
    nor the store. *)
Theorem X1_output_is_prefix env inp w :
  images w <> [] ->
  let run := generate_run env inp w in
  let total := Z.max 0 (totalBatchesOf inp (images w)) in
  exists (k : Z) (tail : list (option Blob)),
    0 <= k <= total
    /\ generatedBlobs (final run)
       = map (fun b => Some (pageAt env inp w b)) (seqZ 0 k) ++ tail
    /\ (tail = []
        \/ (tail = [None] /\ completion run = Some (Thrown ErrNullBlob)))
    /\ (status run = Some Completed -> k = total /\ tail = [])
    /\ images (final run) = images w
    /\ db (final run) = db w.
Proof.
  intros Himgs. cbv zeta. rewrite generate_run_nonempty by done. cbv zeta.
  pose proof (groupLoop_any env inp (colsOf inp) (gapOf inp) (qValOf inp)
                (batchSizeOf inp) (totalBatchesOf inp (images w))
                (Z.to_nat (totalBatchesOf inp (images w))) 0 (beginRun w))
    as (k & tail & Hk & G & T & C & I & O & D & A).
  cbv zeta in *.
  destruct (groupLoop _ _ _ _ _ _ _ _ _ _) as [c w']. cbn [fst snd] in *.
  exists (Z.of_nat k), tail.
  cbn [completion final status].
  destruct (endRun_fields c w') as (E1 & E2 & E3 & E4).
  rewrite E1, E2, E3, E4, G, I, D.
  split; [lia|]. split; [done|]. split.
  { destruct T as [T|[T ->]]; auto. }
  split; [|done].
  destruct c; [|by destruct (isCancelled w')].
  destruct (isCancelled w') eqn:Hc; [done|]. intros _.
  rewrite (C eq_refl eq_refl). split; [lia|].
  by destruct T as [T|[_ T]].
Qed.

Lemma X1_output_is_prefix_witness :
  let w := Sample.world 5 [] in
  let env := Sample.env [] (Some (Decode 1 0)) in
  let inp := Sample.inp (Some 2) (Some 1) None in
  exists k tail,
    generatedBlobs (generate env inp w)
    = map (fun b => Some (pageAt env inp w b)) (seqZ 0 k) ++ tail.
Proof.
  cbv zeta.
  destruct (X1_output_is_prefix (Sample.env [] (Some (Decode 1 0)))
              (Sample.inp (Some 2) (Some 1) None) (Sample.world 5 []))
    as (k & tail & _ & G & _); [by vm_compute|].
  exists k, tail. exact G.
Defined.

(** ** What a run depends on *)

Section SameSession.

Variables (env : Env) (inp : Inputs) (cols gap qVal batchSize totalBatches : Z).

Lemma tileStep_same g b i im w1 w2 :
  same_session w1 w2 -> canvas w1 = canvas w2 ->
  same_session (tileStep env inp g gap batchSize b i im w1)
               (tileStep env inp g gap batchSize b i im w2)
  /\ canvas (tileStep env inp g gap batchSize b i im w1)
     = canvas (tileStep env inp g gap batchSize b i im w2).
Proof.
  intros H Hc. same_fields. cbn in Hc. subst.
  unfold tileStep, suspend, cancelProcess, same_session.
  destruct (_ && _), (cancel_during env (SleepTile b i)),
    (cancel_during env (Decode b i)), (decode env im); by cbn.
Qed.

Lemma drawLoop_same g b imgs : forall i w1 w2,
  same_session w1 w2 -> canvas w1 = canvas w2 ->
  let r1 := drawLoop env inp g gap batchSize b i imgs w1 in
  let r2 := drawLoop env inp g gap batchSize b i imgs w2 in
  fst r1 = fst r2 /\ same_session (snd r1) (snd r2)
  /\ canvas (snd r1) = canvas (snd r2).
Proof.
  induction imgs as [|im rest IH]; intros i w1 w2 H Hc; cbv zeta; cbn [drawLoop].
  { by cbn [fst snd]. }
  assert (isCancelled w1 = isCancelled w2) as -> by apply H.
  destruct (isCancelled w2); [by cbn [fst snd]|].
  destruct (tileStep_same g b i im w1 w2 H Hc) as [H' Hc'].
  by apply IH.
Qed.

Lemma blankPage_same g w1 w2 :
  same_session w1 w2 ->
  same_session (blankPage g w1) (blankPage g w2)
  /\ canvas (blankPage g w1) = canvas (blankPage g w2).
Proof. intros H. same_fields. by unfold blankPage, same_session. Qed.

Lemma finishPage_same b w1 w2 :
  same_session w1 w2 -> canvas w1 = canvas w2 ->
  let r1 := finishPage env inp qVal b w1 in
  let r2 := finishPage env inp qVal b w2 in
  fst r1 = fst r2 /\ same_session (snd r1) (snd r2).
Proof.
  intros H Hc. same_fields. cbn in Hc. subst.
  unfold finishPage, overlayOps, suspend, cancelProcess, same_session.
  destruct (toBlob_ok env b), (cancel_during env (ToBlob b)); by cbn.
Qed.

Lemma groupLoop_same : forall todo b w1 w2,
  same_session w1 w2 ->
  let r1 := groupLoop env inp cols gap qVal batchSize totalBatches todo b w1 in
  let r2 := groupLoop env inp cols gap qVal batchSize totalBatches todo b w2 in
  fst r1 = fst r2 /\ same_session (snd r1) (snd r2).
Proof.
  induction todo as [|todo IH]; intros b w1 w2 H; cbv zeta; cbn [groupLoop].
  { by cbn [fst snd]. }
  assert (isCancelled w1 = isCancelled w2) as -> by apply H.
  destruct (isCancelled w2); [by cbn [fst snd]|].
  set (v1 := suspend env (SleepGroup b) (set_toast (Some (b + 1, totalBatches)) w1)).
  set (v2 := suspend env (SleepGroup b) (set_toast (Some (b + 1, totalBatches)) w2)).
  assert (same_session v1 v2) as Hv.
  { subst v1 v2. same_fields. unfold suspend, cancelProcess, same_session.
    by destruct (cancel_during env (SleepGroup b)). }
  assert (images v1 = images v2) as -> by apply Hv.
  set (batch := slice (images v2) (b * batchSize) ((b + 1) * batchSize)).
  set (g := groupGeometry inp cols gap batch).
  destruct (blankPage_same g v1 v2 Hv) as [HB HBc].
  destruct (drawLoop_same g b batch 0 _ _ HB HBc) as (D1 & D2 & D3).
  cbv zeta in *.
  destruct (drawLoop env inp g gap batchSize b 0 batch (blankPage g v1)) as [c1 u1].
  destruct (drawLoop env inp g gap batchSize b 0 batch (blankPage g v2)) as [c2 u2].
  cbn [fst snd] in *. subst c2. destruct c1; [|by cbn [fst snd]].
  destruct (finishPage_same b u1 u2 D2 D3) as (P1 & P2). cbv zeta in *.
  destruct (finishPage env inp qVal b u1) as [c1 t1].
  destruct (finishPage env inp qVal b u2) as [c2 t2].
  cbn [fst snd] in *. subst c2. destruct c1; [|by cbn [fst snd]].
  by apply IH.
Qed.

End SameSession.

(** X2: a run of [generate] is determined by the image list, the overlay,
    the controls and what happens during the run.  What the page held
    before (earlier output and previews, a cancel flag left set, the
    canvas, the console) has no influence on how the run ends or on the
    pages it produces: the output of a run replaces the previous one. *)
Theorem X2_run_ignores_history env inp w1 w2 :
  images w1 <> [] ->
  images w1 = images w2 -> overlayImg w1 = overlayImg w2 ->
  let r1 := generate_run env inp w1 in
  let r2 := generate_run env inp w2 in
  completion r1 = completion r2
  /\ status r1 = status r2
  /\ generatedBlobs (final r1) = generatedBlobs (final r2)
  /\ container (final r1) = container (final r2)
  /\ isCancelled (final r1) = isCancelled (final r2)
  /\ resultHidden (final r1) = resultHidden (final r2).
Proof.
  intros Hne Hi Ho. cbv zeta.
  rewrite !generate_run_nonempty by congruence. cbv zeta. rewrite <- Hi.
  assert (same_session (beginRun w1) (beginRun w2)) as HS.
  { unfold same_session, beginRun. by cbn. }
  destruct (groupLoop_same env inp (colsOf inp) (gapOf inp) (qValOf inp)
              (batchSizeOf inp) (totalBatchesOf inp (images w1))
              (Z.to_nat (totalBatchesOf inp (images w1))) 0 _ _ HS) as [E S].
  cbv zeta in *.
  destruct (groupLoop _ _ _ _ _ _ _ _ _ (beginRun w1)) as [c1 u1].
  destruct (groupLoop _ _ _ _ _ _ _ _ _ (beginRun w2)) as [c2 u2].
  cbn [fst snd] in *. subst c2.
  destruct S as (S1 & S2 & S3 & S4 & S5 & S6).
  assert (isCancelled (set_toast None (endRun c1 u1))
          = isCancelled (set_toast None (endRun c1 u2))) as HC.
  { unfold endRun. destruct c1; cbn; [done|]. rewrite S4.
    by destruct (negb (isCancelled u2)). }
  unfold status. cbn [completion final]. rewrite HC.
  repeat split; try done.
  all: unfold endRun; destruct c1; cbn; try done.
  all: rewrite ?S4; by destruct (negb (isCancelled u2)).
Qed.

Lemma X2_run_ignores_history_witness :
  let env := Sample.env [] None in
  let inp := Sample.inp (Some 2) (Some 1) None in
  let w := Sample.world 3 [] in
  generatedBlobs (generate env inp (cancelProcess (generate env inp w)))
  = generatedBlobs (generate env inp w).
Proof.
  cbv zeta.
  apply (X2_run_ignores_history (Sample.env [] None)
           (Sample.inp (Some 2) (Some 1) None)
           (cancelProcess (generate (Sample.env [] None)
                             (Sample.inp (Some 2) (Some 1) None) (Sample.world 3 [])))
           (Sample.world 3 [])); by vm_compute.
Defined.

(** ** A failed encoding *)

Section EncodeFails.

Variables (env : Env) (inp : Inputs) (cols gap qVal batchSize totalBatches : Z).

(** The group whose [toBlob] yields [null]: the [null] is pushed, the
    exception leaves the loop, and the canvas keeps the finished page. *)
Lemma groupLoop_null todo b w :
  let batch := batchOf (images w) batchSize b in
  isCancelled w = false -> group_quiet env b -> toBlob_ok env b = false ->
  exists w',
    groupLoop env inp cols gap qVal batchSize totalBatches (S todo) b w
    = (Thrown ErrNullBlob, w')
    /\ generatedBlobs w' = generatedBlobs w ++ [None]
    /\ container w' = container w /\ alerts w' = alerts w
    /\ resultHidden w' = resultHidden w /\ isCancelled w' = false
    /\ images w' = images w
    /\ canvas w' = pageOf env inp (overlayImg w) cols gap batchSize b batch.
Proof.
  intros batch Hw Hq Hok. cbn [groupLoop]. rewrite Hw.
  unfold suspend at 1 2 3 4. rewrite (Hq (SleepGroup b)) by done.
  change (images (set_toast (Some (b + 1, totalBatches)) w)) with (images w).
  fold (batchOf (images w) batchSize b). fold batch.
  set (g := groupGeometry inp cols gap batch).
  set (w1 := blankPage g (set_toast (Some (b + 1, totalBatches)) w)).
  destruct (blankPage_frame g (set_toast (Some (b + 1, totalBatches)) w))
    as (B1 & B2 & B3 & B4). fold w1 in B1, B2, B3, B4.
  destruct B1 as (B11 & B12 & B13 & B14 & B15 & B16 & B17 & B18).
  cbn [images generatedBlobs overlayImg db container resultHidden alerts
       isCancelled console set_toast] in *.
  destruct (drawLoop_run env inp g gap batchSize b batch 0 w1)
    as (H1 & H2 & H3 & H4).
  { congruence. }
  { intros j _. rewrite (Hq (SleepTile b j)), (Hq (Decode b j)) by done.
    by rewrite andb_false_r. }
  assert (isCancelled (snd (drawLoop env inp g gap batchSize b 0 batch w1)) = false)
    as H4'.
  { rewrite H4. destruct batch; [done|].
    rewrite (Hq (SleepTile b _)), (Hq (Decode b _)) by done.
    by rewrite andb_false_r. }
  clear H4.
  pose proof (drawLoop_frame env inp g gap batchSize b batch 0 w1)
    as (F1 & F2 & F3 & F4 & F5 & F6 & F7 & F8).
  destruct (drawLoop env inp g gap batchSize b 0 batch w1) as [c w2].
  cbn [fst snd] in *. subst c.
  unfold finishPage. rewrite Hok. unfold suspend. rewrite (Hq (ToBlob b)) by done.
  eexists. split; [reflexivity|].
  cbn [generatedBlobs container alerts resultHidden isCancelled images canvas
       set_generatedBlobs set_canvas].
  repeat split; try congruence.
  unfold pageOf, overlayOps. fold g. rewrite F3, B13, H2, B4. unfold paint.
  by cbn [cv_width cv_height cv_ops app].
Qed.

End EncodeFails.

(** X3: when no cancel request arrives and the encoding of page [k] is the
    first to fail, the run is [Failed] and raises one alert; the output
    holds the [k] pages before it followed by one [null] entry, [k] previews
    are in the result container, which stays hidden, and the canvas is left
    holding the whole page [k] instead of being shrunk to 1 x 1. *)
Theorem X3_first_failed_encoding env inp w (k : Z) :
  1 <= colsOf inp -> 1 <= rowsOf inp -> images w <> [] ->
  never_cancelled env ->
  0 <= k < totalBatchesOf inp (images w) ->
  (forall b, 0 <= b < k -> toBlob_ok env b = true) ->
  toBlob_ok env k = false ->
  let run := generate_run env inp w in
  status run = Some Failed
  /\ generatedBlobs (final run)
     = map (fun b => Some (pageAt env inp w b)) (seqZ 0 k) ++ [None]
  /\ container (final run) = map (pageAt env inp w) (seqZ 0 k)
  /\ alerts (final run) = alerts w ++ [AlertFailed ErrNullBlob]
  /\ resultHidden (final run) = true
  /\ toast (final run) = None
  /\ canvas (final run)
     = pageOf env inp (overlayImg w) (colsOf inp) (gapOf inp) (batchSizeOf inp) k
         (groupAt inp w k).
Proof.
  intros Hcols Hrows Himgs Hq Hk Hok Hfail. cbv zeta.
  rewrite generate_run_nonempty by done. cbv zeta.
  set (total := totalBatchesOf inp (images w)) in *.
  replace (Z.to_nat total) with (Z.to_nat k + S (Z.to_nat (total - k - 1)))%nat by lia.
  destruct (groupLoop_pages env inp (colsOf inp) (gapOf inp) (qValOf inp)
              (batchSizeOf inp) total (Z.to_nat k) (S (Z.to_nat (total - k - 1)))
              0 (beginRun w)) as (w' & E & P & C); [done| |].
  { intros b Hb. split; [intros a _; apply Hq|]. split; [apply Hok; lia|].
    apply (groupAt_nonempty inp w Hcols Hrows). fold total. lia. }
  rewrite E. rewrite Z.add_0_l, Z2Nat.id by lia.
  destruct P as (I & O & D & A & R & G & K & V & L).
  rewrite Z2Nat.id in G, K, L by lia.
  destruct (groupLoop_null env inp (colsOf inp) (gapOf inp) (qValOf inp)
              (batchSizeOf inp) total (Z.to_nat (total - k - 1)) k w')
    as (w'' & E' & G' & K' & A' & R' & C' & I' & V'); [done| |done|].
  { intros a _. apply Hq. }
  rewrite E'. unfold status, endRun.
  cbn [fst snd completion final isCancelled alerts log alert set_toast
       generatedBlobs container resultHidden toast canvas].
  rewrite C'. cbn [negb].
  cbn [fst snd completion final isCancelled alerts log alert set_toast
       generatedBlobs container resultHidden toast canvas].
  rewrite C', G', K', A', R', V', G, K, A, R, O, I.
  cbn [images overlayImg alerts generatedBlobs container resultHidden beginRun
       set_generatedBlobs set_container set_resultHidden set_isCancelled app].
  unfold pageAt, groupAt. by repeat split.
Qed.

Lemma X3_first_failed_encoding_witness :
  let run := generate_run (Demo.failing 1)
               (Sample.inp (Some 2) (Some 1) None) (Sample.world 5 []) in
  status run = Some Failed /\ length (generatedBlobs (final run)) = 2%nat
  /\ last (generatedBlobs (final run)) = Some None.
Proof.
  cbv zeta.
  destruct (X3_first_failed_encoding (Demo.failing 1)
              (Sample.inp (Some 2) (Some 1) None) (Sample.world 5 []) 1)
    as (S & G & _);
    [by vm_compute | by vm_compute | by vm_compute | by vm_compute | by vm_compute
    | intros b Hb; by replace b with 0 by lia | by vm_compute |].
  split; [exact S|]. rewrite G. clear. by vm_compute.
Defined.

(** ** Cells and tiles *)

(** X4: for [c >= 1] columns and a gap [g >= 0] the cell width never
    exceeds 1500, and it is at least one pixel exactly when [c * 1500] or
    [c * (g + 1)] fits into [MAX_CANVAS_DIM]; with more columns and a larger
    gap the clamp of line 201 yields cells without width. *)
Theorem X4_cell_width (c g : Z) :
  1 <= c -> 0 <= g ->
  Geometry.cellW c g <= 1500
  /\ (1 <= Geometry.cellW c g
      <-> c * 1500 <= MAX_CANVAS_DIM \/ c * (g + 1) <= MAX_CANVAS_DIM)
  /\ (0 <= Geometry.cellW c g
      <-> c * 1500 <= MAX_CANVAS_DIM \/ c * g <= MAX_CANVAS_DIM).
Proof.
  intros Hc Hg. destruct (Z_le_gt_dec (c * 1500) MAX_CANVAS_DIM) as [Hu|Hu].
  - rewrite cellW_unclamped by done. repeat split; intros; auto; lia.
  - rewrite cellW_clamped by lia. unfold MAX_CANVAS_DIM in *.
    split; [|split].
    + apply Z.div_le_upper_bound; nia.
    + split.
      * intros H. right.
        assert (Hm := Z.mul_div_le (8192 - c * g) c ltac:(lia)). nia.
      * intros [H|H]; [lia|]. apply Z.div_le_lower_bound; lia.
    + split.
      * intros H. right.
        assert (Hm := Z.mul_div_le (8192 - c * g) c ltac:(lia)). nia.
      * intros [H|H]; [lia|]. apply Z.div_le_lower_bound; lia.
Qed.

Lemma X4_cell_width_witness :
  Geometry.cellW 6 10 <= 1500 /\ 1 <= Geometry.cellW 6 10.
Proof.
  destruct (X4_cell_width 6 10) as (H1 & H2 & _); [lia | lia |].
  split; [exact H1|]. apply H2. right. by vm_compute.
Defined.

Lemma cellW_nonneg (c g : Z) :
  1 <= c -> c * 1500 <= MAX_CANVAS_DIM \/ c * g <= MAX_CANVAS_DIM ->
  0 <= Geometry.cellW c g.
Proof.
  intros Hc Hfit. destruct (Z_le_gt_dec (c * 1500) MAX_CANVAS_DIM) as [Hu|Hu].
  - rewrite cellW_unclamped by done. lia.
  - rewrite cellW_clamped by lia. apply Z.div_le_lower_bound; lia.
Qed.

Lemma cellH_nonneg (cw : Z) (a : Q) :
  0 <= cw -> (0 < a)%Q -> 0 <= Geometry.cellH cw a.
Proof.
  intros Hw Ha. unfold Geometry.cellH.
  change 0 with (Qfloor 0). apply Qfloor_resp_le, fl_nonneg.
  apply Qle_shift_div_l; [done|]. rewrite Qmult_0_l.
  change 0%Q with (inject_Z 0). by rewrite <- Zle_Qle.
Qed.

Section Layout.

Variables (c gap : Z) (a : Q) (len : Z).
Hypothesis Hc : 1 <= c.
Hypothesis Hgap : 0 <= gap.

Local Abbreviation G := (Geometry.compute c gap a len).
Local Abbreviation cw := (Geometry.cellW c gap).
Local Abbreviation ch := (Geometry.cellH (Geometry.cellW c gap) a).

Lemma tileX_col i : 0 <= i -> tileX G gap i = (i mod c) * (cw + gap).
Proof.
  intros Hi. unfold tileX. cbn [Geometry.compute Geometry.g_realCols Geometry.g_cellW].
  by rewrite Z.rem_mod_nonneg by lia.
Qed.

Lemma tileY_row i : tileY G gap i = (i / c) * (ch + gap).
Proof.
  unfold tileY. cbn [Geometry.compute Geometry.g_realCols Geometry.g_cellH].
  by rewrite Qfloor_quot by lia.
Qed.

Lemma tile_inside i :
  0 <= cw -> 0 <= ch -> 0 <= i < len ->
  0 <= tileX G gap i /\ tileX G gap i + cw <= Geometry.g_width G
  /\ 0 <= tileY G gap i /\ tileY G gap i + ch <= Geometry.g_height G.
Proof.
  intros Hw Hh Hi. rewrite tileX_col, tileY_row by lia.
  cbn [Geometry.compute Geometry.g_width Geometry.g_height].
  unfold Geometry.pageWidth, Geometry.pageHeight. rewrite realRows_ceil by done.
  pose proof (Z.mod_pos_bound i c ltac:(lia)) as Hm.
  assert (0 <= i / c) as Hr0 by (apply Z.div_pos; lia).
  assert (i / c <= (len + c - 1) / c - 1) as Hr1.
  { replace (len + c - 1) with ((len - 1) + 1 * c) by lia.
    rewrite Z.div_add by lia.
    assert (i / c <= (len - 1) / c) by (apply Z.div_le_mono; lia). lia. }
  set (col := i mod c) in *. set (row := i / c) in *.
  set (rows := (len + c - 1) / c) in *.
  repeat split; nia.
Qed.

Lemma tiles_apart i j :
  0 <= cw -> 0 <= ch -> 0 <= i < j ->
  tileX G gap i + cw + gap <= tileX G gap j
  \/ tileX G gap j + cw + gap <= tileX G gap i
  \/ tileY G gap i + ch + gap <= tileY G gap j.
Proof.
  intros Hw Hh Hij. rewrite !tileX_col, !tileY_row by lia.
  pose proof (Z.mod_pos_bound i c ltac:(lia)) as Hmi.
  pose proof (Z.mod_pos_bound j c ltac:(lia)) as Hmj.
  pose proof (Z.div_mod i c ltac:(lia)) as Ei.
  pose proof (Z.div_mod j c ltac:(lia)) as Ej.
  assert (i / c <= j / c) as Hr by (apply Z.div_le_mono; lia).
  set (ci := i mod c) in *. set (cj := j mod c) in *.
  set (ri := i / c) in *. set (rj := j / c) in *.
  destruct (Z.lt_trichotomy ci cj) as [H|[H|H]].
  - left. nia.
  - right. right. assert (ri < rj) by nia. nia.
  - right. left. nia.
Qed.

End Layout.

(** X5: with [c >= 1] columns, a gap [g >= 0] for which the cell width is
    not negative, and a positive ratio, every tile of a group lies wholly
    inside the page, and two different tiles are at least the gap apart:
    tile [i] sits in column [i mod c] and row [floor(i / c)], so images
    never overlap and none is cut off by the page border. *)
Theorem X5_tiles_inside_and_apart (c gap : Z) (a : Q) (len i j : Z) :
  1 <= c -> 0 <= gap -> (0 < a)%Q ->
  c * 1500 <= MAX_CANVAS_DIM \/ c * gap <= MAX_CANVAS_DIM ->
  0 <= i < j -> j < len ->
  let G := Geometry.compute c gap a len in
  let cw := Geometry.g_cellW G in
  let ch := Geometry.g_cellH G in
  (forall k, 0 <= k < len ->
     0 <= tileX G gap k /\ tileX G gap k + cw <= Geometry.g_width G
     /\ 0 <= tileY G gap k /\ tileY G gap k + ch <= Geometry.g_height G)
  /\ (tileX G gap i + cw + gap <= tileX G gap j
      \/ tileX G gap j + cw + gap <= tileX G gap i
      \/ tileY G gap i + ch + gap <= tileY G gap j).
Proof.
  intros Hc Hg Ha Hfit Hij Hj. cbv zeta.
  cbn [Geometry.compute Geometry.g_cellW Geometry.g_cellH].
  assert (0 <= Geometry.cellW c gap) as Hw.
  { by apply cellW_nonneg. }
  assert (0 <= Geometry.cellH (Geometry.cellW c gap) a) as Hh
    by by apply cellH_nonneg.
  split.
  - intros k Hk. by apply tile_inside.
  - by apply tiles_apart.
Qed.

Lemma X5_tiles_inside_and_apart_witness :
  let G := Geometry.compute 6 10 1 8 in
  tileX G 10 7 + Geometry.g_cellW G <= Geometry.g_width G
  /\ tileY G 10 7 + Geometry.g_cellH G <= Geometry.g_height G.
Proof.
  cbv zeta.
  destruct (X5_tiles_inside_and_apart 6 10 1 8 0 7) as [H _];
    [lia | lia | done | right; by vm_compute | lia | lia |].
  destruct (H 7 ltac:(lia)) as (_ & H1 & _ & H2). by split.
Defined.

(** ** The custom ratio *)

(** X6: with the custom ratio selected, blank or zero width and height
    fields count as 1000 and 1500, and the ratio is the double nearest to
    [W / H] for the effective width [W] and height [H], which is never
    zero.  For positive [W] and [H] the ratio is positive, the cell height
    is the floor of the double quotient of the cell width by that double,
    and it differs by at most one from the integer quotient
    [floor(cellW * H / W)] while [cellW * H <= 2^50 * W]. *)
Theorem X6_custom_ratio (inp : Inputs) (cw : Z) :
  in_aspectRatio inp = RatioCustom ->
  let W := or_default (in_customW inp) 1000 in
  let H := or_default (in_customH inp) 1500 in
  W <> 0 /\ H <> 0
  /\ getAspectRatio inp = fl (quot W H)
  /\ ~ (getAspectRatio inp == 0)%Q
  /\ (0 < W -> 0 < H ->
      (0 < getAspectRatio inp)%Q
      /\ Geometry.cellH cw (getAspectRatio inp)
         = Qfloor (fl (inject_Z cw / fl (inject_Z W / inject_Z H)))
      /\ (0 <= cw -> cw * H <= 2 ^ 50 * W ->
          (cw * H) / W - 1 <= Geometry.cellH cw (getAspectRatio inp)
                           <= (cw * H) / W + 1)).
Proof.
  intros Hsel. cbv zeta. unfold getAspectRatio. rewrite Hsel.
  set (W := or_default (in_customW inp) 1000).
  set (H := or_default (in_customH inp) 1500).
  assert (W <> 0) as HW.
  { subst W. unfold or_default. destruct (in_customW inp) as [z|]; [|done].
    by case (Z.eqb_spec z 0). }
  assert (H <> 0) as HH.
  { subst H. unfold or_default. destruct (in_customH inp) as [z|]; [|done].
    by case (Z.eqb_spec z 0). }
  assert (~ (inject_Z W == 0)%Q) as HWq.
  { change 0%Q with (inject_Z 0). rewrite inject_Z_injective. done. }
  assert (~ (inject_Z H == 0)%Q) as HHq.
  { change 0%Q with (inject_Z 0). rewrite inject_Z_injective. done. }
  split; [done|]. split; [done|]. split; [done|]. split.
  { apply fl_nonzero. unfold quot. intros E. apply HWq.
    rewrite <- (Qmult_div_r (inject_Z W) (inject_Z H)) by done.
    rewrite E. ring. }
  intros HWp HHp. split; [|split].
  - apply fl_pos. unfold quot. apply Qlt_shift_div_l.
    + change 0%Q with (inject_Z 0). by rewrite <- Zlt_Qlt.
    + rewrite Qmult_0_l. change 0%Q with (inject_Z 0). by rewrite <- Zlt_Qlt.
  - done.
  - intros Hcw Hb. unfold Geometry.cellH. by apply cellH_custom_bound.
Qed.

Lemma X6_custom_ratio_witness :
  let inp := Demo.custom None (Some 0) in
  2249 <= Geometry.cellH 1500 (getAspectRatio inp) <= 2251.
Proof.
  cbv zeta.
  destruct (X6_custom_ratio (Demo.custom None (Some 0)) 1500 eq_refl)
    as (_ & _ & _ & _ & H).
  destruct H as (_ & _ & H); [by vm_compute | by vm_compute |].
  apply H; clear; by vm_compute.
Defined.

(** A 250 by 340 ratio at the cell width 1500: the double quotient is just
    below 2040, where the quotient of the integers is 2040 exactly. *)
Example custom_250_340 :
  Geometry.cellH 1500 (getAspectRatio (Demo.custom (Some 250) (Some 340))) = 2039
  /\ (1500 * 340) / 250 = 2040.
Proof. by vm_compute. Qed.

(** A 1 by 5 ratio at the cell width 1500: the double nearest to [1 / 5] is
    above it, the quotient of 1500 by that double is just below 7500 and
    rounds to 7500. *)
Example custom_1_5 :
  let a := getAspectRatio (Demo.custom (Some 1) (Some 5)) in
  Geometry.cellH 1500 a = 7500 /\ Qfloor (inject_Z 1500 / a) = 7499.
Proof. by vm_compute. Qed.

(** ** The number on a tile *)

Lemma quot_1500 (w : Z) : (quot w 1500 == inject_Z w * (1 # 1500))%Q.
Proof. unfold quot, Qdiv. by change (/ inject_Z 1500)%Q with (1 # 1500)%Q. Qed.

(** X7: when numbering is on, every text operation of [drawNumber] prints
    the number [startNum + index] of the tile, and for a cell of width
    [w >= 0] whose height is at least the padding [40 * w / 1500] its anchor
    point lies inside the cell for every position setting; the fill is the
    last operation, so it lies over the stroke.  With numbering off nothing
    is drawn. *)
Theorem X7_number_anchor (inp : Inputs) (index x y w h : Z) :
  0 <= w -> 40 * w <= 1500 * h ->
  (in_showNum inp = false -> drawNumber inp index x y w h = [])
  /\ (in_showNum inp = true ->
      (forall op, op ∈ drawNumber inp index x y w h ->
         textContent op = Some (TxtNum (label inp index))
         /\ exists tx ty,
              textAnchor op = Some (tx, ty)
              /\ (inject_Z x <= tx <= inject_Z x + inject_Z w)%Q
              /\ (inject_Z y <= ty <= inject_Z y + inject_Z h)%Q)
      /\ exists st tx ty,
           last (drawNumber inp index x y w h)
           = Some (FillText st (TxtNum (label inp index)) tx ty)).
Proof.
  intros Hw Hh. split.
  { intros E. unfold drawNumber. by rewrite E. }
  intros E. unfold drawNumber. rewrite E. cbn [negb].
  assert (0 <= inject_Z w)%Q as Hwq.
  { change 0%Q with (inject_Z 0). by rewrite <- Zle_Qle. }
  assert (40 * inject_Z w <= 1500 * inject_Z h)%Q as Hhq.
  { change 40%Q with (inject_Z 40). change 1500%Q with (inject_Z 1500).
    rewrite <- !inject_Z_mult. by rewrite <- Zle_Qle. }
  pose proof (quot_1500 w) as Hs.
  set (s := quot w 1500) in *. clearbody s.
  set (X := inject_Z x). set (Y := inject_Z y).
  set (Wd := inject_Z w) in *. set (Ht := inject_Z h) in *.
  clearbody X Y Wd Ht.
  assert (forall tx ty : Q,
            (tx == X + 40 * s \/ tx == X + Wd - 40 * s \/ tx == X + Wd / 2)%Q ->
            (ty == Y + Ht - 40 * s \/ ty == Y + 40 * s \/ ty == Y + Ht / 2)%Q ->
            (X <= tx <= X + Wd)%Q /\ (Y <= ty <= Y + Ht)%Q) as Hin.
  { intros tx ty Hx Hy. split.
    - destruct Hx as [Hx|[Hx|Hx]]; rewrite Hx, ?Hs; split; qlin.
    - destruct Hy as [Hy|[Hy|Hy]]; rewrite Hy, ?Hs; split; qlin. }
  destruct (includes (in_fontPos inp) "bottom"), (includes (in_fontPos inp) "top"),
    (includes (in_fontPos inp) "left"), (includes (in_fontPos inp) "right"),
    (in_enableStroke inp); cbn [app].
  all: split;
    [ intros op Hop; repeat (apply elem_of_cons in Hop as [->|Hop]);
      try (by apply elem_of_nil in Hop);
      (split; [done|]); eexists _, _; (split; [reflexivity|]);
      apply Hin; auto using Qeq_refl
    | by eexists _, _, _ ].
Qed.

Lemma X7_number_anchor_witness :
  let inp := Sample.inp (Some 3) (Some 3) (Some 5) in
  exists st tx ty,
    last (drawNumber inp 2 0 0 1500 1500) = Some (FillText st (TxtNum 7) tx ty).
Proof.
  cbv zeta.
  destruct (X7_number_anchor (Sample.inp (Some 3) (Some 3) (Some 5)) 2 0 0 1500 1500)
    as [_ H]; [lia | lia |].
  destruct (H eq_refl) as [_ H']. exact H'.
Defined.

(** ** The hint and the run *)

(** X8: for positive columns and rows the group count shown in the hint is
    the number of pages a run that is neither cancelled nor fails produces
    from the same image list, and 0 for an empty list; the batch size shown
    is the one the run slices the list by. *)
Theorem X8_hint_matches_run env inp w :
  1 <= colsOf inp -> 1 <= rowsOf inp ->
  never_cancelled env -> encodes_all env ->
  exists groups,
    calculateGroupBatch inp w = Some (batchSizeOf inp, groups)
    /\ (images w = [] -> groups = 0)
    /\ (images w <> [] ->
        1 <= groups
        /\ Z.of_nat (length (generatedBlobs (generate env inp w))) = groups
        /\ Z.of_nat (length (container (generate env inp w))) = groups).
Proof.
  intros Hc Hr Hq Hok. rewrite calculateGroupBatch_groups by done.
  eexists. split; [reflexivity|]. split.
  - intros ->. by cbn.
  - intros Hne.
    pose proof (images_pos w Hne) as Hn.
    pose proof (total_pos inp w Hc Hr Hne) as Ht.
    case (Z.ltb_spec 0 (Z.of_nat (length (images w)))); [intros _|lia].
    destruct (generate_completed env inp w Hc Hr Hne Hq Hok)
      as (_ & _ & G & K & _). cbv zeta in G, K.
    unfold generate. rewrite G, K, !length_map, length_seqZ.
    split; [done|]. split; lia.
Qed.

Lemma X8_hint_matches_run_witness :
  calculateGroupBatch (Sample.inp (Some 2) (Some 2) None) (Sample.world 10 [])
  = Some (4, 3)
  /\ length (generatedBlobs (generate (Sample.env [] None)
                               (Sample.inp (Some 2) (Some 2) None)
                               (Sample.world 10 []))) = 3%nat.
Proof.
  destruct (X8_hint_matches_run (Sample.env [] None)
              (Sample.inp (Some 2) (Some 2) None) (Sample.world 10 []))
    as (groups & E & _ & H); [by vm_compute | by vm_compute | done | done |].
  destruct H as (_ & G & _); [by vm_compute|].
  assert (groups = 3) as -> by (vm_compute in E; congruence).
  split; [exact E | lia].
Defined.

(** ** The image list and its store *)

Lemma DB_addImages_cons file files a :
  DB_addImages (file :: files) a = DB_addImages files (DB_add file a).
Proof. done. Qed.

Lemma stored_shift (k : Z) (files : list File) :
  imap (stored k ∘ S) files = imap (stored (k + 1)) files.
Proof.
  apply imap_ext. intros i f _. unfold stored, compose. f_equal. lia.
Qed.

(** [DB.addImages] appends one record per file, in the order of the files,
    under consecutive keys. *)
Lemma DB_addImages_spec (files : list File) : forall a,
  db (world (DB_addImages files a)) = db (world a) ++ imap (stored (keygen a)) files
  /\ keygen (DB_addImages files a) = keygen a + Z.of_nat (length files)
  /\ targetIndex (DB_addImages files a) = targetIndex a
  /\ images (world (DB_addImages files a)) = images (world a).
Proof.
  induction files as [|f files IH]; intros a.
  - cbn. rewrite app_nil_r. repeat split; lia.
  - rewrite DB_addImages_cons. destruct (IH (DB_add f a)) as (D & K & T & I).
    rewrite D, K, T, I, imap_cons, stored_shift.
    cbn [DB_add world keygen targetIndex db images set_db length].
    rewrite <- app_assoc. cbn [app]. unfold stored at 2.
    rewrite Z.add_0_r. repeat split; lia.
Qed.

Lemma stored_ids (files : list File) : forall k,
  StronglySorted Z.lt (map rec_id (imap (stored k) files))
  /\ Forall (fun id => k <= id < k + Z.of_nat (length files))
       (map rec_id (imap (stored k) files)).
Proof.
  induction files as [|f files IH]; intros k; [by split; constructor|].
  rewrite imap_cons, stored_shift. cbn [map length]. unfold stored at 1 3.
  cbn [rec_id]. destruct (IH (k + 1)) as [S1 F1]. split.
  - constructor; [done|]. eapply Forall_impl; [exact F1|]. cbn. lia.
  - constructor; [lia|]. eapply Forall_impl; [exact F1|]. cbn. lia.
Qed.

Lemma app_ok_refresh (a : App) :
  StronglySorted Z.lt (map rec_id (db (world a))) ->
  Forall (fun r => rec_id r < keygen a) (db (world a)) ->
  app_ok (with_world refreshImagesFromDB a).
Proof. intros Hs Hk. by repeat split. Qed.

Lemma import_sorted (files : list File) (a : App) :
  StronglySorted Z.lt (map rec_id (db (world a))) ->
  Forall (fun r => rec_id r < keygen a) (db (world a)) ->
  app_ok (with_world refreshImagesFromDB (DB_addImages files a)).
Proof.
  intros Hs Hk. destruct (DB_addImages_spec files a) as (D & K & _ & _).
  destruct (stored_ids files (keygen a)) as [S1 F1].
  apply app_ok_refresh.
  - rewrite D, map_app. apply StronglySorted_app_2; [|done|done].
    intros x1 x2 H1 H2. rewrite Forall_forall in Hk. rewrite Forall_forall in F1.
    apply list_elem_of_fmap in H1 as (r & -> & Hr).
    specialize (Hk r Hr). specialize (F1 x2 H2). cbn in *. lia.
  - rewrite D, K. apply Forall_app. split.
    + eapply Forall_impl; [exact Hk|]. cbn. lia.
    + rewrite Forall_forall in F1. rewrite Forall_forall. intros r Hr.
      specialize (F1 (rec_id r) (list_elem_of_fmap_2 _ _ _ Hr)). cbn in F1. lia.
Qed.

Lemma app_ok_import (files : list File) (a : App) :
  app_ok a -> app_ok (with_world refreshImagesFromDB (DB_addImages files a)).
Proof. intros [[Hp Hs] Hk]. by apply import_sorted. Qed.

Lemma app_ok_filter (P : DBRec -> Prop) `{!forall r, Decision (P r)} (a : App) :
  app_ok a ->
  app_ok (with_world (fun w => refreshImagesFromDB (set_db (filter P (db w)) w)) a).
Proof.
  intros [[Hp Hs] Hk]. split; [split|].
  - done.
  - by apply StronglySorted_filter.
  - cbn. rewrite Forall_forall in Hk |- *. intros r Hr.
    apply list_elem_of_filter in Hr as [_ Hr]. by apply Hk.
Qed.

(** X9: importing a non-empty list of files stores one record per file, in
    the order given and under fresh consecutive keys, and then shows the
    whole store in key order: every image shown before is still there, the
    new images come last, and an order set by drag and drop is gone.  An
    empty list of files changes nothing. *)
Theorem X9_import_appends (files : list File) (a : App) :
  app_ok a ->
  (files = [] -> handleFiles files a = a)
  /\ (files <> [] ->
      let a' := handleFiles files a in
      images (world a')
      = map toImg (db (world a)) ++ imap (imported (keygen a)) files
      /\ db (world a') = db (world a) ++ imap (stored (keygen a)) files
      /\ keygen a' = keygen a + Z.of_nat (length files)
      /\ (forall img, img ∈ images (world a) -> img ∈ images (world a'))
      /\ (forall img i file, img ∈ images (world a) -> files !! i = Some file ->
            img_id img < img_id (imported (keygen a) i file))
      /\ app_ok a').
Proof.
  intros Hok. split; [by intros ->|]. intros Hne. cbv zeta.
  assert (handleFiles files a = with_world refreshImagesFromDB (DB_addImages files a))
    as -> by (by destruct files).
  destruct (DB_addImages_spec files a) as (D & K & T & I).
  assert (images (world (with_world refreshImagesFromDB (DB_addImages files a)))
          = map toImg (db (world a)) ++ imap (imported (keygen a)) files) as HI.
  { cbn. unfold DB_getAll. rewrite D, map_app. f_equal.
    change (map toImg) with (fmap (M:=list) toImg). by rewrite fmap_imap. }
  destruct Hok as [[Hp Hs] Hk]. split; [exact HI|]. split; [exact D|].
  split; [exact K|]. split; [|split].
  - intros img Himg. rewrite HI. apply elem_of_app. left. by rewrite <- Hp.
  - intros img i file Himg _. rewrite Hp in Himg.
    apply list_elem_of_fmap in Himg as (r & -> & Hr).
    rewrite Forall_forall in Hk. specialize (Hk r Hr). cbn. lia.
  - by apply app_ok_import.
Qed.

Lemma X9_import_appends_witness :
  map img_name (images (world (handleFiles [Demo.file "a"; Demo.file "b"] Demo.page)))
  = ["a"; "b"].
Proof.
  destruct (X9_import_appends [Demo.file "a"; Demo.file "b"] Demo.page) as [_ H].
  - repeat split; cbn; constructor.
  - destruct H as (H & _); [done|]. rewrite H. by vm_compute.
Defined.

(** ** Drag and drop *)

Lemma splice_in_range {A} (l : list A) (s dc : nat) (items : list A) :
  (s + dc <= length l)%nat ->
  splice l (Z.of_nat s) (Z.of_nat dc) items
  = (take dc (drop s l), take s l ++ items ++ drop (s + dc) l).
Proof.
  intros H. unfold splice.
  assert (rel_index (Z.of_nat (length l)) (Z.of_nat s) = Z.of_nat s) as ->.
  { unfold rel_index. case (Z.ltb_spec (Z.of_nat s) 0); lia. }
  assert (Z.min (Z.max (Z.of_nat dc) 0) (Z.of_nat (length l) - Z.of_nat s)
          = Z.of_nat dc) as -> by lia.
  by rewrite <- Nat2Z.inj_add, !Nat2Z.id.
Qed.

Section Move.

Context {A : Type}.
Variables (l : list A) (old new : nat) (x : A).
Hypothesis Hold : l !! old = Some x.
Hypothesis Hnew : (new < length l)%nat.

Lemma old_lt : (old < length l)%nat.
Proof. by eapply lookup_lt_Some. Qed.

Lemma length_delete_old : length (delete old l) = (length l - 1)%nat.
Proof. clear Hnew. rewrite length_delete; [lia|]. by eexists. Qed.

(** Taking the item out at [old] and putting it back in at [new]. *)
Lemma moveItem_spec :
  moveItem (Z.of_nat old) (Z.of_nat new) l
  = Some (take new (delete old l) ++ x :: drop new (delete old l)).
Proof.
  pose proof old_lt as Hlt. pose proof length_delete_old as HL.
  unfold moveItem. change 1 with (Z.of_nat 1).
  rewrite splice_in_range by lia.
  rewrite (drop_S l x old Hold). cbn [take app].
  replace (old + 1)%nat with (S old) by lia. rewrite <- delete_take_drop.
  change 0 with (Z.of_nat 0). rewrite splice_in_range by lia.
  cbn [snd app]. by rewrite Nat.add_0_r.
Qed.

Local Abbreviation moved := (take new (delete old l) ++ x :: drop new (delete old l)).

Lemma moved_perm : moved ≡ₚ l.
Proof.
  rewrite <- Permutation_middle, take_drop.
  symmetry. by apply delete_Permutation.
Qed.

Lemma moved_lookup : moved !! new = Some x.
Proof.
  pose proof old_lt as Hlt. pose proof length_delete_old as HL.
  rewrite lookup_app_r; rewrite length_take, HL; [|lia].
  by replace (new - new `min` (length l - 1))%nat with 0%nat by lia.
Qed.

Lemma moved_others : delete new moved = delete old l.
Proof.
  pose proof old_lt as Hlt. pose proof length_delete_old as HL.
  rewrite delete_take_drop.
  rewrite take_app_le by (rewrite length_take; lia).
  rewrite take_take, Nat.min_id.
  replace (S new) with (length (take new (delete old l)) + 1)%nat
    by (rewrite length_take; lia).
  rewrite drop_app_add. cbn [drop]. by rewrite drop_0, take_drop.
Qed.

End Move.

(** X10: dragging the tile at position [old] to position [new] (both
    inside the list) reorders [state.images] only: the list is a permutation
    of the old one of the same length, the dragged image is at [new], the
    other images keep their relative order, and the store is untouched, so
    the next refresh from the store (an import, a deletion, a replacement)
    forgets the new order. *)
Theorem X10_drag_reorders_memory_only (a : App) (old new : nat) (x : Img) :
  images (world a) !! old = Some x ->
  (new < length (images (world a)))%nat ->
  exists a',
    act (Drag (Z.of_nat old) (Z.of_nat new)) a = Some a'
    /\ images (world a') ≡ₚ images (world a)
    /\ length (images (world a')) = length (images (world a))
    /\ images (world a') !! new = Some x
    /\ delete new (images (world a')) = delete old (images (world a))
    /\ db (world a') = db (world a)
    /\ with_world refreshImagesFromDB a' = with_world refreshImagesFromDB a
    /\ (app_ok a -> app_ok a').
Proof.
  intros Hold Hnew. cbn [act]. unfold onEnd.
  rewrite (moveItem_spec _ old new x Hold Hnew). eexists. split; [reflexivity|].
  pose proof (moved_perm _ old new x Hold) as HP.
  cbn [world with_world images set_images db].
  split; [exact HP|]. split; [by rewrite HP|].
  split; [by apply moved_lookup|]. split; [by apply moved_others|].
  split; [done|]. split; [done|].
  intros [[Hp Hs] Hk]. repeat split; try done. cbn. by rewrite HP.
Qed.

Lemma X10_drag_reorders_memory_only_witness :
  let a := handleFiles [Demo.file "a"; Demo.file "b"; Demo.file "c"] Demo.page in
  exists a',
    act (Drag 0 2) a = Some a'
    /\ map img_name (images (world a')) = ["b"; "c"; "a"]
    /\ map img_name (images (world (with_world refreshImagesFromDB a')))
       = ["a"; "b"; "c"].
Proof.
  cbv zeta.
  destruct (X10_drag_reorders_memory_only
              (handleFiles [Demo.file "a"; Demo.file "b"; Demo.file "c"] Demo.page)
              0 2 (imported 1 0 (Demo.file "a")))
    as (a' & E & _ & _ & _ & _ & _ & R & _); [done | cbn; lia |].
  exists a'. split; [exact E|].
  rewrite R. vm_compute in E. injection E as <-. by vm_compute.
Defined.

(** ** Deleting and replacing an image *)

Lemma NoDup_fmap_eq {A B} (f : A -> B) (l : list A) (x y : A) :
  NoDup (map f l) -> x ∈ l -> y ∈ l -> f x = f y -> x = y.
Proof.
  induction l as [|z l IH]; cbn [map]; intros Hnd Hx Hy E.
  { by apply elem_of_nil in Hx. }
  apply NoDup_cons in Hnd as [Hz Hnd].
  apply elem_of_cons in Hx as [->|Hx]; apply elem_of_cons in Hy as [->|Hy].
  - done.
  - exfalso. apply Hz. rewrite E. by apply list_elem_of_fmap_2.
  - exfalso. apply Hz. rewrite <- E. by apply list_elem_of_fmap_2.
  - by apply IH.
Qed.

Lemma filter_one_out {A} (f : A -> Z) (l : list A) (x : A) :
  NoDup (map f l) -> x ∈ l ->
  length (filter (fun y => f y <> f x) l) = (length l - 1)%nat.
Proof.
  induction l as [|z l IH]; cbn [map]; intros Hnd Hx.
  { by apply elem_of_nil in Hx. }
  apply NoDup_cons in Hnd as [Hz Hnd].
  destruct (decide (f z = f x)) as [E|E].
  - rewrite filter_cons_False by (intros H; by apply H).
    rewrite filter_all; [cbn [length]; lia|].
    intros y Hy Ey. apply Hz. rewrite E, <- Ey. by apply list_elem_of_fmap_2.
  - rewrite filter_cons_True by done. cbn [length].
    apply elem_of_cons in Hx as [->|Hx]; [done|].
    rewrite IH by done. destruct l; [by apply elem_of_nil in Hx|]. cbn [length]. lia.
Qed.

Lemma at_index_nat {A} (l : list A) (p : nat) : at_index l (Z.of_nat p) = l !! p.
Proof.
  unfold at_index. case (Z.ltb_spec (Z.of_nat p) 0); [lia|intros _].
  by rewrite Nat2Z.id.
Qed.

Lemma renderGrid_lookup (imgs : list Img) (p : nat) (img : Img) :
  imgs !! p = Some img ->
  renderGrid imgs !! p = Some {| tile_img := img; tile_index := Z.of_nat p |}.
Proof. intros H. unfold renderGrid. by rewrite list_lookup_imap, H. Qed.

Section DeleteOne.

Variables (a : App) (img : Img).
Hypothesis Hok : app_ok a.
Hypothesis Himg : img ∈ images (world a).

Local Abbreviation kept := (filter (fun r => rec_id r <> img_id img) (db (world a))).

Lemma img_record : exists r, r ∈ db (world a) /\ toImg r = img.
Proof.
  destruct Hok as [[Hp _] _]. rewrite Hp in Himg.
  apply list_elem_of_fmap in Himg as (r & -> & Hr). by exists r.
Qed.

Lemma kept_without : img ∉ map toImg kept.
Proof.
  intros H. apply list_elem_of_fmap in H as (r & -> & Hr).
  apply list_elem_of_filter in Hr as [Hr _]. by apply Hr.
Qed.

Lemma kept_others x : x ∈ images (world a) -> x <> img -> x ∈ map toImg kept.
Proof.
  intros Hx Hne. pose proof (store_ids_NoDup (world a) (proj1 Hok)) as Hnd.
  destruct Hok as [[Hp _] _]. rewrite Hp in Hx.
  apply list_elem_of_fmap in Hx as (r & -> & Hr).
  apply list_elem_of_fmap_2, list_elem_of_filter. split; [|done].
  intros E. apply Hne.
  apply (NoDup_fmap_eq img_id (images (world a))); try done.
  rewrite Hp. by apply list_elem_of_fmap_2.
Qed.

Lemma kept_subset x : x ∈ map toImg kept -> x ∈ images (world a).
Proof.
  intros Hx. destruct Hok as [[Hp _] _]. rewrite Hp.
  apply list_elem_of_fmap in Hx as (r & -> & Hr).
  apply list_elem_of_filter in Hr as [_ Hr]. by apply list_elem_of_fmap_2.
Qed.

Lemma kept_length : length kept = (length (images (world a)) - 1)%nat.
Proof.
  destruct img_record as (r & Hr & E).
  destruct Hok as [[Hp Hs] _]. rewrite Hp, length_map, <- E.
  apply (filter_one_out rec_id); [|done]. by apply StronglySorted_lt_NoDup.
Qed.

End DeleteOne.

(** X11: on a grid as rendered (no tile dragged since), releasing the
    mouse on the tile at position [p] and choosing delete removes exactly the
    image shown there: its record leaves the store, the list is reloaded from
    the store in key order, every other image stays, and the list is one
    shorter.  Without a target ([targetIndex] below 0) nothing happens; a
    target past the end of the list raises an exception before anything is
    changed. *)
Theorem X11_delete_clicked_tile (a : App) (p : nat) (img : Img) :
  app_ok a -> images (world a) !! p = Some img ->
  (exists a',
     triggerDelete (clickTile (renderGrid (images (world a))) p a) = Some a'
     /\ db (world a') = filter (fun r => rec_id r <> img_id img) (db (world a))
     /\ images (world a') = map toImg (db (world a'))
     /\ (img ∉ images (world a'))
     /\ (forall x, x ∈ images (world a) -> x <> img -> x ∈ images (world a'))
     /\ (forall x, x ∈ images (world a') -> x ∈ images (world a))
     /\ length (images (world a')) = (length (images (world a)) - 1)%nat
     /\ app_ok a')
  /\ (forall a0, targetIndex a0 < 0 -> triggerDelete a0 = Some a0)
  /\ (forall a0, Z.of_nat (length (images (world a0))) <= targetIndex a0 ->
                 triggerDelete a0 = None).
Proof.
  intros Hok Hp. split; [|split].
  - assert (img ∈ images (world a)) as Himg by by eapply list_elem_of_lookup_2.
    unfold clickTile. rewrite (renderGrid_lookup _ _ _ Hp).
    unfold triggerDelete, openImageActions. cbn [targetIndex world tile_index].
    case (Z.ltb_spec (-1) (Z.of_nat p)); [intros _|lia].
    rewrite at_index_nat, Hp. eexists. split; [reflexivity|].
    cbn [with_world world db images deleteAndRefresh refreshImagesFromDB set_db
         set_images DB_getAll keygen]. unfold DB_delete.
    split; [done|]. split; [done|].
    split; [by apply kept_without|]. split; [by apply kept_others|].
    split; [by apply kept_subset|]. split; [rewrite length_map; apply kept_length; done|].
    by apply (app_ok_filter (fun r => rec_id r <> img_id img)
                {| world := world a; keygen := keygen a; targetIndex := Z.of_nat p |}).
  - intros a0 H. unfold triggerDelete.
    by case (Z.ltb_spec (-1) (targetIndex a0)); [lia|].
  - intros a0 H. unfold triggerDelete, at_index.
    case (Z.ltb_spec (-1) (targetIndex a0)); [intros _|lia].
    case (Z.ltb_spec (targetIndex a0) 0); [lia|intros _].
    rewrite lookup_ge_None_2; [done|lia].
Qed.

Lemma X11_delete_clicked_tile_witness :
  let a := handleFiles [Demo.file "a"; Demo.file "b"; Demo.file "c"] Demo.page in
  exists a',
    triggerDelete (clickTile (renderGrid (images (world a))) 1 a) = Some a'
    /\ map img_name (images (world a')) = ["a"; "c"].
Proof.
  cbv zeta.
  destruct (X11_delete_clicked_tile
              (handleFiles [Demo.file "a"; Demo.file "b"; Demo.file "c"] Demo.page)
              1 (imported 1 1 (Demo.file "b")))
    as [(a' & E & _) _].
  - apply app_ok_import. repeat split; cbn; constructor.
  - done.
  - exists a'. split; [exact E|]. vm_compute in E. injection E as <-. by vm_compute.
Defined.

(** X12: the tiles keep the index they were rendered with.  After a tile
    has been dragged from position [old] to a later position [new], releasing
    the mouse on that very tile still targets index [old], where the list
    now holds its former right neighbour: choosing delete removes the
    neighbour and keeps the image of the tile that was clicked. *)
Theorem X12_delete_after_drag (a : App) (old new : nat) (x y : Img) :
  app_ok a ->
  images (world a) !! old = Some x -> images (world a) !! S old = Some y ->
  (old < new < length (images (world a)))%nat ->
  exists a1 tiles a2,
    act (Drag (Z.of_nat old) (Z.of_nat new)) a = Some a1
    /\ dragTile (Z.of_nat old) (Z.of_nat new) (renderGrid (images (world a)))
       = Some tiles
    /\ tile_img <$> tiles !! new = Some x
    /\ triggerDelete (clickTile tiles new a1) = Some a2
    /\ x ∈ images (world a2)
    /\ (y ∉ images (world a2))
    /\ length (images (world a2)) = (length (images (world a)) - 1)%nat.
Proof.
  intros Hok Hx Hy Hnew.
  set (imgs := images (world a)) in *.
  pose proof (renderGrid_lookup imgs old x Hx) as Ht.
  assert (new < length (renderGrid imgs))%nat as Hnt
    by (unfold renderGrid; rewrite length_imap; lia).
  set (a1 := with_world
               (set_images (take new (delete old imgs) ++ x :: drop new (delete old imgs)))
               a).
  exists a1. eexists. 
  assert (app_ok a1) as Hok1.
  { destruct Hok as [[Hp Hs] Hk]. repeat split; try done. cbn.
    by rewrite (moved_perm imgs old new x Hx). }
  assert (images (world a1) !! old = Some y) as Hy1.
  { subst a1. cbn [with_world world images set_images].
    rewrite lookup_app_l by (rewrite length_take, (length_delete_old imgs old x Hx); lia).
    rewrite lookup_take_lt by lia. by rewrite list_lookup_delete_ge by lia. }
  assert (y ∈ images (world a1)) as Hy1' by by eapply list_elem_of_lookup_2.
  assert (x ∈ images (world a1)) as Hx1.
  { subst a1. cbn [with_world world images set_images].
    rewrite (moved_perm imgs old new x Hx). by eapply list_elem_of_lookup_2. }
  assert (x <> y) as Hne.
  { intros ->. pose proof (store_ids_NoDup (world a) (proj1 Hok)) as Hnd.
    apply NoDup_fmap_1 in Hnd. fold imgs in Hnd.
    pose proof (NoDup_lookup _ _ _ _ Hnd Hx Hy). lia. }
  eexists. split.
  { cbn [act]. unfold onEnd. fold imgs. by rewrite (moveItem_spec imgs old new x Hx) by lia. }
  split.
  { unfold dragTile. by rewrite (moveItem_spec (renderGrid imgs) old new _ Ht Hnt). }
  split.
  { by rewrite (moved_lookup (renderGrid imgs) old new _ Ht Hnt). }
  unfold clickTile. rewrite (moved_lookup (renderGrid imgs) old new _ Ht Hnt).
  unfold triggerDelete, openImageActions. cbn [targetIndex world tile_index].
  case (Z.ltb_spec (-1) (Z.of_nat old)); [intros _|lia].
  rewrite at_index_nat, Hy1. split; [reflexivity|].
  cbn [with_world world db images deleteAndRefresh refreshImagesFromDB set_db
       set_images DB_getAll keygen]. unfold DB_delete.
  split; [by apply (kept_others a1 y Hok1)|].
  split; [by apply (kept_without a1 y)|].
  rewrite length_map.
  change (db (world a)) with (db (world a1)).
  rewrite (kept_length a1 y Hok1 Hy1'). subst a1.
  cbn [with_world world images set_images].
  by rewrite (moved_perm imgs old new x Hx).
Qed.

Lemma X12_delete_after_drag_witness :
  let a := handleFiles [Demo.file "a"; Demo.file "b"; Demo.file "c"] Demo.page in
  exists a1 tiles a2,
    act (Drag 0 2) a = Some a1
    /\ dragTile 0 2 (renderGrid (images (world a))) = Some tiles
    /\ img_name <$> (tile_img <$> tiles !! 2%nat) = Some "a"
    /\ triggerDelete (clickTile tiles 2 a1) = Some a2
    /\ "a" ∈ map img_name (images (world a2))
    /\ "b" ∉ map img_name (images (world a2)).
Proof.
  cbv zeta.
  destruct (X12_delete_after_drag
              (handleFiles [Demo.file "a"; Demo.file "b"; Demo.file "c"] Demo.page)
              0 2 (imported 1 0 (Demo.file "a")) (imported 1 1 (Demo.file "b")))
    as (a1 & tiles & a2 & E1 & E2 & T & E3 & _).
  - apply app_ok_import. repeat split; cbn; constructor.
  - done.
  - done.
  - cbn. lia.
  - exists a1, tiles, a2. split; [exact E1|]. split; [exact E2|].
    split; [by rewrite T|]. split; [exact E3|].
    vm_compute in E1. injection E1 as <-.
    vm_compute in E2. injection E2 as <-.
    vm_compute in E3. injection E3 as <-.
    split; apply (bool_decide_unpack _); by vm_compute.
Defined.

(** X13: replacing the image of the tile at position [p] (grid as
    rendered) by a chosen file deletes the old record and stores the first
    file under a fresh key: the old image is gone, the new one stands at the
    last position of the list and nowhere else, so it stands at position [p]
    only when the tile replaced was the last one; the other images stay, and
    the length of the list is unchanged.  Without a file or without a
    target nothing happens. *)
Theorem X13_replace_moves_to_end (a : App) (p : nat) (img : Img)
    (file : File) (rest : list File) :
  app_ok a -> images (world a) !! p = Some img ->
  (exists a',
     handleReplaceAction (file :: rest)
       (clickTile (renderGrid (images (world a))) p a) = Some a'
     /\ images (world a')
        = map toImg (filter (fun r => rec_id r <> img_id img) (db (world a)))
          ++ [imported (keygen a) 0 file]
     /\ db (world a')
        = filter (fun r => rec_id r <> img_id img) (db (world a))
          ++ [stored (keygen a) 0 file]
     /\ (img ∉ images (world a'))
     /\ (forall x, x ∈ images (world a) -> x <> img -> x ∈ images (world a'))
     /\ length (images (world a')) = length (images (world a))
     /\ (forall q,
           images (world a') !! q = Some (imported (keygen a) 0 file)
           <-> q = (length (images (world a)) - 1)%nat)
     /\ (images (world a') !! p = Some (imported (keygen a) 0 file)
         <-> S p = length (images (world a)))
     /\ keygen a' = keygen a + 1
     /\ app_ok a')
  /\ (forall a0, handleReplaceAction [] a0 = Some a0)
  /\ (forall a0 files, targetIndex a0 < 0 -> handleReplaceAction files a0 = Some a0).
Proof.
  intros Hok Hp. split; [|split].
  - assert (img ∈ images (world a)) as Himg by by eapply list_elem_of_lookup_2.
    unfold clickTile. rewrite (renderGrid_lookup _ _ _ Hp).
    unfold handleReplaceAction, openImageActions. cbn [targetIndex world tile_index].
    case (Z.ltb_spec (-1) (Z.of_nat p)); [intros _|lia].
    rewrite at_index_nat, Hp. cbv zeta. eexists. split; [reflexivity|].
    set (mid := with_world (fun w => set_db _ w) _).
    assert (db (world mid) = filter (fun r => rec_id r <> img_id img) (db (world a)))
      as Hmid by done.
    assert (keygen mid = keygen a) as Hkm by done.
    destruct (DB_addImages_spec [file] mid) as (D & K & _ & _).
    rewrite Hmid, Hkm in D. rewrite Hkm in K. cbn [imap length] in D, K.
    cbn [with_world world images keygen refreshImagesFromDB set_images db].
    unfold DB_getAll. rewrite D, K, map_app. cbn [map].
    pose proof (kept_length a img Hok Himg) as HL.
    assert (1 <= length (images (world a)))%nat as Hpos.
    { destruct (images (world a)); [by apply elem_of_nil in Himg|cbn; lia]. }
    assert (forall q,
              (map toImg (filter (fun r => rec_id r <> img_id img) (db (world a)))
               ++ [imported (keygen a) 0 file]) !! q
              = Some (imported (keygen a) 0 file)
              <-> q = (length (images (world a)) - 1)%nat) as Hlast.
    { intros q. split.
      - intros Hq. apply lookup_app_Some in Hq as [Hq|[Hq1 Hq2]].
        + exfalso. apply list_elem_of_lookup_2, list_elem_of_fmap in Hq as (r & E & Hr).
          apply list_elem_of_filter in Hr as [_ Hr].
          destruct Hok as [_ Hk]. rewrite Forall_forall in Hk. specialize (Hk r Hr).
          apply (f_equal img_id) in E. cbn in E. lia.
        + rewrite length_map, HL in Hq1, Hq2.
          apply lookup_lt_Some in Hq2. cbn [length] in Hq2. lia.
      - intros ->. rewrite lookup_app_r by (rewrite length_map, HL; lia).
        by rewrite length_map, HL, Nat.sub_diag. }
    split; [done|]. split; [done|].
    split; [|split; [|split; [|split; [|split; [|split]]]]].
    + intros H. apply elem_of_app in H as [H|H].
      * by apply (kept_without a img Himg).
      * apply list_elem_of_singleton in H. destruct (img_record a img Hok Himg) as (r & Hr & <-).
        destruct Hok as [_ Hk]. rewrite Forall_forall in Hk. specialize (Hk r Hr).
        apply (f_equal img_id) in H. cbn in H. lia.
    + intros x Hx Hne. apply elem_of_app. left. by apply kept_others.
    + rewrite length_app, length_map, HL. cbn [length]. lia.
    + exact Hlast.
    + rewrite Hlast. apply lookup_lt_Some in Hp. lia.
    + done.
    + destruct Hok as [[_ Hs] Hk]. apply (import_sorted [file] mid).
      * rewrite Hmid. by apply StronglySorted_filter.
      * rewrite Hmid, Hkm. rewrite Forall_forall in Hk. rewrite Forall_forall.
        intros r Hr. apply list_elem_of_filter in Hr as [_ Hr]. by apply Hk.
  - done.
  - intros a0 files H. unfold handleReplaceAction. destruct files; [done|].
    by case (Z.ltb_spec (-1) (targetIndex a0)); [lia|].
Qed.

Lemma X13_replace_moves_to_end_witness :
  let a := handleFiles [Demo.file "a"; Demo.file "b"; Demo.file "c"] Demo.page in
  exists a',
    handleReplaceAction [Demo.file "z"]
      (clickTile (renderGrid (images (world a))) 0 a) = Some a'
    /\ map img_name (images (world a')) = ["b"; "c"; "z"].
Proof.
  cbv zeta.
  destruct (X13_replace_moves_to_end
              (handleFiles [Demo.file "a"; Demo.file "b"; Demo.file "c"] Demo.page)
              0 (imported 1 0 (Demo.file "a")) (Demo.file "z") [])
    as [(a' & E & I & _) _].
  - apply app_ok_import. repeat split; cbn; constructor.
  - done.
  - exists a'. split; [exact E|]. rewrite I. by vm_compute.
Defined.

(** ** Clearing *)

(** X14: [clearAll] does nothing unless it is confirmed; confirmed, it
    empties the store and the list but leaves the key generator where it
    is, so images imported afterwards never get the id of an image that was
    shown before. *)
Theorem X14_clear_keeps_ids_fresh (a : App) (files : list File) :
  app_ok a ->
  clearAll false a = a
  /\ images (world (clearAll true a)) = []
  /\ db (world (clearAll true a)) = []
  /\ keygen (clearAll true a) = keygen a
  /\ app_ok (clearAll true a)
  /\ (files <> [] ->
      let a' := handleFiles files (clearAll true a) in
      images (world a') = imap (imported (keygen a)) files
      /\ forall old new, old ∈ images (world a) -> new ∈ images (world a') ->
           img_id old < img_id new).
Proof.
  intros Hok. split; [done|]. split; [done|]. split; [done|]. split; [done|].
  split; [by repeat split; cbn; constructor|].
  intros Hne. cbv zeta.
  assert (handleFiles files (clearAll true a)
          = with_world refreshImagesFromDB (DB_addImages files (clearAll true a)))
    as -> by (by destruct files).
  destruct (DB_addImages_spec files (clearAll true a)) as (D & _).
  assert (images (world (with_world refreshImagesFromDB
                           (DB_addImages files (clearAll true a))))
          = imap (imported (keygen a)) files) as HI.
  { cbn [with_world world images refreshImagesFromDB set_images].
    unfold DB_getAll. rewrite D.
    cbn [clearAll DB_clear with_world world db set_db keygen
         refreshImagesFromDB set_images app].
    change (map toImg) with (fmap (M:=list) toImg). by rewrite fmap_imap. }
  split; [exact HI|]. intros old new Hold Hnew. rewrite HI in Hnew.
  apply elem_of_lookup_imap_1 in Hnew as (i & f & -> & _).
  destruct (img_record a old Hok Hold) as (r & Hr & <-).
  destruct Hok as [_ Hk]. rewrite Forall_forall in Hk. specialize (Hk r Hr).
  cbn. lia.
Qed.

Lemma X14_clear_keeps_ids_fresh_witness :
  let a := handleFiles [Demo.file "a"; Demo.file "b"] Demo.page in
  map img_id (images (world (handleFiles [Demo.file "c"] (clearAll true a)))) = [3].
Proof.
  cbv zeta.
  destruct (X14_clear_keeps_ids_fresh
              (handleFiles [Demo.file "a"; Demo.file "b"] Demo.page) [Demo.file "c"])
    as (_ & _ & _ & _ & _ & H).
  - apply app_ok_import. repeat split; cbn; constructor.
  - destruct H as [H _]; [done|]. rewrite H. by vm_compute.
Defined.

(** ** The list always shows the store *)

Lemma generate_keeps_list env inp w :
  images (generate env inp w) = images w /\ db (generate env inp w) = db w.
Proof.
  unfold generate. destruct (images w) eqn:E.
  { rewrite generate_run_empty by done. by cbn. }
  rewrite generate_run_nonempty by congruence. cbv zeta.
  pose proof (groupLoop_any env inp (colsOf inp) (gapOf inp) (qValOf inp)
                (batchSizeOf inp) (totalBatchesOf inp (images w))
                (Z.to_nat (totalBatchesOf inp (images w))) 0 (beginRun w))
    as (k & tail & _ & _ & _ & _ & I & _ & D & _).
  cbv zeta in *. rewrite <- E.
  destruct (groupLoop _ _ _ _ _ _ _ _ _ _) as [c w']. cbn [fst snd final] in *.
  by destruct (endRun_fields c w') as (_ & -> & -> & _).
Qed.

Lemma rel_index_range (len k : Z) : 0 <= len -> 0 <= rel_index len k <= len.
Proof. intros H. unfold rel_index. case (Z.ltb_spec k 0); lia. Qed.

(** Whatever its arguments, [splice] only moves elements around. *)
Lemma splice_perm {A} (l : list A) (start deleteCount : Z) (items : list A) :
  snd (splice l start deleteCount items) ++ fst (splice l start deleteCount items)
  ≡ₚ l ++ items.
Proof.
  unfold splice. cbn [fst snd].
  pose proof (rel_index_range (Z.of_nat (length l)) start ltac:(lia)) as Hr.
  set (r := rel_index (Z.of_nat (length l)) start) in *.
  set (dc := Z.min (Z.max deleteCount 0) (Z.of_nat (length l) - r)).
  replace (Z.to_nat (r + dc)) with (Z.to_nat r + Z.to_nat dc)%nat by lia.
  rewrite <- drop_drop.
  rewrite <- (take_drop (Z.to_nat r) l) at 4.
  rewrite <- (take_drop (Z.to_nat dc) (drop (Z.to_nat r) l)) at 3.
  generalize (take (Z.to_nat r) l) (take (Z.to_nat dc) (drop (Z.to_nat r) l))
    (drop (Z.to_nat dc) (drop (Z.to_nat r) l)).
  intros l1 l2 l3. rewrite <- !app_assoc. f_equiv.
  rewrite (Permutation_app_comm items (l3 ++ l2)), (Permutation_app_comm l3 l2).
  by rewrite <- app_assoc.
Qed.

Lemma moveItem_perm {A} (l l' : list A) (oldIndex newIndex : Z) :
  moveItem oldIndex newIndex l = Some l' -> l' ≡ₚ l.
Proof.
  unfold moveItem. pose proof (splice_perm l oldIndex 1 []) as H1.
  assert (length (fst (splice l oldIndex 1 [])) <= 1)%nat as Hlen.
  { unfold splice. cbn [fst]. rewrite length_take. lia. }
  destruct (splice l oldIndex 1 []) as [removed rest]. cbn [fst snd] in *.
  destruct removed as [|item removed]; [done|].
  destruct removed; [|cbn in Hlen; lia]. intros [= <-].
  pose proof (splice_perm rest newIndex 0 [item]) as H2.
  assert (fst (splice rest newIndex 0 [item]) = []) as E.
  { unfold splice. cbn [fst].
    pose proof (rel_index_range (Z.of_nat (length rest)) newIndex ltac:(lia)).
    replace (Z.to_nat _) with 0%nat at 1 by lia. done. }
  rewrite E, !app_nil_r in *. by rewrite H2, H1.
Qed.

Lemma act_ok (x : Action) (a a' : App) :
  app_ok a -> act x a = Some a' -> app_ok a'.
Proof.
  intros Hok. destruct x as [files|old new|index| |files|confirmed| |env inp|];
    cbn [act].
  - intros [= <-]. destruct files; [done|]. by apply app_ok_import.
  - destruct (onEnd old new (images (world a))) as [imgs|] eqn:E; [|done].
    intros [= <-]. destruct Hok as [[Hp Hs] Hk]. repeat split; try done.
    cbn [with_world world images set_images db]. rewrite <- Hp.
    by eapply moveItem_perm.
  - by intros [= <-].
  - unfold triggerDelete. destruct (-1 <? targetIndex a); [|by intros [= <-]].
    destruct (at_index _ _) as [img|]; [|done]. intros [= <-].
    by apply (app_ok_filter (fun r => rec_id r <> img_id img)).
  - unfold handleReplaceAction. destruct files as [|file files]; [by intros [= <-]|].
    destruct (-1 <? targetIndex a); [|by intros [= <-]].
    destruct (at_index _ _) as [img|]; [|done]. cbv zeta. intros [= <-].
    destruct Hok as [[_ Hs] Hk]. apply (import_sorted [file]).
    + by apply StronglySorted_filter.
    + cbn. rewrite Forall_forall in Hk. rewrite Forall_forall.
      intros r Hr. apply list_elem_of_filter in Hr as [_ Hr]. by apply Hk.
  - intros [= <-]. destruct confirmed; [|done].
    by repeat split; cbn; constructor.
  - intros [= <-]. destruct Hok as [[Hp Hs] Hk]. split; [split|].
    + cbn [with_world world]. by rewrite removeDuplicates_images.
    + cbn [with_world world]. rewrite removeDuplicates_db.
      by apply StronglySorted_filter.
    + cbn [with_world world keygen]. rewrite removeDuplicates_db.
      rewrite Forall_forall in Hk. rewrite Forall_forall.
      intros r Hr. apply list_elem_of_filter in Hr as [_ Hr]. by apply Hk.
  - intros [= <-]. destruct (generate_keeps_list env inp (world a)) as [I D].
    destruct Hok as [[Hp Hs] Hk]. unfold app_ok, store_consistent.
    cbn [with_world world keygen]. by rewrite I, D.
  - by intros [= <-].
Qed.

(** X15: in every state the page reaches from an empty database by
    imports, drags, clicks, deletions, replacements, clearing, removal of
    duplicates, runs of the generator and cancel requests, the image list is
    a reordering of the records of the store; the ids shown are pairwise
    distinct, and every key ever handed out is below the key generator. *)
Theorem X15_list_shows_store (w : World) (xs : list Action) (a : App) :
  acts xs (freshApp w) = Some a ->
  app_ok a
  /\ store_consistent (world a)
  /\ NoDup (map img_id (images (world a)))
  /\ length (images (world a)) = length (db (world a)).
Proof.
  assert (forall xs a0 a1, app_ok a0 -> acts xs a0 = Some a1 -> app_ok a1) as Hall.
  { clear. induction xs as [|x xs IH]; intros a0 a1 Hok; cbn [acts].
    - by intros [= <-].
    - destruct (act x a0) as [a'|] eqn:E; [|done].
      apply IH. by eapply act_ok. }
  intros H. assert (app_ok a) as Hok.
  { eapply Hall; [|exact H]. by repeat split; cbn; constructor. }
  split; [done|]. split; [apply Hok|]. split.
  - apply store_ids_NoDup, Hok.
  - destruct Hok as [[Hp _] _]. by rewrite Hp, length_map.
Qed.

Lemma X15_list_shows_store_witness :
  match acts [Import [Demo.file "a"; Demo.file "a"; Demo.file "b"]; Drag 0 2;
              OpenSheet 1; Delete; Dedup; Import [Demo.file "d"]; OpenSheet 0;
              Replace [Demo.file "c"]] Demo.page with
  | Some a => store_consistent (world a) /\ map img_name (images (world a)) = ["d"; "c"]
  | None => False
  end.
Proof.
  destruct (acts _ Demo.page) as [a|] eqn:E.
  - split; [by eapply (X15_list_shows_store (Sample.gallery [] [])), E|].
    vm_compute in E. injection E as <-. by vm_compute.
  - vm_compute in E. discriminate.
Defined.

(** ** Downloads *)

Lemma imap_seqZ {B C} (f : nat -> B -> C) (g : Z -> B) (n : Z) :
  imap f (map g (seqZ 0 n)) = map (fun b => f (Z.to_nat b) (g b)) (seqZ 0 n).
Proof.
  apply list_eq. intros i.
  rewrite list_lookup_imap.
  change (map g) with (fmap (M:=list) g).
  change (map (fun b => f (Z.to_nat b) (g b)))
    with (fmap (M:=list) (fun b => f (Z.to_nat b) (g b))).
  rewrite !list_lookup_fmap.
  destruct (seqZ 0 n !! i) as [b|] eqn:E; [|done].
  apply lookup_seqZ in E as [-> _]. cbn. by rewrite Z.add_0_l, Nat2Z.id.
Qed.

Lemma omap_imap_Some {B C} (F : nat -> B -> C) (l : list B) :
  omap (fun x => x)
    (imap (fun i ob => match ob with Some b => Some (F i b) | None => None end)
          (map Some l))
  = imap F l.
Proof.
  revert F. induction l as [|b l IH]; intros F; [done|].
  cbn [map]. rewrite !imap_cons. cbn [omap list_omap]. f_equal. apply (IH (F ∘ S)).
Qed.

Lemma encode_type (qVal : Z) (c : Canvas) :
  includes (blob_type (encode qVal c)) "png" = (qVal =? 100).
Proof. unfold encode. cbn [blob_type]. by destruct (qVal =? 100). Qed.

Lemma confirmDownload_some type confirmed qNumber w :
  generatedBlobs w <> [] ->
  confirmDownload type confirmed qNumber w
  = match type with
    | DlZip => ZipArchive (zipEntries qNumber (generatedBlobs w))
    | DlParts =>
        if negb confirmed then Declined
        else PartFiles (partFiles (generatedBlobs w))
    | DlOther => NoDownload
    end.
Proof. unfold confirmDownload. by destruct (generatedBlobs w). Qed.

(** X16: after a run that went through, downloading page by page starts
    one download per page, numbered from 1 in page order and 1500 ms apart,
    each named [png] or [jpg] after the type of its own blob, that is after
    [parseInt(value) || 50] being 100 when the run read the quality control.
    The archive holds the same pages under the same numbers, but all its
    names take their extension from [value == 100] on the control as it
    stands when the archive is requested.  The two extensions are the same
    exactly when the two tests have the same outcome; they have when the
    control holds at both times a string that [parseInt] and [Number] read
    as the same integer, or that neither reads as a number.  Declining the
    confirmation downloads nothing. *)
Theorem X16_download_names env inp (qNow : option Q) w :
  1 <= colsOf inp -> 1 <= rowsOf inp -> images w <> [] ->
  never_cancelled env -> encodes_all env ->
  let w' := generate env inp w in
  let pages := seqZ 0 (totalBatchesOf inp (images w)) in
  let made := if qValOf inp =? 100 then "png" else "jpg" in
  let asked := if looseEq100 qNow then "png" else "jpg" in
  confirmDownload DlParts true qNow w'
  = PartFiles (map (fun b => (b * 1500, {| fn_number := b + 1; fn_ext := made |},
                              pageAt env inp w b)) pages)
  /\ confirmDownload DlZip true qNow w'
     = ZipArchive (map (fun b => ({| fn_number := b + 1; fn_ext := asked |},
                                  Some (pageAt env inp w b))) pages)
  /\ confirmDownload DlParts false qNow w' = Declined
  /\ (asked = made
      <-> ((exists x, qNow = Some x /\ (x == 100)%Q) <-> qValOf inp = 100))
  /\ (qNow = inject_Z <$> in_customQ_unified inp -> asked = made).
Proof.
  intros Hc Hr Hne Hq Hok. cbv zeta.
  destruct (generate_completed env inp w Hc Hr Hne Hq Hok) as (_ & _ & G & _).
  cbv zeta in G. unfold generate.
  pose proof (total_pos inp w Hc Hr Hne) as Ht.
  assert (generatedBlobs (final (generate_run env inp w)) <> []) as Hout.
  { rewrite G. intros E. apply (f_equal length) in E.
    rewrite length_map, length_seqZ in E. cbn in E. lia. }
  rewrite !confirmDownload_some by done. rewrite G. cbn [negb].
  assert (looseEq100 qNow = true <-> exists x, qNow = Some x /\ (x == 100)%Q) as HL.
  { unfold looseEq100. destruct qNow as [x|].
    - rewrite Qeq_bool_iff. split; [by exists x|]. by intros (? & [= <-] & ?).
    - split; [done|]. by intros (? & ? & ?). }
  assert ((if looseEq100 qNow then "png" else "jpg")
          = (if qValOf inp =? 100 then "png" else "jpg")
          <-> ((exists x, qNow = Some x /\ (x == 100)%Q) <-> qValOf inp = 100)) as HE.
  { rewrite <- HL. destruct (looseEq100 qNow);
      case (Z.eqb_spec (qValOf inp) 100); intros E.
    all: split;
      [ intros H; try discriminate H; split; intros; congruence
      | intros [H1 H2]; try reflexivity; exfalso ].
    - apply E. by apply H1.
    - by specialize (H2 E). }
  split; [|split; [|split; [done|split; [done|]]]].
  - f_equal. unfold partFiles.
    change (map (fun b => Some (pageAt env inp w b)))
      with (map (Some ∘ pageAt env inp w)).
    rewrite <- (map_map (pageAt env inp w) Some), omap_imap_Some, imap_seqZ.
    apply map_ext_in. intros b Hb. apply list_elem_of_In, elem_of_seqZ in Hb.
    rewrite Z2Nat.id by lia. unfold pageAt at 1, pageBlob. by rewrite encode_type.
  - f_equal. unfold zipEntries. rewrite imap_seqZ.
    apply map_ext_in. intros b Hb. apply list_elem_of_In, elem_of_seqZ in Hb.
    by rewrite Z2Nat.id by lia.
  - intros ->. apply HE. unfold qValOf, or_default.
    destruct (in_customQ_unified inp) as [z|]; cbn [fmap option_fmap option_map].
    + split.
      * intros (x & [= <-] & E). change 100%Q with (inject_Z 100) in E.
        rewrite inject_Z_injective in E. by subst z.
      * case (Z.eqb_spec z 0); [done|]. intros _ ->. by exists (inject_Z 100).
    + split; [by intros (? & ? & ?)|done].
Qed.

Lemma X16_download_names_witness :
  let w' := generate (Sample.env [] None) (Sample.inp (Some 2) (Some 1) None)
              (Sample.world 3 []) in
  exists b1 b2,
    confirmDownload DlParts true (Some 100%Q) w'
    = PartFiles [(0, {| fn_number := 1; fn_ext := "png" |}, b1);
                 (1500, {| fn_number := 2; fn_ext := "png" |}, b2)].
Proof.
  cbv zeta.
  destruct (X16_download_names (Sample.env [] None)
              (Sample.inp (Some 2) (Some 1) None)
              (Some 100%Q) (Sample.world 3 []))
    as (H & _); [by vm_compute | by vm_compute | by vm_compute | done | done |].
  rewrite H. 
  replace (totalBatchesOf (Sample.inp (Some 2) (Some 1) None)
             (images (Sample.world 3 []))) with 2 by (by vm_compute).
  by eexists _, _.
Defined.

(** A control holding [100.5] when the run starts and when the archive is
    requested: the pages are PNG blobs, the names in the archive end in
    [jpg]. *)
Example archive_names_differ :
  let inp := Sample.inp (Some 2) (Some 1) None in
  let w' := generate (Sample.env [] None) inp (Sample.world 3 []) in
  match confirmDownload DlParts true (Some (201 # 2)) w' with
  | PartFiles files => map (fun f => fn_ext (snd (fst f))) files
  | _ => []
  end = ["png"; "png"]
  /\ match confirmDownload DlZip true (Some (201 # 2)) w' with
     | ZipArchive entries => map (fun e => fn_ext (fst e)) entries
     | _ => []
     end = ["jpg"; "jpg"].
Proof. by vm_compute. Qed.

(** ** Settings *)

Lemma restore_truthy (saved : option string) (current : string) :
  truthy saved = true -> Some (restore saved current) = saved.
Proof.
  unfold truthy, restore. destruct saved as [v|]; [|done].
  by destruct (String.eqb v "").
Qed.

Lemma truthy_saved (v : string) : truthy (Some v) = true <-> v <> "".
Proof.
  unfold truthy. case (String.eqb_spec v ""); cbn; intuition congruence.
Qed.

Lemma restore_restored (v page : string) : restored v page (restore (Some v) page).
Proof. unfold restored, restore. by case (String.eqb_spec v ""). Qed.

Lemma toggle_restored (v page : string) (box : bool) :
  box_restored v box
    (if truthy (Some v) then String.eqb (restore (Some v) page) "custom" else box).
Proof.
  unfold box_restored, truthy, restore.
  case (String.eqb_spec v ""); cbn [negb]; [done|]. intros Hv. split; [|done].
  intros _. by case (String.eqb_spec v "custom").
Qed.

(** X17: saving the controls [c] and loading on a page whose controls are
    [page] leaves in each of the twelve saved text and select controls the
    saved string when that is not empty and the string of the page when it
    is, sets both check marks to the saved ones, and shows each of the two
    custom boxes exactly when the saved choice of its select is [custom],
    leaving the box as it is when that choice is empty.  When no saved
    string is empty, saving again gives the same object.  The gap, the
    custom width and height and the overlay controls are never saved or
    restored, and without a stored object nothing changes. *)
Theorem X17_settings_round_trip (c page : Controls) :
  let c' := loadSettings (Some (saveSettings c)) page in
  loadSettings None page = page
  /\ (fully_set (saveSettings c) ->
      saveSettings c' = saveSettings c
      /\ c_customRatioBox c' = String.eqb (c_aspectRatio c) "custom"
      /\ c_customWeightBox c' = String.eqb (c_fontWeightSelect c) "custom")
  /\ c_showNum c' = c_showNum c /\ c_enableStroke c' = c_enableStroke c
  /\ (restored (c_cols c) (c_cols page) (c_cols c')
      /\ restored (c_group_rows c) (c_group_rows page) (c_group_rows c')
      /\ restored (c_aspectRatio c) (c_aspectRatio page) (c_aspectRatio c')
      /\ restored (c_customQ_unified c) (c_customQ_unified page)
           (c_customQ_unified c')
      /\ restored (c_startNumber c) (c_startNumber page) (c_startNumber c')
      /\ restored (c_fontFamily c) (c_fontFamily page) (c_fontFamily c')
      /\ restored (c_fontWeightSelect c) (c_fontWeightSelect page)
           (c_fontWeightSelect c')
      /\ restored (c_customWeightRange c) (c_customWeightRange page)
           (c_customWeightRange c')
      /\ restored (c_fontColor c) (c_fontColor page) (c_fontColor c')
      /\ restored (c_fontStrokeColor c) (c_fontStrokeColor page)
           (c_fontStrokeColor c')
      /\ restored (c_fontOpacity c) (c_fontOpacity page) (c_fontOpacity c')
      /\ restored (c_fontPos c) (c_fontPos page) (c_fontPos c'))
  /\ box_restored (c_aspectRatio c) (c_customRatioBox page) (c_customRatioBox c')
  /\ box_restored (c_fontWeightSelect c) (c_customWeightBox page)
       (c_customWeightBox c')
  /\ (forall stored,
        let c'' := loadSettings stored page in
        c_gap c'' = c_gap page /\ c_customW c'' = c_customW page
        /\ c_customH c'' = c_customH page
        /\ c_overlayOpacityRange c'' = c_overlayOpacityRange page
        /\ c_overlayMode c'' = c_overlayMode page).
Proof.
  cbv zeta.
  split; [done|]. split; [|split; [done|split; [done|split; [|split; [|split]]]]].
  - intros (H1 & H2 & H3 & H4 & H5 & H6 & H7 & H8 & H9 & H10 & H11 & H12).
    cbn [saveSettings s_cols s_group_rows s_aspectRatio s_quality s_startNumber
         s_fontFamily s_fontWeight s_customWeight s_fontColor s_fontStrokeColor
         s_fontOpacity s_fontPos] in *.
    unfold loadSettings, saveSettings.
    cbn [s_cols s_group_rows s_aspectRatio s_quality s_startNumber s_showNum
         s_enableStroke s_fontFamily s_fontWeight s_customWeight s_fontColor
         s_fontStrokeColor s_fontOpacity s_fontPos
         c_cols c_group_rows c_aspectRatio c_customQ_unified c_showNum
         c_startNumber c_fontFamily c_fontWeightSelect c_customWeightRange
         c_fontColor c_enableStroke c_fontStrokeColor c_fontOpacity c_fontPos
         c_customRatioBox c_customWeightBox].
    rewrite H3, H7. cbn [restoreCheck].
    rewrite !restore_truthy by done.
    assert (restore (Some (c_aspectRatio c)) (c_aspectRatio page) = c_aspectRatio c)
      as -> by (apply (inj Some); by apply restore_truthy).
    assert (restore (Some (c_fontWeightSelect c)) (c_fontWeightSelect page)
            = c_fontWeightSelect c)
      as -> by (apply (inj Some); by apply restore_truthy).
    done.
  - repeat split; apply restore_restored.
  - apply toggle_restored.
  - apply toggle_restored.
  - intros [s|]; by cbn.
Qed.

(** The demo controls, none of them empty, loaded on the page defaults:
    saving again gives the same object, and the gap is still the one of the
    page. *)
Lemma X17_settings_round_trip_witness :
  saveSettings (loadSettings (Some (saveSettings Demo.controls)) Demo.defaults)
  = saveSettings Demo.controls
  /\ c_gap (loadSettings (Some (saveSettings Demo.controls)) Demo.defaults) = "0".
Proof.
  destruct (X17_settings_round_trip Demo.controls Demo.defaults)
    as (_ & H & _ & _ & _ & _ & _ & G).
  destruct H as [H _]; [by vm_compute|].
  split; [exact H|]. by destruct (G (Some (saveSettings Demo.controls))) as [-> _].
Defined.

(** ** The service worker *)

Lemma sw_addAll_cons (net : SW.Network) (u : string) (us : list string) (c : SW.Cache) :
  SW.addAll net (u :: us) c
  = match net u with
    | Some r => SW.addAll net us (<[u := r]> c)
    | None => None
    end.
Proof.
  unfold SW.addAll. cbn [mapM]. destruct (net u) as [r|]; [|done]. cbn.
  by destruct (mapM _ us).
Qed.

(** [addAll] stores what the network answers for every URL, or nothing. *)
Lemma sw_addAll_spec (net : SW.Network) (urls : list string) : forall c,
  match SW.addAll net urls c with
  | Some c' =>
      (forall u, u ∈ urls -> is_Some (net u))
      /\ (forall u, c' !! u = if decide (u ∈ urls) then net u else c !! u)
  | None => exists u, u ∈ urls /\ net u = None
  end.
Proof.
  induction urls as [|u us IH]; intros c.
  - cbn. split; [by intros u Hu; apply elem_of_nil in Hu|].
    intros u. by rewrite decide_False by apply not_elem_of_nil.
  - rewrite sw_addAll_cons. destruct (net u) as [r|] eqn:E.
    2:{ exists u. split; [apply elem_of_cons; by left|done]. }
    specialize (IH (<[u := r]> c)).
    destruct (SW.addAll net us (<[u := r]> c)) as [c'|].
    + destruct IH as [H1 H2]. split.
      * intros v Hv. apply elem_of_cons in Hv as [->|Hv]; [by rewrite E|by apply H1].
      * intros v. rewrite H2. destruct (decide (v ∈ us)) as [Hv|Hv].
        { rewrite decide_True; [done|]. apply elem_of_cons. by right. }
        destruct (decide (v = u)) as [->|Hne].
        { unfold SW.Cache in *.
          rewrite lookup_insert_eq, decide_True; [done|]. apply elem_of_cons. by left. }
        unfold SW.Cache in *.
        rewrite lookup_insert_ne by done. rewrite decide_False; [done|].
        intros H. by apply elem_of_cons in H as [?|?].
    + destruct IH as (v & Hv & Ev). exists v. split; [|done].
      apply elem_of_cons. by right.
Qed.

Lemma sw_open_lookup (name : string) (cs : SW.CacheStorage) :
  is_Some (SW.lookupCache name (SW.open name cs)).
Proof.
  unfold SW.open. case_bool_decide as H.
  - induction cs as [|[n c] cs IH]; [by apply elem_of_nil in H|].
    cbn [SW.lookupCache]. case_bool_decide as E; [done|].
    apply IH. cbn in H. apply elem_of_cons in H as [H|H]; [by subst|done].
  - induction cs as [|[n c] cs IH].
    + cbn. by rewrite bool_decide_true.
    + cbn [app SW.lookupCache]. case_bool_decide as E; [done|].
      apply IH. intros H'. apply H. cbn. apply elem_of_cons. by right.
Qed.

Lemma sw_open_NoDup (name : string) (cs : SW.CacheStorage) :
  NoDup cs.*1 -> NoDup (SW.open name cs).*1.
Proof.
  intros Hnd. unfold SW.open. case_bool_decide as H; [done|].
  rewrite fmap_app. apply NoDup_app. split; [done|]. split.
  - intros x Hx Hx'. cbn in Hx'. apply list_elem_of_singleton in Hx'. by subst.
  - cbn. apply NoDup_singleton.
Qed.

Lemma sw_filter_other (name : string) (cs : SW.CacheStorage) :
  name ∉ cs.*1 -> filter (fun nc => nc.1 = name) cs = [].
Proof.
  induction cs as [|[n c] cs IH]; [done|]. cbn [fmap list_fmap fst]. intros H.
  rewrite (filter_cons_False (fun nc : string * SW.Cache => nc.1 = name)).
  - apply IH. intros H'. apply H. apply elem_of_cons. by right.
  - cbn. intros ->. apply H. apply elem_of_cons. by left.
Qed.

(** With cache names that are distinct, [activate] leaves the current
    cache alone. *)
Lemma sw_activate_lookup (cs : SW.CacheStorage) :
  NoDup cs.*1 ->
  SW.activate cs
  = match SW.lookupCache SW.CACHE_NAME cs with
    | Some c => [(SW.CACHE_NAME, c)]
    | None => []
    end.
Proof.
  unfold SW.activate. induction cs as [|[n c] cs IH]; [done|].
  cbn [fmap list_fmap fst SW.lookupCache]. intros Hnd.
  apply NoDup_cons in Hnd as [Hn Hnd]. case_bool_decide as E.
  - subst n.
    rewrite (filter_cons_True (fun nc : string * SW.Cache => nc.1 = SW.CACHE_NAME))
      by done.
    f_equal. by apply sw_filter_other.
  - rewrite (filter_cons_False (fun nc : string * SW.Cache => nc.1 = SW.CACHE_NAME))
      by done.
    by apply IH.
Qed.

Lemma sw_update_lookup (name : string) (c : SW.Cache) (cs : SW.CacheStorage) :
  is_Some (SW.lookupCache name cs) ->
  SW.lookupCache name (SW.update name c cs) = Some c
  /\ (SW.update name c cs).*1 = cs.*1.
Proof.
  induction cs as [|[n c0] cs IH]; cbn [SW.lookupCache SW.update].
  { by intros [? ?]. }
  case_bool_decide as E.
  - intros _. cbn [SW.lookupCache]. by rewrite bool_decide_true.
  - intros H. cbn [SW.lookupCache fmap list_fmap]. rewrite bool_decide_false by done.
    destruct (IH H) as [H1 H2]. split; [done|]. cbn. by f_equal.
Qed.

(** X18: the installation succeeds exactly when the network answers every
    URL of [ASSETS]; a failure stores nothing (at most the empty cache is
    created).  After a successful installation followed by the activation,
    every asset is answered by the service worker with the response fetched
    at installation time, whatever the network does later, also offline. *)
Theorem X18_assets_served_offline (net later : SW.Network) (cs : SW.CacheStorage) :
  NoDup cs.*1 ->
  let r := SW.install net cs in
  (fst r = true <-> forall u, u ∈ SW.ASSETS -> is_Some (net u))
  /\ (fst r = false -> snd r = SW.open SW.CACHE_NAME cs)
  /\ (fst r = true ->
      forall u, u ∈ SW.ASSETS ->
        is_Some (net u) /\ SW.onFetch later (SW.activate (snd r)) u = net u).
Proof.
  intros Hnd. cbv zeta. unfold SW.install.
  pose proof (sw_open_lookup SW.CACHE_NAME cs) as Hc.
  pose proof (sw_open_NoDup SW.CACHE_NAME cs Hnd) as Hnd'.
  set (cs0 := SW.open SW.CACHE_NAME cs) in *.
  destruct (SW.lookupCache SW.CACHE_NAME cs0) as [c|] eqn:Ec; [|by destruct Hc].
  pose proof (sw_addAll_spec net SW.ASSETS c) as HA.
  destruct (SW.addAll net SW.ASSETS c) as [c'|]; cbn [fst snd].
  - destruct HA as [H1 H2]. split; [done|]. split; [done|].
    intros _ u Hu. split; [by apply H1|].
    destruct (sw_update_lookup SW.CACHE_NAME c' cs0) as [L N]; [by rewrite Ec|].
    rewrite sw_activate_lookup, L by (by rewrite N).
    unfold SW.onFetch. cbn [SW.matchAll]. rewrite H2, decide_True by done.
    destruct (H1 u Hu) as [resp ->]. done.
  - destruct HA as (u & Hu & E). split; [|done]. split; [done|].
    intros H. destruct (H u Hu) as [? ?]. congruence.
Qed.

Lemma X18_assets_served_offline_witness :
  SW.onFetch Demo.offline (SW.activate (snd (SW.install Demo.online [])))
    "./index.html"
  = Some "v4:./index.html".
Proof.
  destruct (X18_assets_served_offline Demo.online Demo.offline [])
    as (H1 & _ & H2); [constructor|].
  destruct (H2 (proj2 H1 (fun u _ => ltac:(by eexists))) "./index.html") as [_ ->].
  - unfold SW.ASSETS. apply elem_of_cons. right. apply elem_of_cons. by left.
  - done.
Defined.

(** X19: with distinct cache names, activation deletes every cache but the
    current one, whose content is untouched: afterwards a request is
    answered from the current cache if it holds the URL and is passed to the
    network otherwise, so an entry of an older cache, which [caches.match]
    would have found first, no longer answers. *)
Theorem X19_activate_drops_old_caches (net : SW.Network) (cs : SW.CacheStorage)
    (url : string) :
  NoDup cs.*1 ->
  SW.activate cs
  = match SW.lookupCache SW.CACHE_NAME cs with
    | Some c => [(SW.CACHE_NAME, c)]
    | None => []
    end
  /\ SW.onFetch net (SW.activate cs) url
     = match SW.lookupCache SW.CACHE_NAME cs ≫= (fun c => c !! url) with
       | Some response => Some response
       | None => net url
       end
  /\ (forall old stale c rest,
        cs = (old, <[url := stale]> c) :: rest ->
        SW.onFetch net cs url = Some stale).
Proof.
  intros Hnd. rewrite sw_activate_lookup by done. split; [done|]. split.
  - unfold SW.onFetch. destruct (SW.lookupCache SW.CACHE_NAME cs) as [c|]; [|done].
    cbn. by destruct (c !! url).
  - intros old stale c rest ->. unfold SW.onFetch. cbn [SW.matchAll].
    unfold SW.Cache in *. by rewrite lookup_insert_eq.
Qed.

Lemma X19_activate_drops_old_caches_witness :
  let old : SW.CacheStorage := [("puzzle-ultimate-v3", {["./script.js" := "v3"]})] in
  let cs := snd (SW.install Demo.online old) in
  SW.onFetch Demo.offline cs "./script.js" = Some "v3"
  /\ SW.onFetch Demo.offline (SW.activate cs) "./script.js" = Some "v4:./script.js".
Proof.
  cbv zeta. split; [by vm_compute|].
  destruct (X19_activate_drops_old_caches Demo.offline
              (snd (SW.install Demo.online
                      [("puzzle-ultimate-v3", {["./script.js" := "v3"]})]))
              "./script.js") as (_ & -> & _).
  - apply (bool_decide_unpack _). by vm_compute.
  - by vm_compute.
Defined.

(** ** Background and overlay of a page *)

Lemma tilesOps_no_overlay env inp g gap bsz b (imgs : list Img) : forall i,
  filter isOverlay (tilesOps env inp g gap bsz b i imgs) = [].
Proof.
  induction imgs as [|im rest IH]; intros i; cbn [tilesOps]; [done|].
  rewrite !filter_app, IH, app_nil_r.
  unfold tileOps, drawImageOrPlaceholder, placeholder, drawNumber, coverDraw.
  rewrite filter_app.
  destruct (decode env im) as [[iw ih]|]; cbv zeta;
    try (destruct (_ =? 0); [destruct (_ <? 0) | destruct (Qgtb _ _)]).
  all: destruct (negb (in_showNum inp)),
    (includes (in_fontPos inp) "bottom"), (includes (in_fontPos inp) "top"),
    (includes (in_fontPos inp) "left"), (includes (in_fontPos inp) "right"),
    (in_enableStroke inp); done.
Qed.

Lemma generate_page_at env inp w (i : nat) (page : Blob) :
  images w <> [] ->
  generatedBlobs (generate env inp w) !! i = Some (Some page) ->
  page = pageAt env inp w (Z.of_nat i).
Proof.
  intros Hne Hi. destruct (generate_prefix env inp w Hne) as (k & tail & G & T).
  rewrite G in Hi.
  assert (length (map (fun b => Some (pageAt env inp w b)) (seqZ 0 (Z.of_nat k))) = k)
    as HL by (rewrite length_map, length_seqZ; lia).
  destruct (decide (i < k)%nat) as [Hlt|Hge].
  - rewrite lookup_app_l in Hi by lia.
    change (map (fun b => Some (pageAt env inp w b)))
      with (fmap (M:=list) (fun b => Some (pageAt env inp w b))) in Hi.
    rewrite list_lookup_fmap in Hi.
    destruct (seqZ 0 (Z.of_nat k) !! i) as [b|] eqn:E; [|done].
    apply lookup_seqZ in E as [-> _]. cbn in Hi. rewrite Z.add_0_l in Hi. congruence.
  - rewrite lookup_app_r in Hi by lia.
    destruct T as [T|T]; rewrite T in Hi; [done|].
    by destruct (i - _)%nat as [|n]; [|destruct n].
Qed.

(** X20: every page a run produces, whatever happens during the run,
    starts with a white background over the whole page; when an overlay
    image is set it is drawn exactly once, as the last operation and so over
    the tiles and their numbers, stretched over the whole page with the
    chosen opacity and blend mode; without an overlay image none is
    drawn. *)
Theorem X20_background_and_overlay env inp w (i : nat) (page : Blob) :
  images w <> [] ->
  generatedBlobs (generate env inp w) !! i = Some (Some page) ->
  let ops := cv_ops (blob_page page) in
  let whole := wholePage (blob_page page) in
  head ops = Some (FillRect "#FFFFFF" whole)
  /\ match overlayImg w with
     | Some src =>
         last ops = Some (DrawOverlay src (in_overlayOpacityRange inp)
                            (in_overlayMode inp) whole)
         /\ length (filter isOverlay ops) = 1%nat
     | None => filter isOverlay ops = []
     end.
Proof.
  intros Hne Hi. rewrite (generate_page_at env inp w i page Hne Hi). cbv zeta.
  unfold pageAt, pageBlob, encode, pageOf, wholePage.
  cbn [blob_page cv_ops cv_width cv_height head].
  split; [done|].
  rewrite filter_cons_False by (intros []). rewrite filter_app, tilesOps_no_overlay.
  destruct (overlayImg w) as [src|]; [|done]. split; [|done].
  rewrite app_comm_cons. by rewrite last_snoc.
Qed.

Lemma X20_background_and_overlay_witness :
  let w := Sample.world 3 [] in
  let inp := Sample.inp (Some 2) (Some 1) None in
  match generatedBlobs (generate (Sample.env [] None) inp w) !! 1%nat with
  | Some (Some page) => filter isOverlay (cv_ops (blob_page page)) = []
  | _ => False
  end.
Proof.
  cbv zeta.
  destruct (generatedBlobs _ !! 1%nat) as [[page|]|] eqn:E.
  - by destruct (X20_background_and_overlay (Sample.env [] None)
                   (Sample.inp (Some 2) (Some 1) None) (Sample.world 3 []) 1 page
                   ltac:(by vm_compute) E) as [_ H].
  - vm_compute in E. discriminate.
  - vm_compute in E. discriminate.
Defined.

(** ** Removing duplicates twice *)

Lemma first_bearer (imgs : list Img) (name : string) :
  name ∈ map img_name imgs ->
  exists i img, first_of_name imgs i img /\ img_name img = name.
Proof.
  induction imgs as [|im rest IH]; cbn [map]; intros H.
  { by apply elem_of_nil in H. }
  destruct (decide (img_name im = name)) as [E|E].
  - exists 0%nat, im. split; [|done]. split; [done|]. intros j ? Hj. lia.
  - apply elem_of_cons in H as [H|H]; [congruence|].
    destruct (IH H) as (i & img & [Hi Hfirst] & Hn).
    exists (S i), img. split; [|done]. split; [done|].
    intros [|j] img' Hj Hl.
    + injection Hl as <-. congruence.
    + apply (Hfirst j img'); [lia|done].
Qed.

Section Dedup.

Variable w : World.
Hypothesis Hcons : store_consistent w.

Local Abbreviation keep := (fun r => rec_id r ∉ later_dups ∅ (images w)).

Lemma kept_first r :
  r ∈ filter keep (db w) -> exists i, first_of_name (images w) i (toImg r).
Proof.
  intros Hr. apply list_elem_of_filter in Hr as [Hkeep Hr].
  destruct Hcons as [Hperm _].
  assert (toImg r ∈ images w) as Hin.
  { rewrite Hperm. by apply list_elem_of_fmap_2. }
  apply list_elem_of_lookup in Hin as [i Hi]. exists i. split; [done|].
  intros j img' Hj Hl Hn. apply Hkeep. apply later_dups_elem.
  pick i (toImg r). right. pick j img'. done.
Qed.

Lemma first_kept i img :
  first_of_name (images w) i img -> exists r, r ∈ filter keep (db w) /\ toImg r = img.
Proof.
  intros [Hi Hfirst]. pose proof (store_ids_NoDup w Hcons) as Hnd.
  destruct Hcons as [Hperm _].
  assert (img ∈ map toImg (db w)) as Hin.
  { rewrite <- Hperm. by apply list_elem_of_lookup_2 in Hi. }
  apply list_elem_of_fmap in Hin as (r & -> & Hr).
  exists r. split; [|done]. apply list_elem_of_filter. split; [|done].
  intros Hdel. apply later_dups_elem in Hdel as (i' & im' & Hi' & Hid & Hd).
  assert (i' = i) as ->.
  { apply (NoDup_lookup (map img_id (images w)) _ _ (rec_id r)); [done| |].
    - rewrite list_lookup_fmap, Hi'. cbn. by rewrite Hid.
    - by rewrite list_lookup_fmap, Hi. }
  assert (im' = toImg r) as -> by congruence.
  destruct Hd as [Hs | (j & img' & Hl & Hj & Hn)]; [by apply not_elem_of_empty in Hs|].
  by apply (Hfirst j img').
Qed.

Lemma first_unique i1 i2 img1 img2 :
  first_of_name (images w) i1 img1 -> first_of_name (images w) i2 img2 ->
  img_name img1 = img_name img2 -> img1 = img2.
Proof.
  intros [H1 F1] [H2 F2] E.
  destruct (Nat.lt_trichotomy i1 i2) as [H|[H|H]].
  - exfalso. by apply (F2 i1 img1).
  - congruence.
  - exfalso. by apply (F1 i2 img2).
Qed.

Lemma dedup_names_NoDup : NoDup (map img_name (images (removeDuplicates w))).
Proof.
  rewrite removeDuplicates_images, removeDuplicates_db, map_map.
  apply NoDup_fmap_2_strong.
  - intros r1 r2 Hr1 Hr2 E.
    destruct (kept_first r1 Hr1) as [i1 F1]. destruct (kept_first r2 Hr2) as [i2 F2].
    pose proof (first_unique i1 i2 _ _ F1 F2 E) as Eimg.
    destruct Hcons as [_ Hs]. apply StronglySorted_lt_NoDup in Hs.
    apply list_elem_of_filter in Hr1 as [_ Hr1].
    apply list_elem_of_filter in Hr2 as [_ Hr2].
    apply (NoDup_fmap_eq rec_id (db w)); try done.
    by apply (f_equal img_id) in Eimg.
  - apply NoDup_filter. destruct Hcons as [_ Hs].
    apply StronglySorted_lt_NoDup in Hs. by apply NoDup_fmap_1 in Hs.
Qed.

End Dedup.

(** X21: after [removeDuplicates] no display name occurs twice in the
    list, every name that was shown still has exactly its first bearer, and
    the list again shows the store; removing duplicates a second time changes
    nothing at all. *)
Theorem X21_removeDuplicates_settles (w : World) :
  store_consistent w ->
  let w' := removeDuplicates w in
  NoDup (map img_name (images w'))
  /\ (forall name, name ∈ map img_name (images w') <-> name ∈ map img_name (images w))
  /\ store_consistent w'
  /\ removeDuplicates w' = w'.
Proof.
  intros Hcons. cbv zeta. pose proof (dedup_names_NoDup w Hcons) as Hnd.
  split; [done|]. split; [|split].
  - intros name. split.
    + intros H. apply list_elem_of_fmap in H as (img & -> & Himg).
      rewrite removeDuplicates_images, removeDuplicates_db in Himg.
      apply list_elem_of_fmap in Himg as (r & -> & Hr).
      destruct (kept_first w Hcons r Hr) as (i & Hi & _).
      apply list_elem_of_fmap_2. by eapply list_elem_of_lookup_2.
    + intros H. destruct (first_bearer _ _ H) as (i & img & F & <-).
      destruct (first_kept w Hcons i img F) as (r & Hr & <-).
      apply list_elem_of_fmap_2.
      rewrite removeDuplicates_images, removeDuplicates_db.
      by apply list_elem_of_fmap_2.
  - split; [by rewrite removeDuplicates_images|].
    rewrite removeDuplicates_db. apply StronglySorted_filter, Hcons.
  - unfold removeDuplicates at 1. unfold scan. rewrite scan_deleteIds.
    cbn [deleteIds seen app].
    rewrite later_dups_distinct; [|done|intros img _; apply not_elem_of_empty].
    cbn [foldl]. unfold refreshImagesFromDB, DB_getAll.
    rewrite <- removeDuplicates_images. by destruct (removeDuplicates w).
Qed.

Lemma X21_removeDuplicates_settles_witness :
  let w := Sample.gallery [Sample.rec 1 "a"; Sample.rec 2 "b"; Sample.rec 3 "a"]
             [toImg (Sample.rec 3 "a"); toImg (Sample.rec 1 "a");
              toImg (Sample.rec 2 "b")] in
  removeDuplicates (removeDuplicates w) = removeDuplicates w.
Proof.
  cbv zeta.
  match goal with
  | |- removeDuplicates (removeDuplicates ?w) = _ =>
      destruct (X21_removeDuplicates_settles w) as (_ & _ & _ & H); [|exact H]
  end.
  split; cbn.
  - etrans; [apply Permutation_swap|]. apply Permutation_skip, Permutation_swap.
  - repeat constructor.
Defined.
